(** * Structural type canonicalisation and shape indexing

    A shallow embedding of [src/utils/shape.ts] and
    [src/utils/declarations.ts] (plus the bucket lookup of the
    [no-duplicate-type-declaration] rule), followed by the properties
    established about them.

    Modelling conventions.
    - Objects of the TypeScript compiler API ([ts.Type], [ts.Symbol],
      [ts.Node], [ts.Signature]) are opaque handles compared by identity;
      they are numbered, and every accessor the code calls on them is a
      field of the record [TypeChecker].  The type graph may be cyclic: a
      handle can be reachable from itself.
    - JavaScript strings are [string]s, compared character by character
      where the code relies on the default ordering.
    - [depthLimit] and node positions are integers ([Z]); the numbers of
      JavaScript compute as they do on the safe integers
      ([isSafeInteger]), and statements about every depth are made for
      those.
    - [String.prototype.localeCompare] and [path.sep] belong to the
      runtime, not to the repository: they are fields of [Host].  What
      ECMAScript requires of [localeCompare] is [Collation]; statements
      that need it say so. *)

From Stdlib Require Import ZArith Lia Bool Ascii.
From Stdlib Require String OrderedTypeEx.
From Stdlib Require Import Sorting.Sorted Sorting.Permutation.
From stdpp Require Import gmap strings list sorting.

Local Open Scope Z_scope.

(** ** JavaScript string and array primitives *)

Module Js.

(** [Array.prototype.join]. *)
Definition join (sep : string) (parts : list string) : string :=
  String.concat sep parts.

(** Truthiness of a string: only the empty string is falsy. *)
Definition truthy (s : string) : bool :=
  match s with
  | EmptyString => false
  | String _ _ => true
  end.

Definition isWhiteSpace (c : ascii) : bool :=
  let n := Ascii.N_of_ascii c in
  ((9 <=? n)%N && (n <=? 13)%N) || (n =? 32)%N || (n =? 160)%N.

Fixpoint trimStart (s : string) : string :=
  match s with
  | EmptyString => EmptyString
  | String c rest => if isWhiteSpace c then trimStart rest else s
  end.

Fixpoint trimEnd (s : string) : string :=
  match s with
  | EmptyString => EmptyString
  | String c rest =>
      match trimEnd rest with
      | EmptyString => if isWhiteSpace c then EmptyString else String c EmptyString
      | rest' => String c rest'
      end
  end.

(** [String.prototype.trim]. *)
Definition trim (s : string) : string := trimEnd (trimStart s).

(** [String.prototype.includes]. *)
Fixpoint includes (needle hay : string) : bool :=
  String.prefix needle hay ||
  match hay with
  | EmptyString => false
  | String _ rest => includes needle rest
  end.

(** [s.split(sep).join("/")] for a one-character separator. *)
Fixpoint replaceSep (sep : ascii) (s : string) : string :=
  match s with
  | EmptyString => EmptyString
  | String c rest =>
      String (if Ascii.eqb c sep then "/"%char else c) (replaceSep sep rest)
  end.

(** [Array.prototype.sort(compare)]: a stable sort.  An element goes in
    front of the first later element it does not compare greater than,
    so elements that compare equal keep their relative order. *)
Section Sort.
Context {A : Type} (compare : A -> A -> Z).

Fixpoint insert (x : A) (sorted : list A) : list A :=
  match sorted with
  | [] => [x]
  | y :: rest =>
      if compare x y <=? 0 then x :: y :: rest else y :: insert x rest
  end.

Definition sort (l : list A) : list A := foldr insert [] l.
End Sort.

Definition sign (c : comparison) : Z :=
  match c with
  | Lt => -1
  | Eq => 0
  | Gt => 1
  end.

(** The comparison used by [sort()] without an argument on strings. *)
Definition defaultCompare (a b : string) : Z := sign (String.compare a b).

Definition sortStrings (l : list string) : list string := sort defaultCompare l.

End Js.

(** ** The runtime *)

Record Host := {
  (** [a.localeCompare(b)]: negative, zero or positive. *)
  localeCompare : string -> string -> Z;
  (** [path.sep] *)
  sep : ascii;
}.

(** What ECMAScript requires of [localeCompare]: a consistent comparator,
    that is, a total preorder on strings.  Two different strings may
    compare equal (canonically equivalent strings do). *)
Record Collation (host : Host) : Prop := {
  collation_antisym : forall a b,
    Z.sgn (localeCompare host a b) = - Z.sgn (localeCompare host b a);
  collation_trans : forall a b c,
    localeCompare host a b <= 0 -> localeCompare host b c <= 0 ->
    localeCompare host a c <= 0;
}.

(** The stronger assumption that the comparison is a total order: no two
    different strings compare equal.  [localeCompare] need not satisfy
    it. *)
Record HostLaws (host : Host) : Prop := {
  localeCompare_antisym : forall a b,
    Z.sgn (localeCompare host a b) = - Z.sgn (localeCompare host b a);
  localeCompare_trans : forall a b c,
    localeCompare host a b <= 0 -> localeCompare host b c <= 0 ->
    localeCompare host a c <= 0;
  localeCompare_eq : forall a b, localeCompare host a b = 0 -> a = b;
}.

(** ** The compiler API *)

Abbreviation TypeId := N (only parsing).
Abbreviation NodeId := N (only parsing).
Abbreviation SymbolId := N (only parsing).
Abbreviation SignatureId := N (only parsing).

Inductive IndexKind := IndexKindString | IndexKindNumber.

Inductive SyntaxKind :=
| InterfaceDeclaration
| TypeAliasDeclaration
| ReadonlyKeyword
| OtherKind.

Definition SyntaxKind_eqb (a b : SyntaxKind) : bool :=
  match a, b with
  | InterfaceDeclaration, InterfaceDeclaration
  | TypeAliasDeclaration, TypeAliasDeclaration
  | ReadonlyKeyword, ReadonlyKeyword
  | OtherKind, OtherKind => true
  | _, _ => false
  end.

(** [ts.SymbolFlags.Optional] *)
Definition SymbolFlags_Optional : Z := 16777216.

Record TypeChecker := {
  (* ts.Type *)
  hasAliasInfo : TypeId -> bool;   (* aliasSymbol || aliasTypeArguments *)
  isUnion : TypeId -> bool;
  isIntersection : TypeId -> bool;
  types : TypeId -> list TypeId;
  getProperties : TypeId -> list SymbolId;
  getCallSignatures : TypeId -> list SignatureId;
  getConstructSignatures : TypeId -> list SignatureId;
  (* ts.TypeChecker *)
  getTypeAtLocation : NodeId -> TypeId;
  getApparentType : TypeId -> TypeId;
  (* the value type of the index signature, when there is one *)
  getIndexInfoOfType : TypeId -> IndexKind -> option TypeId;
  getTypeOfSymbolAtLocation : SymbolId -> NodeId -> TypeId;
  getSymbolAtLocation : NodeId -> option SymbolId;
  signatureToString : SignatureId -> string;
  typeToString : TypeId -> NodeId -> string;
  (* ts.Symbol *)
  getName : SymbolId -> string;
  getFlags : SymbolId -> Z;
  valueDeclaration : SymbolId -> option NodeId;
  getDeclarations : SymbolId -> option (list NodeId);
  (* ts.canHaveModifiers(decl) ? ts.getModifiers(decl) : undefined *)
  getModifiers : NodeId -> option (list SyntaxKind);
}.

(** ** shape.ts *)

Record CanonicalizeOptions := {
  depthLimit : option Z;
  normalizeAlias : option bool;
}.

Record InternalOptions := {
  options : CanonicalizeOptions;
  fallbackNode : NodeId;
}.

Record PropertyShape := {
  name : string;
  optional : bool;
  readonly : bool;
  typeKey : string;
}.

(** [kind: "object"] and [kind: "other"]. *)
Inductive DeclarationShape :=
| ObjectShape (canonical : string) (properties : list PropertyShape)
| OtherShape (canonical : string).

Definition canonical (shape : DeclarationShape) : string :=
  match shape with
  | ObjectShape c _ => c
  | OtherShape c => c
  end.

Definition DepthLimit : string := "#DepthLimit".

(** What a call of [visit] does with the memo. *)
Inductive Event :=
| EvLimit (type : TypeId)               (* depth <= 0: the sentinel is returned *)
| EvHit (type : TypeId) (key : string)  (* the memo answers *)
| EvEnter (type : TypeId) (depth : Z)   (* no answer: the type is classified *)
| EvExit (type : TypeId) (key : string) (* memo.set(current, result); return *).

Definition Event_eqb (a b : Event) : bool :=
  match a, b with
  | EvLimit t, EvLimit u => (t =? u)%N
  | EvHit t k, EvHit u l => (t =? u)%N && String.eqb k l
  | EvEnter t d, EvEnter u e => (t =? u)%N && (d =? e)
  | EvExit t k, EvExit u l => (t =? u)%N && String.eqb k l
  | _, _ => false
  end.

(** The types whose [visit] has started and not yet returned, innermost
    first, after the events [log] (newest first). *)
Fixpoint inProgress (log : list Event) : list TypeId :=
  match log with
  | [] => []
  | EvEnter t _ :: older => t :: inProgress older
  | EvExit _ _ :: older => tail (inProgress older)
  | _ :: older => inProgress older
  end.

(** Some type was classified again while an earlier [visit] of it was
    still running. *)
Fixpoint reenters (log : list Event) : bool :=
  match log with
  | [] => false
  | EvEnter t _ :: older => existsb (N.eqb t) (inProgress older) || reenters older
  | _ :: older => reenters older
  end.

(** Every answer of the memo is the non-empty key with which an earlier
    [visit] of the same type returned. *)
Fixpoint hitsJustified (log : list Event) : bool :=
  match log with
  | [] => true
  | EvHit t key :: older =>
      Js.truthy key && existsb (Event_eqb (EvExit t key)) older && hitsJustified older
  | _ :: older => hitsJustified older
  end.

(** The key with which the latest [visit] of [t] that has returned did
    return, after the events [log]. *)
Fixpoint lastExit (t : TypeId) (log : list Event) : option string :=
  match log with
  | [] => None
  | EvExit u key :: older => if (u =? t)%N then Some key else lastExit t older
  | _ :: older => lastExit t older
  end.

(** What a memo holding those keys answers for [t]: [memo.get(t)], if it
    is truthy. *)
Definition answerAfter (log : list Event) (t : TypeId) : option string :=
  match lastExit t log with
  | Some key => if Js.truthy key then Some key else None
  | None => None
  end.

(** Every event is the one the keys returned so far call for: an answer
    of the memo for [t] is the non-empty key of the latest returned
    [visit] of [t], and a type is classified, at a positive depth, only
    when there is no such key. *)
Fixpoint memoDecides (log : list Event) : bool :=
  match log with
  | [] => true
  | EvHit t key :: older =>
      match answerAfter older t with
      | Some stored => String.eqb stored key
      | None => false
      end && memoDecides older
  | EvEnter t depth :: older =>
      (0 <? depth)
      && match answerAfter older t with
         | Some _ => false
         | None => true
         end
      && memoDecides older
  | _ :: older => memoDecides older
  end.

Section Shape.
Context (host : Host) (checker : TypeChecker).

Definition isReadonly (symbol : SymbolId) : bool :=
  match getDeclarations checker symbol with
  | Some decls =>
      existsb (fun decl =>
        match getModifiers checker decl with
        | None | Some [] => false
        | Some modifiers =>
            existsb (fun modifier => SyntaxKind_eqb modifier ReadonlyKeyword) modifiers
        end) decls
  | None => false
  end.

(** [prop.valueDeclaration ?? prop.declarations?.[0] ?? fallbackNode] *)
Definition declarationOf (fallbackNode : NodeId) (prop : SymbolId) : NodeId :=
  match valueDeclaration checker prop with
  | Some d => d
  | None =>
      match getDeclarations checker prop with
      | Some (d :: _) => d
      | _ => fallbackNode
      end
  end.

Definition isOptional (prop : SymbolId) : bool :=
  negb (Z.land (getFlags checker prop) SymbolFlags_Optional =? 0).

(** The body of [collectProperties]; [canon type depthLimit normalizeAlias
    fallbackNode] stands for the call of [canonicalizeType].  Every element
    of the mapped array is an object, so the filter on truthy elements
    keeps them all. *)
Section WithCanon.
Context (canon : TypeId -> Z -> bool -> NodeId -> option string).

Definition propertyShapeOf (depthLimit : Z) (normalizeAlias : bool)
    (fallbackNode : NodeId) (prop : SymbolId) : option PropertyShape :=
  let decl := declarationOf fallbackNode prop in
  let propType := getTypeOfSymbolAtLocation checker prop decl in
  typeKey ← canon propType (depthLimit - 1) normalizeAlias decl;
  let optional := isOptional prop in
  let readonly := isReadonly prop in
  Some {| name := getName checker prop;
          optional := optional;
          readonly := readonly;
          typeKey := typeKey |}.

Definition collectPropertiesWith (type : TypeId) (depthLimit : Z)
    (normalizeAlias : bool) (fallbackNode : NodeId) : option (list PropertyShape) :=
  if depthLimit <=? 0 then Some []
  else
    let props := getProperties checker type in
    match props with
    | [] => Some []
    | _ =>
        facts ← mapM (propertyShapeOf depthLimit normalizeAlias fallbackNode) props;
        Some (Js.sort (fun a b => localeCompare host (name a) (name b)) facts)
    end.

Definition entryOf (prop : PropertyShape) : string :=
  let optional := if optional prop then "?" else "" in
  let readonly := if readonly prop then "readonly " else "" in
  readonly +:+ name prop +:+ optional +:+ ":" +:+ typeKey prop.

Definition canonicalizeObjectWith (objectType : TypeId) (depth : Z)
    (normalizeAlias : bool) (fallbackNode : NodeId) : option string :=
  props ← collectPropertiesWith objectType depth normalizeAlias fallbackNode;
  Some ("{" +:+ Js.join "," (map entryOf props) +:+ "}").
End WithCanon.

(** [next.types.map((t) => visit(t, depth - 1))]: the memo is threaded
    through the members from left to right. *)
Fixpoint visitEach {S : Type} (visit : TypeId -> S -> option (string * S))
    (members : list TypeId) (memo : S) : option (list string * S) :=
  match members with
  | [] => Some ([], memo)
  | t :: rest =>
      '(key, memo1) ← visit t memo;
      '(keys, memo2) ← visitEach visit rest memo1;
      Some (key :: keys, memo2)
  end.

Definition renderSignatures (sigs : list SignatureId) : list string :=
  Js.sortStrings (map (fun sig => Js.trim (signatureToString checker sig)) sigs).

Definition nonEmpty {A : Type} (l : list A) : bool :=
  match l with
  | [] => false
  | _ :: _ => true
  end.

(** [memo.get(current)] followed by [if (cached)]: an empty key counts
    as absent. *)
Definition cachedKey (memo : gmap N string) (current : TypeId) : option string :=
  match memo !! current with
  | Some key => if Js.truthy key then Some key else None
  | None => None
  end.

Definition resolveAlias (normalizeAlias : bool) (current : TypeId) : TypeId :=
  if normalizeAlias && hasAliasInfo checker current then
    let apparent := getApparentType checker current in
    if (apparent =? current)%N then current else apparent
  else current.

(** Steps 4 of [visit]: the cascade that classifies [next] and builds
    its key.  [visitMember t] is [visit(t, depth - 1)]; [canon] is the
    call of [canonicalizeType] made for each property type.  The memo
    (whatever the calls of [visitMember] did to it) is handed back. *)
Definition classify {S : Type}
    (canon : TypeId -> Z -> bool -> NodeId -> option string)
    (visitMember : TypeId -> S -> option (string * S))
    (normalizeAlias : bool) (fallbackNode : NodeId)
    (next : TypeId) (depth : Z) (memo : S) : option (string * S) :=
  let canonicalizeObject := fun objectType d =>
    canonicalizeObjectWith canon objectType d normalizeAlias fallbackNode in
  if isUnion checker next then
    '(parts, memo1) ← visitEach visitMember (types checker next) memo;
    Some ("union<" +:+ Js.join "|" (Js.sortStrings parts) +:+ ">", memo1)
  else if isIntersection checker next then
    '(parts, memo1) ← visitEach visitMember (types checker next) memo;
    Some ("intersection<" +:+ Js.join "&" (Js.sortStrings parts) +:+ ">", memo1)
  else
    match getIndexInfoOfType checker next IndexKindString with
    | Some stringType =>
        let numberIndex := getIndexInfoOfType checker next IndexKindNumber in
        '(stringKey, memo1) ← visitMember stringType memo;
        '(numberKey, memo2) ←
          match numberIndex with
          | Some numberType => visitMember numberType memo1
          | None => Some ("", memo1)
          end;
        props ← canonicalizeObject next (depth - 1);
        Some ("object[string:" +:+ stringKey +:+ ";number:" +:+ numberKey
                +:+ "]" +:+ props, memo2)
    | None =>
        if nonEmpty (getProperties checker next) then
          props ← canonicalizeObject next (depth - 1);
          Some ("object" +:+ props, memo)
        else if nonEmpty (getCallSignatures checker next)
                || nonEmpty (getConstructSignatures checker next) then
          let calls := renderSignatures (getCallSignatures checker next) in
          let constructs := renderSignatures (getConstructSignatures checker next) in
          Some ("callable<" +:+ Js.join ";" calls +:+ "|"
                  +:+ Js.join ";" constructs +:+ ">", memo)
        else
          Some (typeToString checker next fallbackNode, memo)
    end.

(** The closure [visit] of [canonicalizeType], with the [memo] it
    captures made explicit.  [fuel] bounds the nesting of calls; the depth
    test comes first, as in the source.  A property type is canonicalised
    by a new call of [canonicalizeType], hence with a memo of its own. *)
Fixpoint visit (fuel : nat) (normalizeAlias : bool) (fallbackNode : NodeId)
    (current : TypeId) (depth : Z) (memo : gmap N string) {struct fuel}
    : option (string * gmap N string) :=
  if depth <=? 0 then Some (DepthLimit, memo)
  else
    match fuel with
    | O => None
    | S fuel' =>
        match cachedKey memo current with
        | Some cached => Some (cached, memo)
        | None =>
            let next := resolveAlias normalizeAlias current in
            let canon := fun t d na fb => fst <$> visit fuel' na fb t d ∅ in
            let visitMember := fun t m =>
              visit fuel' normalizeAlias fallbackNode t (depth - 1) m in
            '(result, memo') ←
              classify canon visitMember normalizeAlias fallbackNode next depth memo;
            Some (result, <[current := result]> memo')
        end
    end.

(** [canonicalizeType] run with a given amount of fuel: a new memo, then
    [visit(type, depthLimit)]. *)
Definition canonicalizeTypeFuel (fuel : nat) (type : TypeId) (depthLimit : Z)
    (normalizeAlias : bool) (fallbackNode : NodeId) : option string :=
  fst <$> visit fuel normalizeAlias fallbackNode type depthLimit ∅.

(** [visit] once more, recording what happens to the memo of one
    traversal: the state is the memo together with the events so far,
    newest first.  Property types start traversals of their own and are
    not recorded. *)
Fixpoint visitTraced (fuel : nat) (normalizeAlias : bool) (fallbackNode : NodeId)
    (current : TypeId) (depth : Z) (st : gmap N string * list Event) {struct fuel}
    : option (string * (gmap N string * list Event)) :=
  let '(memo, log) := st in
  if depth <=? 0 then Some (DepthLimit, (memo, EvLimit current :: log))
  else
    match fuel with
    | O => None
    | S fuel' =>
        match cachedKey memo current with
        | Some cached => Some (cached, (memo, EvHit current cached :: log))
        | None =>
            let next := resolveAlias normalizeAlias current in
            let visitMember := fun t s =>
              visitTraced fuel' normalizeAlias fallbackNode t (depth - 1) s in
            '(result, (memo', log')) ←
              classify (canonicalizeTypeFuel fuel') visitMember normalizeAlias
                fallbackNode next depth (memo, EvEnter current depth :: log);
            Some (result, (<[current := result]> memo', EvExit current result :: log'))
        end
    end.

(** The events of one top-level [canonicalizeType] call, oldest last. *)
Definition traceOf (type : TypeId) (depthLimit : Z) (normalizeAlias : bool)
    (fallbackNode : NodeId) : list Event :=
  match visitTraced (Z.to_nat depthLimit) normalizeAlias fallbackNode type depthLimit (∅, []) with
  | Some (_, (_, log)) => log
  | None => []
  end.

Definition depthLimitOr (dflt : Z) (o : InternalOptions) : Z :=
  default dflt (depthLimit (options o)).

Definition normalizeAliasOf (o : InternalOptions) : bool :=
  default true (normalizeAlias (options o)).

(** [canonicalizeType(type, { checker, depthLimit = 8, normalizeAlias = true,
    fallbackNode })].  The nesting of [visit] never exceeds the depth limit
    ([canonicalizeType_returns] below), so the fuel given here is enough and
    the default is never taken. *)
Definition canonicalizeType (type : TypeId) (o : InternalOptions) : string :=
  let depthLimit := depthLimitOr 8 o in
  default "" (canonicalizeTypeFuel (Z.to_nat depthLimit) type depthLimit
                (normalizeAliasOf o) (fallbackNode o)).

(** [collectProperties(type, { checker, depthLimit = 7, normalizeAlias = true,
    fallbackNode })]. *)
Definition collectProperties (type : TypeId) (o : InternalOptions) : list PropertyShape :=
  let depthLimit := depthLimitOr 7 o in
  default [] (collectPropertiesWith (canonicalizeTypeFuel (Z.to_nat depthLimit))
                type depthLimit (normalizeAliasOf o) (fallbackNode o)).

Definition internalOptions (depthLimit : Z) (normalizeAlias : bool)
    (fallbackNode : NodeId) : InternalOptions :=
  {| options := {| depthLimit := Some depthLimit; normalizeAlias := Some normalizeAlias |};
     fallbackNode := fallbackNode |}.

Definition describeDeclaration (symbol : SymbolId) (o : CanonicalizeOptions)
    : option DeclarationShape :=
  let depthLimit := default 8 (depthLimit o) in
  let normalizeAlias := default true (normalizeAlias o) in
  match getDeclarations checker symbol with
  | Some (decl :: _) =>
      let type := getTypeAtLocation checker decl in
      let canonical :=
        canonicalizeType type (internalOptions depthLimit normalizeAlias decl) in
      let properties :=
        collectProperties type (internalOptions (depthLimit - 1) normalizeAlias decl) in
      if nonEmpty properties then Some (ObjectShape canonical properties)
      else Some (OtherShape canonical)
  | _ => None
  end.

Definition canonicalizeDeclarationSymbol (symbol : SymbolId) (o : CanonicalizeOptions)
    : string :=
  match describeDeclaration symbol o with
  | Some shape => canonical shape
  | None => ""
  end.
End Shape.

(** ** declarations.ts *)

(** A syntax node: identity, kind, the identifier node of its name (if
    any), start position and children. *)
Inductive Node :=
| MkNode (id : NodeId) (kind : SyntaxKind) (nameNode : option NodeId)
         (pos : Z) (children : list Node).

Definition node_id (n : Node) : NodeId := let 'MkNode id _ _ _ _ := n in id.
Definition node_kind (n : Node) : SyntaxKind := let 'MkNode _ kind _ _ _ := n in kind.
Definition node_name (n : Node) : option NodeId := let 'MkNode _ _ nm _ _ := n in nm.
Definition pos (n : Node) : Z := let 'MkNode _ _ _ p _ := n in p.
Definition node_children (n : Node) : list Node := let 'MkNode _ _ _ _ cs := n in cs.

Definition isInterfaceDeclaration (n : Node) : bool :=
  SyntaxKind_eqb (node_kind n) InterfaceDeclaration.

Definition isTypeAliasDeclaration (n : Node) : bool :=
  SyntaxKind_eqb (node_kind n) TypeAliasDeclaration.

Record SourceFile := {
  fileName : string;
  isDeclarationFile : bool;
  statements : list Node;
}.

Record DeclarationInfo := {
  symbol : SymbolId;
  node : Node;
  sourceFile : SourceFile;
  shape : DeclarationShape;
}.

Record ProgramState := {
  byCanonical : gmap string (list DeclarationInfo);
  byNode : gmap N DeclarationInfo;
  interfaceInfos : list DeclarationInfo;
  checker : TypeChecker;
}.

Record Program := {
  program_id : N;
  getSourceFiles : list SourceFile;
  getTypeChecker : TypeChecker;
}.

Section Declarations.
Context (host : Host).

Definition normalizePath (file : string) : string := Js.replaceSep (sep host) file.

Definition compareDeclarationInfo (a b : DeclarationInfo) : Z :=
  let fileA := normalizePath (fileName (sourceFile a)) in
  let fileB := normalizePath (fileName (sourceFile b)) in
  if negb (String.eqb fileA fileB) then localeCompare host fileA fileB
  else pos (node a) - pos (node b).

Definition shouldSkipSourceFile (sf : SourceFile) : bool :=
  if isDeclarationFile sf then true
  else Js.includes "/node_modules/" (normalizePath (fileName sf)).

Definition noOptions : CanonicalizeOptions :=
  {| depthLimit := None; normalizeAlias := None |}.

(** [list.push(info)] on the bucket of [key], or a new bucket. *)
Definition pushBucket (key : string) (info : DeclarationInfo)
    (buckets : gmap string (list DeclarationInfo)) : gmap string (list DeclarationInfo) :=
  match buckets !! key with
  | Some bucket => <[key := bucket ++ [info]]> buckets
  | None => <[key := [info]]> buckets
  end.

(** What the walk does at one interface or alias node once its shape is
    known. *)
Definition record (info : DeclarationInfo) (st : ProgramState) : ProgramState :=
  let byNode1 := <[node_id (node info) := info]> (byNode st) in
  let byCanonical1 :=
    match shape info with
    | ObjectShape key _ => pushBucket key info (byCanonical st)
    | OtherShape _ => byCanonical st
    end in
  let interfaceInfos1 :=
    if isInterfaceDeclaration (node info) then interfaceInfos st ++ [info]
    else interfaceInfos st in
  {| byCanonical := byCanonical1; byNode := byNode1;
     interfaceInfos := interfaceInfos1; checker := checker st |}.

(** The function [visit] handed to [forEachChild]; a [return] before the
    last line leaves the children of the node unvisited. *)
Fixpoint visitNode (sf : SourceFile) (n : Node) (st : ProgramState) {struct n}
    : ProgramState :=
  let forEachChild :=
    (fix forEachChild (cs : list Node) (st : ProgramState) : ProgramState :=
       match cs with
       | [] => st
       | c :: rest => forEachChild rest (visitNode sf c st)
       end) in
  match n with
  | MkNode _ _ nameNode _ children =>
      if isInterfaceDeclaration n || isTypeAliasDeclaration n then
        match nameNode with
        | None => st
        | Some nm =>
            match getSymbolAtLocation (checker st) nm with
            | None => st
            | Some symbol =>
                match describeDeclaration host (checker st) symbol noOptions with
                | None => st
                | Some shape =>
                    let info := {| symbol := symbol; node := n;
                                   sourceFile := sf; shape := shape |} in
                    forEachChild children (record info st)
                end
            end
        end
      else forEachChild children st
  end.

Definition visitSourceFile (st : ProgramState) (sf : SourceFile) : ProgramState :=
  if shouldSkipSourceFile sf then st
  else foldl (fun st n => visitNode sf n st) st (statements sf).

(** [getProgramState] after a miss in [programStateCache]. *)
Definition buildProgramState (program : Program) : ProgramState :=
  let start := {| byCanonical := ∅; byNode := ∅; interfaceInfos := [];
                  checker := getTypeChecker program |} in
  let walked := foldl visitSourceFile start (getSourceFiles program) in
  {| byCanonical := Js.sort compareDeclarationInfo <$> byCanonical walked;
     byNode := byNode walked;
     interfaceInfos := Js.sort compareDeclarationInfo (interfaceInfos walked);
     checker := checker walked |}.

(** [getProgramState], with the module-level [programStateCache] passed
    in and out. *)
Definition getProgramState (cache : gmap N ProgramState) (program : Program)
    : ProgramState * gmap N ProgramState :=
  match cache !! program_id program with
  | Some cached => (cached, cache)
  | None =>
      let state := buildProgramState program in
      (state, <[program_id program := state]> cache)
  end.

Definition samePropertyShape (candidate prop : PropertyShape) : bool :=
  String.eqb (name candidate) (name prop)
  && Bool.eqb (optional candidate) (optional prop)
  && Bool.eqb (readonly candidate) (readonly prop)
  && String.eqb (typeKey candidate) (typeKey prop).

Definition isSubset (base derived : list PropertyShape) : bool :=
  forallb (fun prop => existsb (fun candidate => samePropertyShape candidate prop) derived)
    base.

(** One turn of the loop of [findBestInterfaceBase]. *)
Definition considerCandidate (target : DeclarationInfo) (targetProps : list PropertyShape)
    (best : option DeclarationInfo) (candidate : DeclarationInfo)
    : option DeclarationInfo :=
  if (symbol candidate =? symbol target)%N then best
  else
    match shape candidate with
    | OtherShape _ => best
    | ObjectShape _ candidateProps =>
        if negb (nonEmpty candidateProps) then best
        else if (length targetProps <=? length candidateProps)%nat then best
        else if negb (isSubset candidateProps targetProps) then best
        else
          match best with
          | None => Some candidate
          | Some b =>
              match shape b with
              | OtherShape _ => Some candidate
              | ObjectShape _ bestProps =>
                  if (length bestProps <? length candidateProps)%nat then Some candidate
                  else if (length candidateProps =? length bestProps)%nat
                          && (compareDeclarationInfo candidate b <? 0)
                  then Some candidate
                  else best
              end
          end
    end.

Definition findBestInterfaceBase (target : DeclarationInfo)
    (interfaceInfos : list DeclarationInfo) : option DeclarationInfo :=
  match shape target with
  | OtherShape _ => None
  | ObjectShape _ targetProps =>
      if negb (nonEmpty targetProps) then None
      else foldl (considerCandidate target targetProps) None interfaceInfos
  end.
End Declarations.

(** ** rules/no-duplicate-type-declaration.ts: the lookup of the original *)

Fixpoint uniqueBySymbolFrom (seen : gset N) (infos : list DeclarationInfo)
    : list DeclarationInfo :=
  match infos with
  | [] => []
  | info :: rest =>
      if decide (symbol info ∈ seen) then uniqueBySymbolFrom seen rest
      else info :: uniqueBySymbolFrom ({[symbol info]} ∪ seen) rest
  end.

Definition uniqueBySymbol (infos : list DeclarationInfo) : list DeclarationInfo :=
  uniqueBySymbolFrom ∅ infos.

(** [sortedUnique[0]] for the bucket of [key]. *)
Definition original (state : ProgramState) (key : string) : option DeclarationInfo :=
  head (uniqueBySymbol (default [] (byCanonical state !! key))).

(** ** Vocabulary of the statements *)

Definition isObjectShape (s : DeclarationShape) : bool :=
  match s with
  | ObjectShape _ _ => true
  | OtherShape _ => false
  end.

Definition propertiesOf (info : DeclarationInfo) : list PropertyShape :=
  match shape info with
  | ObjectShape _ props => props
  | OtherShape _ => []
  end.

Section Vocabulary.
Context (host : Host).

(** A structural base of [target]: another symbol, an object shape, with
    at least one property, fewer than the target has, all of them among
    the properties of the target. *)
Definition Qualifies (target candidate : DeclarationInfo) : Prop :=
  symbol candidate <> symbol target
  /\ isObjectShape (shape candidate) = true
  /\ propertiesOf candidate <> []
  /\ (length (propertiesOf candidate) < length (propertiesOf target))%nat
  /\ forall p, p ∈ propertiesOf candidate -> p ∈ propertiesOf target.

(** Declaration order: file path ascending, then position ascending. *)
Definition DeclarationOrder (a b : DeclarationInfo) : Prop :=
  let fileA := normalizePath host (fileName (sourceFile a)) in
  let fileB := normalizePath host (fileName (sourceFile b)) in
  localeCompare host fileA fileB < 0
  \/ (fileA = fileB /\ pos (node a) <= pos (node b)).

(** [a] is at or before [b] for [compareDeclarationInfo]: the paths
    differ and that of [a] is not after that of [b] in the collation, or
    the paths are the same string and the position of [a] is not
    greater. *)
Definition Precedes (a b : DeclarationInfo) : Prop :=
  let fileA := normalizePath host (fileName (sourceFile a)) in
  let fileB := normalizePath host (fileName (sourceFile b)) in
  (fileA <> fileB /\ localeCompare host fileA fileB <= 0)
  \/ (fileA = fileB /\ pos (node a) <= pos (node b)).

(** Normalised paths ascending in the collation of the runtime. *)
Definition PathOrder (a b : DeclarationInfo) : Prop :=
  localeCompare host (normalizePath host (fileName (sourceFile a)))
    (normalizePath host (fileName (sourceFile b))) <= 0.

(** No two records of the list lie in files whose normalised paths are
    different strings that the collation reports as equal. *)
Definition Separated (l : list DeclarationInfo) : Prop :=
  forall a b, a ∈ l -> b ∈ l ->
    localeCompare host (normalizePath host (fileName (sourceFile a)))
      (normalizePath host (fileName (sourceFile b))) = 0 ->
    normalizePath host (fileName (sourceFile a))
    = normalizePath host (fileName (sourceFile b)).

(** What the sort by [compareDeclarationInfo] achieves: the paths
    ascend; the list is in declaration order if no two different paths
    in it collate as equal. *)
Definition InDeclarationOrder (l : list DeclarationInfo) : Prop :=
  StronglySorted PathOrder l
  /\ (Separated l -> StronglySorted DeclarationOrder l).

Definition OrderedState (state : ProgramState) : Prop :=
  (forall key bucket, byCanonical state !! key = Some bucket ->
     InDeclarationOrder bucket)
  /\ InDeclarationOrder (interfaceInfos state).

(** Declaration order with the paths compared code unit by code unit. *)
Definition CodeUnitOrder (a b : DeclarationInfo) : Prop :=
  let fileA := normalizePath host (fileName (sourceFile a)) in
  let fileB := normalizePath host (fileName (sourceFile b)) in
  String.compare fileA fileB = Lt
  \/ (fileA = fileB /\ pos (node a) <= pos (node b)).

(** Names ascending in the collation of the runtime. *)
Definition NameOrder (p q : PropertyShape) : Prop :=
  localeCompare host (name p) (name q) <= 0.

(** No two facts of the list have names that the collation reports as
    equal; in particular no name occurs twice. *)
Definition DistinctNames (facts : list PropertyShape) : Prop :=
  forall p q, p ∈ facts -> q ∈ facts ->
    localeCompare host (name p) (name q) = 0 -> p = q.

(** The base-candidate list holds interface declarations only. *)
Definition InterfacesOnly (state : ProgramState) : Prop :=
  forall info, info ∈ interfaceInfos state ->
    isInterfaceDeclaration (node info) = true.

Context (checker : TypeChecker).

(** The fact [collectProperties] computes for one property symbol. *)
Definition propertyFact (depthLimit : Z) (normalizeAlias : bool)
    (fallbackNode : NodeId) (prop : SymbolId) : PropertyShape :=
  let decl := declarationOf checker fallbackNode prop in
  let propType := getTypeOfSymbolAtLocation checker prop decl in
  {| name := getName checker prop;
     optional := isOptional checker prop;
     readonly := isReadonly checker prop;
     typeKey := canonicalizeType host checker propType
                  (internalOptions (depthLimit - 1) normalizeAlias decl) |}.

(** The facts of a type in the order of [getProperties], before they
    are sorted. *)
Definition propertyFacts (type : TypeId) (depthLimit : Z) (normalizeAlias : bool)
    (fallbackNode : NodeId) : list PropertyShape :=
  map (propertyFact depthLimit normalizeAlias fallbackNode) (getProperties checker type).

(** A type that [visit] classifies as a plain object. *)
Definition PlainObject (normalizeAlias : bool) (type : TypeId) : Prop :=
  let next := resolveAlias checker normalizeAlias type in
  isUnion checker next = false
  /\ isIntersection checker next = false
  /\ getIndexInfoOfType checker next IndexKindString = None
  /\ getProperties checker next <> [].

(** A shape whose only property is typed as the shape itself. *)
Definition SelfReferential (type : TypeId) (prop : SymbolId) : Prop :=
  hasAliasInfo checker type = false
  /\ isUnion checker type = false
  /\ isIntersection checker type = false
  /\ getIndexInfoOfType checker type IndexKindString = None
  /\ getProperties checker type = [prop]
  /\ forall decl, getTypeOfSymbolAtLocation checker prop decl = type.

(** The key of a self-referential shape, by depth limit. *)
Fixpoint selfKey (prop : SymbolId) (depthLimit : nat) : string :=
  match depthLimit with
  | O => DepthLimit
  | S O => "object{}"
  | S (S n) =>
      "object{" +:+ entryOf {| name := getName checker prop;
                               optional := isOptional checker prop;
                               readonly := isReadonly checker prop;
                               typeKey := selfKey prop n |} +:+ "}"
  end.
End Vocabulary.

(** ** Invariants *)

Section Invariants.
Context (host : Host).

(** [b] is at least as good a base as [c]. *)
Definition Better (b c : DeclarationInfo) : Prop :=
  (length (propertiesOf c) < length (propertiesOf b))%nat
  \/ (length (propertiesOf c) = length (propertiesOf b)
      /\ compareDeclarationInfo host b c <= 0).

Definition Best (target : DeclarationInfo) (seen : list DeclarationInfo)
    (best : option DeclarationInfo) : Prop :=
  match best with
  | None => forall c, c ∈ seen -> ~ Qualifies target c
  | Some b =>
      b ∈ seen /\ Qualifies target b
      /\ forall c, c ∈ seen -> Qualifies target c -> Better b c
  end.

(** [best] is a base with the greatest property count among [seen]. *)
Definition Greatest (target : DeclarationInfo) (seen : list DeclarationInfo)
    (best : option DeclarationInfo) : Prop :=
  match best with
  | None => forall c, c ∈ seen -> ~ Qualifies target c
  | Some b =>
      b ∈ seen /\ Qualifies target b
      /\ forall c, c ∈ seen -> Qualifies target c ->
           (length (propertiesOf c) <= length (propertiesOf b))%nat
  end.

(** The tests a candidate has to pass before it is compared with the
    best one so far. *)
Definition passes (target candidate : DeclarationInfo) : bool :=
  negb (symbol candidate =? symbol target)%N
  && isObjectShape (shape candidate)
  && nonEmpty (propertiesOf candidate)
  && (length (propertiesOf candidate) <? length (propertiesOf target))%nat
  && isSubset (propertiesOf candidate) (propertiesOf target).

End Invariants.

(** [a] does not have to come after [b]. *)
Definition NotAfter {A : Type} (compare : A -> A -> Z) (a b : A) : Prop :=
  compare a b <= 0.

(** Forgetting the events. *)
Definition erase {A : Type} (r : A * (gmap N string * list Event)) : A * gmap N string :=
  (r.1, r.2.1).

(** What the memo holds was stored by a [visit] that returned. *)
Definition Stored (st : gmap N string * list Event) : Prop :=
  (forall t key, st.1 !! t = Some key -> EvExit t key ∈ st.2)
  /\ hitsJustified st.2 = true.

(** Characters in code-unit order. *)
Definition ByteOrder (a b : string) : Prop := String.compare a b <> Gt.

(** [Number.isSafeInteger]: the integers on which the arithmetic of the
    numbers of JavaScript, in particular [depth - 1], is exact. *)
Definition isSafeInteger (d : Z) : Prop := - 2 ^ 53 < d < 2 ^ 53.

(** What the memo holds is the key of the latest [visit] of each type
    that has returned, and every event so far was called for. *)
Definition Tracked (st : gmap N string * list Event) : Prop :=
  (forall t, st.1 !! t = lastExit t st.2)
  /\ memoDecides st.2 = true.

(** [needle] occurs in [hay]. *)
Definition occursIn (needle hay : string) : bool := Js.includes needle hay.

(** ** Concrete programs *)

Module Examples.

(** A checker given by tables. *)
Inductive TypeDesc :=
| Text (text : string)
| Union (members : list TypeId)
| Intersection (members : list TypeId)
| Object (stringIndex numberIndex : option TypeId) (props : list SymbolId) (text : string).

Record SymbolDesc := {
  sd_name : string;
  sd_flags : Z;
  sd_type : TypeId;
  sd_decls : list NodeId;
}.

Definition checkerOf (typeOf : TypeId -> TypeDesc) (symbolOf : SymbolId -> SymbolDesc)
    (typeAt : NodeId -> TypeId) (symbolAt : NodeId -> option SymbolId)
    (modifiers : NodeId -> option (list SyntaxKind)) : TypeChecker :=
  {| hasAliasInfo := fun _ => false;
     isUnion := fun t => match typeOf t with Union _ => true | _ => false end;
     isIntersection := fun t => match typeOf t with Intersection _ => true | _ => false end;
     types := fun t =>
       match typeOf t with Union ms | Intersection ms => ms | _ => [] end;
     getProperties := fun t =>
       match typeOf t with Object _ _ props _ => props | _ => [] end;
     getCallSignatures := fun _ => [];
     getConstructSignatures := fun _ => [];
     getTypeAtLocation := typeAt;
     getApparentType := fun t => t;
     getIndexInfoOfType := fun t kind =>
       match typeOf t, kind with
       | Object s _ _ _, IndexKindString => s
       | Object _ n _ _, IndexKindNumber => n
       | _, _ => None
       end;
     getTypeOfSymbolAtLocation := fun s _ => sd_type (symbolOf s);
     getSymbolAtLocation := symbolAt;
     signatureToString := fun _ => "";
     typeToString := fun t _ =>
       match typeOf t with
       | Text text | Object _ _ _ text => text
       | _ => ""
       end;
     getName := fun s => sd_name (symbolOf s);
     getFlags := fun s => sd_flags (symbolOf s);
     valueDeclaration := fun s => head (sd_decls (symbolOf s));
     getDeclarations := fun s => Some (sd_decls (symbolOf s));
     getModifiers := modifiers |}.

(** Byte-wise comparison of strings, and POSIX paths. *)
Definition byteHost : Host :=
  {| localeCompare := Js.defaultCompare; sep := "/"%char |}.

Definition lower (c : ascii) : ascii :=
  let n := Ascii.N_of_ascii c in
  if (65 <=? n)%N && (n <=? 90)%N then Ascii.ascii_of_N (n + 32) else c.

Fixpoint lowerCase (s : string) : string :=
  match s with
  | EmptyString => EmptyString
  | String c rest => String (lower c) (lowerCase rest)
  end.

(** A collation in the manner of the locale-aware comparison of the
    JavaScript engines on ASCII letters: letters first compare without
    regard to case, then lower case goes before upper case. *)
Definition collate (a b : string) : Z :=
  match String.compare (lowerCase a) (lowerCase b) with
  | Eq => - Js.defaultCompare a b
  | c => Js.sign c
  end.

Definition collatingHost : Host := {| localeCompare := collate; sep := "/"%char |}.

(** A collation for which two different strings can compare equal, as
    canonically equivalent strings do for [localeCompare].  The two
    encodings of an accented letter cannot be written with the
    characters of this development; the two cases of a letter stand in
    for them. *)
Definition equating (a b : string) : Z :=
  Js.sign (String.compare (lowerCase a) (lowerCase b)).

Definition equatingHost : Host := {| localeCompare := equating; sep := "/"%char |}.

(** The types of
<<
    interface List { next: List }
    interface Tree { [key: string]: Tree }
    interface Dict { [key: string]: string; [index: number]: string }
    interface B { [key: string]: string }
    interface A { [key: string]: B }               A | B  and  B | A
    interface Sparse { a: string; [index: number]: string }
    interface Plain { a: string }
    interface Mixed { B: string; a: string }
    interface Empty {}
    interface Mixed2 { a: string; B: string }
    interface User1 { id: number; name: string }     (the same for User2, User3)
>>
*)
Definition tString : TypeId := 0%N.
Definition tList : TypeId := 1%N.
Definition tTree : TypeId := 2%N.
Definition tDict : TypeId := 3%N.
Definition tB : TypeId := 4%N.
Definition tA : TypeId := 5%N.
Definition tAB : TypeId := 6%N.
Definition tBA : TypeId := 7%N.
Definition tSparse : TypeId := 8%N.
Definition tPlain : TypeId := 9%N.
Definition tMixed : TypeId := 10%N.
Definition tEmpty : TypeId := 11%N.
Definition tMixed2 : TypeId := 12%N.
Definition tNumber : TypeId := 13%N.
Definition tUser1 : TypeId := 21%N.
Definition tUser2 : TypeId := 22%N.
Definition tUser3 : TypeId := 23%N.

Definition typeTable (t : TypeId) : TypeDesc :=
  match t with
  | 1 => Object None None [101] "List"
  | 2 => Object (Some 2) None [] "Tree"
  | 3 => Object (Some 0) (Some 0) [] "Dict"
  | 4 => Object (Some 0) None [] "B"
  | 5 => Object (Some 4) None [] "A"
  | 6 => Union [5; 4]
  | 7 => Union [4; 5]
  | 8 => Object None (Some 0) [102] "Sparse"
  | 9 => Object None None [102] "Plain"
  | 10 => Object None None [103; 104] "Mixed"
  | 11 => Object None None [] "Empty"
  | 12 => Object None None [104; 103] "Mixed2"
  | 13 => Text "number"
  | 21 => Object None None [111; 112] "User1"
  | 22 => Object None None [113; 114] "User2"
  | 23 => Object None None [115; 116] "User3"
  | _ => Text "string"
  end%N.

(** Property symbols 101..116 and the symbols 201.. of the declarations;
    symbol [s] is declared at node [s + 1000], its name is the node
    [s + 2000]. *)
Definition symbolTable (s : SymbolId) : SymbolDesc :=
  match s with
  | 111 | 113 | 115 =>
      {| sd_name := "id"; sd_flags := 0; sd_type := 13; sd_decls := [s + 1000] |}
  | 112 | 114 | 116 =>
      {| sd_name := "name"; sd_flags := 0; sd_type := 0; sd_decls := [s + 1000] |}
  | 221 => {| sd_name := "User1"; sd_flags := 0; sd_type := 21; sd_decls := [1221] |}
  | 222 => {| sd_name := "User2"; sd_flags := 0; sd_type := 22; sd_decls := [1222] |}
  | 223 => {| sd_name := "User3"; sd_flags := 0; sd_type := 23; sd_decls := [1223] |}
  | 101 => {| sd_name := "next"; sd_flags := 0; sd_type := 1; sd_decls := [1101] |}
  | 102 => {| sd_name := "a"; sd_flags := 0; sd_type := 0; sd_decls := [1102] |}
  | 103 => {| sd_name := "B"; sd_flags := 0; sd_type := 0; sd_decls := [1103] |}
  | 104 => {| sd_name := "a"; sd_flags := 0; sd_type := 0; sd_decls := [1104] |}
  | 201 => {| sd_name := "List"; sd_flags := 0; sd_type := 1; sd_decls := [1201] |}
  | 208 => {| sd_name := "Sparse"; sd_flags := 0; sd_type := 8; sd_decls := [1208] |}
  | 209 => {| sd_name := "Plain"; sd_flags := 0; sd_type := 9; sd_decls := [1209] |}
  | 211 => {| sd_name := "Empty"; sd_flags := 0; sd_type := 11; sd_decls := [1211] |}
  | _ => {| sd_name := "?"; sd_flags := 0; sd_type := 0; sd_decls := [] |}
  end%N.

Definition typeAt (n : NodeId) : TypeId :=
  if (1200 <? n)%N && (n <? 1300)%N then sd_type (symbolTable (n - 1000)) else 0%N.

Definition symbolAt (n : NodeId) : option SymbolId :=
  if (2200 <? n)%N && (n <? 2300)%N then Some (n - 2000)%N else None.

Definition exampleChecker : TypeChecker :=
  checkerOf typeTable symbolTable typeAt symbolAt (fun _ => None).

Definition keyOf (host : Host) (t : TypeId) (d : Z) : string :=
  canonicalizeType host exampleChecker t (internalOptions d true 0%N).

(** The declaration of symbol [s] at position [p]. *)
Definition declaration (kind : SyntaxKind) (s : SymbolId) (p : Z) : Node :=
  MkNode (s + 1000) kind (Some (s + 2000)%N) p [].

(** [interface Empty {}] in one file. *)
Definition emptyFile : SourceFile :=
  {| fileName := "/src/empty.ts"; isDeclarationFile := false;
     statements := [declaration InterfaceDeclaration 211 0] |}.

Definition emptyProgram : Program :=
  {| program_id := 1; getSourceFiles := [emptyFile]; getTypeChecker := exampleChecker |}.

(** [User1] at [File1:10], [User2] at [File2:5], [User3] at [File1:50];
    the program lists [File2] first. *)
Definition file1 : SourceFile :=
  {| fileName := "File1"; isDeclarationFile := false;
     statements := [declaration InterfaceDeclaration 221 10;
                    declaration TypeAliasDeclaration 223 50] |}.

Definition file2 : SourceFile :=
  {| fileName := "File2"; isDeclarationFile := false;
     statements := [declaration InterfaceDeclaration 222 5] |}.

Definition userProgram : Program :=
  {| program_id := 2; getSourceFiles := [file2; file1]; getTypeChecker := exampleChecker |}.

Definition userShape : DeclarationShape :=
  ObjectShape "object{id:number,name:string}"
    [ {| name := "id"; optional := false; readonly := false; typeKey := "number" |};
      {| name := "name"; optional := false; readonly := false; typeKey := "string" |} ].

Definition user1 : DeclarationInfo :=
  {| symbol := 221; node := declaration InterfaceDeclaration 221 10;
     sourceFile := file1; shape := userShape |}.
Definition user2 : DeclarationInfo :=
  {| symbol := 222; node := declaration InterfaceDeclaration 222 5;
     sourceFile := file2; shape := userShape |}.
Definition user3 : DeclarationInfo :=
  {| symbol := 223; node := declaration TypeAliasDeclaration 223 50;
     sourceFile := file1; shape := userShape |}.

(** Records for [findBestInterfaceBase]: a target with three
    properties and candidates with one, two, two and three of them. *)
Definition fact (n k : string) : PropertyShape :=
  {| name := n; optional := false; readonly := false; typeKey := k |}.

Definition info (s : SymbolId) (file : string) (p : Z) (shape : DeclarationShape)
    : DeclarationInfo :=
  {| symbol := s; node := declaration InterfaceDeclaration s p;
     sourceFile := {| fileName := file; isDeclarationFile := false; statements := [] |};
     shape := shape |}.

Definition derived : DeclarationInfo :=
  info 300 "/src/a.ts" 0
    (ObjectShape "k3" [fact "a" "string"; fact "b" "number"; fact "c" "boolean"]).
Definition baseA : DeclarationInfo :=
  info 301 "/src/b.ts" 40 (ObjectShape "k1" [fact "a" "string"]).
Definition baseAB : DeclarationInfo :=
  info 302 "/src/b.ts" 90 (ObjectShape "k2" [fact "a" "string"; fact "b" "number"]).
Definition baseBC : DeclarationInfo :=
  info 303 "/src/b.ts" 10 (ObjectShape "k2'" [fact "b" "number"; fact "c" "boolean"]).
Definition baseAZ : DeclarationInfo :=
  info 304 "/src/a.ts" 70 (ObjectShape "k2z" [fact "a" "string"; fact "z" "number"]).
Definition alias : DeclarationInfo :=
  info 305 "/src/a.ts" 80 (OtherShape "string").

(** Two candidates with two properties each, in files whose paths come
    in one order code unit by code unit and in the other order in a
    locale-aware collation; and two in files whose paths collate as
    equal. *)
Definition inUpperB : DeclarationInfo :=
  info 306 "/lib/B.ts" 0 (ObjectShape "k2" [fact "a" "string"; fact "b" "number"]).
Definition inLowerA : DeclarationInfo :=
  info 307 "/lib/a.ts" 0 (ObjectShape "k2'" [fact "b" "number"; fact "c" "boolean"]).
Definition inUpperE : DeclarationInfo :=
  info 308 "/lib/E.ts" 5 (ObjectShape "k2" [fact "a" "string"; fact "b" "number"]).
Definition inLowerE : DeclarationInfo :=
  info 309 "/lib/e.ts" 0 (ObjectShape "k2'" [fact "b" "number"; fact "c" "boolean"]).

(** [User1] and [User2] declared in such files. *)
Definition fileOf (path : string) (s : SymbolId) : SourceFile :=
  {| fileName := path; isDeclarationFile := false;
     statements := [declaration InterfaceDeclaration s 0] |}.

Definition casedProgram : Program :=
  {| program_id := 3;
     getSourceFiles := [fileOf "/lib/B.ts" 221; fileOf "/lib/a.ts" 222];
     getTypeChecker := exampleChecker |}.

Definition tiedProgram : Program :=
  {| program_id := 4;
     getSourceFiles := [fileOf "/lib/E.ts" 221; fileOf "/lib/e.ts" 222];
     getTypeChecker := exampleChecker |}.

Definition tiedProgram' : Program :=
  {| program_id := 5;
     getSourceFiles := [fileOf "/lib/e.ts" 222; fileOf "/lib/E.ts" 221];
     getTypeChecker := exampleChecker |}.

End Examples.


(** ** The rules *)

(** [AST_NODE_TYPES], as far as the rules look at it. *)
Inductive AST_NODE_TYPES := TSTypeLiteral | OtherNodeType.

(** The syntax nodes the listeners receive: the node itself (the key of
    [esTreeNodeToTSNodeMap]) and the fields the rules read. *)
Record TSInterfaceDeclaration := {
  interface_node : N;
  interface_id : option N;              (* node.id *)
  interface_extends : option (list N);  (* node.extends *)
  interface_body : list N;              (* node.body.body *)
}.

Record TSTypeAliasDeclaration := {
  alias_node : N;
  alias_typeAnnotation : AST_NODE_TYPES;  (* node.typeAnnotation.type *)
}.

Record ParserServices := {
  services_program : option Program;
  services_esTreeNodeToTSNodeMap : option (N -> option NodeId);
}.

(** [context.report], by message id and data. *)
Inductive Report :=
| missingTypeInformation
| preferExtension (reported base : string)
| duplicateDeclaration (kind originalName file : string).

(** The object [create] returns; a listener that is absent reports
    nothing. *)
Record Listeners := {
  onProgram : option Report;
  onInterface : TSInterfaceDeclaration -> option Report;
  onTypeAlias : TSTypeAliasDeclaration -> option Report;
}.

(** [path.relative] and [process.cwd()]. *)
Record PathHost := {
  relative : string -> string -> string;
  cwd : string;
}.

(** [xs?.length] as a condition. *)
Definition hasLength {A : Type} (xs : option (list A)) : bool :=
  match xs with
  | Some (_ :: _) => true
  | _ => false
  end.

(** [Array.prototype.findIndex] *)
Fixpoint findIndex {A : Type} (p : A -> bool) (l : list A) : Z :=
  match l with
  | [] => -1
  | x :: rest =>
      if p x then 0
      else let i := findIndex p rest in if i <? 0 then -1 else i + 1
  end.

(** [state.byNode.get(nodeMap.get(node))] *)
Definition infoOf (state : ProgramState) (nodeMap : N -> option NodeId) (esNode : N)
    : option DeclarationInfo :=
  match nodeMap esNode with
  | Some tsNode => byNode state !! tsNode
  | None => None
  end.

Definition withoutTypeInformation : Listeners :=
  {| onProgram := Some missingTypeInformation;
     onInterface := fun _ => None;
     onTypeAlias := fun _ => None |}.

Section Rules.
Context (host : Host) (paths : PathHost).

(** *** rules/prefer-interface-extension.ts *)

Definition preferInterfaceExtension_TSInterfaceDeclaration (state : ProgramState)
    (nodeMap : N -> option NodeId) (node : TSInterfaceDeclaration) : option Report :=
  match interface_id node with
  | None => None
  | Some _ =>
      if hasLength (interface_extends node) then None
      else if negb (nonEmpty (interface_body node)) then None
      else
        match infoOf state nodeMap (interface_node node) with
        | None => None
        | Some info =>
            match shape info with
            | OtherShape _ => None
            | ObjectShape _ props =>
                if negb (nonEmpty props) then None
                else
                  match findBestInterfaceBase host info (interfaceInfos state) with
                  | None => None
                  | Some candidate =>
                      Some (preferExtension
                              (getName (checker state) (symbol info))
                              (getName (checker state) (symbol candidate)))
                  end
            end
        end
  end.

Definition preferInterfaceExtension_create (cache : gmap N ProgramState)
    (parserServices : option ParserServices) : Listeners * gmap N ProgramState :=
  match parserServices with
  | Some {| services_program := Some program;
            services_esTreeNodeToTSNodeMap := Some nodeMap |} =>
      let '(state, cache') := getProgramState host cache program in
      ({| onProgram := None;
          onInterface := preferInterfaceExtension_TSInterfaceDeclaration state nodeMap;
          onTypeAlias := fun _ => None |}, cache')
  | _ => (withoutTypeInformation, cache)
  end.

(** *** rules/no-duplicate-type-declaration.ts *)

Definition normalizeSeparators (value : string) : string := Js.replaceSep (sep host) value.

Definition toRelativePath (fileName : string) : string :=
  let rel := relative paths (cwd paths) fileName in
  if negb (Js.truthy rel) || String.prefix ".." rel then normalizeSeparators fileName
  else normalizeSeparators rel.

Definition reportDuplicate (state : ProgramState) (nodeMap : N -> option NodeId)
    (esNode : N) : option Report :=
  match infoOf state nodeMap esNode with
  | None => None
  | Some info =>
      match shape info with
      | OtherShape _ => None
      | ObjectShape key _ =>
          let sortedUnique := uniqueBySymbol (default [] (byCanonical state !! key)) in
          if (length sortedUnique <=? 1)%nat then None
          else
            let currentIndex :=
              findIndex (fun candidate => (symbol candidate =? symbol info)%N) sortedUnique in
            if currentIndex <=? 0 then None
            else
              match head sortedUnique with
              | None => None
              | Some first =>
                  let kind := if isInterfaceDeclaration (node info) then "interface"
                              else "type" in
                  Some (duplicateDeclaration kind
                          (getName (checker state) (symbol first))
                          (toRelativePath (fileName (sourceFile first))))
              end
      end
  end.

Definition handleInterface (state : ProgramState) (nodeMap : N -> option NodeId)
    (node : TSInterfaceDeclaration) : option Report :=
  if hasLength (interface_extends node) then None
  else reportDuplicate state nodeMap (interface_node node).

Definition handleTypeAlias (state : ProgramState) (nodeMap : N -> option NodeId)
    (node : TSTypeAliasDeclaration) : option Report :=
  match alias_typeAnnotation node with
  | TSTypeLiteral => reportDuplicate state nodeMap (alias_node node)
  | OtherNodeType => None
  end.

Definition noDuplicateTypeDeclaration_create (cache : gmap N ProgramState)
    (parserServices : option ParserServices) : Listeners * gmap N ProgramState :=
  match parserServices with
  | Some {| services_program := Some program;
            services_esTreeNodeToTSNodeMap := Some nodeMap |} =>
      let '(state, cache') := getProgramState host cache program in
      ({| onProgram := None;
          onInterface := handleInterface state nodeMap;
          onTypeAlias := handleTypeAlias state nodeMap |}, cache')
  | _ => (withoutTypeInformation, cache)
  end.

(** [r] is the report due for the declaration [esNode]: its record has
    an object shape, the original of its bucket (the first record of the
    bucket of its canonical key) belongs to another symbol, and [r] names
    that original. *)
Definition DuplicateOf (state : ProgramState) (nodeMap : N -> option NodeId)
    (esNode : N) (r : Report) : Prop :=
  exists info key props first,
    infoOf state nodeMap esNode = Some info
    /\ shape info = ObjectShape key props
    /\ original state key = Some first
    /\ symbol first <> symbol info
    /\ r = duplicateDeclaration
             (if isInterfaceDeclaration (node info) then "interface" else "type")
             (getName (checker state) (symbol first))
             (toRelativePath (fileName (sourceFile first))).
End Rules.

(** ** Invariants of the index *)

Section IndexInvariants.
Context (host : Host).

(** [info] is what the walk makes of a declaration node: the node is an
    interface or an alias in a file that is not skipped, its name resolves
    to the symbol, and the shape is the one [describeDeclaration] gives
    with the default options. *)
Definition Described (chk : TypeChecker) (info : DeclarationInfo) : Prop :=
  isInterfaceDeclaration (node info) || isTypeAliasDeclaration (node info) = true
  /\ shouldSkipSourceFile host (sourceFile info) = false
  /\ (exists nm, node_name (node info) = Some nm
                 /\ getSymbolAtLocation chk nm = Some (symbol info))
  /\ describeDeclaration host chk (symbol info) noOptions = Some (shape info).

(** [info] is in the bucket of its key if it has an object shape. *)
Definition Bucketed (state : ProgramState) (info : DeclarationInfo) : Prop :=
  forall key props, shape info = ObjectShape key props ->
    exists bucket, byCanonical state !! key = Some bucket /\ info ∈ bucket.

(** [info] is a base candidate if it is an interface declaration. *)
Definition Listed (state : ProgramState) (info : DeclarationInfo) : Prop :=
  isInterfaceDeclaration (node info) = true -> info ∈ interfaceInfos state.

(** How the three containers of a program state hang together. *)
Record WellIndexed (state : ProgramState) : Prop := {
  byNode_ok : forall id info, byNode state !! id = Some info ->
    node_id (node info) = id /\ Described (checker state) info
    /\ Bucketed state info /\ Listed state info;
  byCanonical_ok : forall key bucket info,
    byCanonical state !! key = Some bucket -> info ∈ bucket ->
    (exists props, shape info = ObjectShape key props)
    /\ Described (checker state) info /\ Listed state info;
  interfaceInfos_ok : forall info, info ∈ interfaceInfos state ->
    isInterfaceDeclaration (node info) = true
    /\ Described (checker state) info /\ Bucketed state info;
}.
End IndexInvariants.

(** ** More concrete programs *)

Module Inheritance.

(** The types of
<<
    interface Base { a: string }                 /src/base.ts, position 0
    interface Derived { a: string; b: number }   /src/derived.ts, position 0
    interface Child extends Base { b: number }   /src/derived.ts, position 60
>>
    ([Child] has the properties of [Derived]). *)
Definition typeTable (t : TypeId) : Examples.TypeDesc :=
  match t with
  | 1 => Examples.Object None None [101] "Base"
  | 2 => Examples.Object None None [102; 103] "Derived"
  | 3 => Examples.Object None None [104; 105] "Child"
  | 13 => Examples.Text "number"
  | _ => Examples.Text "string"
  end%N.

Definition symbolTable (s : SymbolId) : Examples.SymbolDesc :=
  match s with
  | 101 | 102 | 104 =>
      {| Examples.sd_name := "a"; Examples.sd_flags := 0; Examples.sd_type := 0;
         Examples.sd_decls := [s + 1000] |}
  | 103 | 105 =>
      {| Examples.sd_name := "b"; Examples.sd_flags := 0; Examples.sd_type := 13;
         Examples.sd_decls := [s + 1000] |}
  | 201 => {| Examples.sd_name := "Base"; Examples.sd_flags := 0; Examples.sd_type := 1;
              Examples.sd_decls := [1201] |}
  | 202 => {| Examples.sd_name := "Derived"; Examples.sd_flags := 0; Examples.sd_type := 2;
              Examples.sd_decls := [1202] |}
  | 203 => {| Examples.sd_name := "Child"; Examples.sd_flags := 0; Examples.sd_type := 3;
              Examples.sd_decls := [1203] |}
  | _ => {| Examples.sd_name := "?"; Examples.sd_flags := 0; Examples.sd_type := 0;
            Examples.sd_decls := [] |}
  end%N.

Definition typeAt (n : NodeId) : TypeId :=
  if (1200 <? n)%N && (n <? 1300)%N then Examples.sd_type (symbolTable (n - 1000)) else 0%N.

Definition checker : TypeChecker :=
  Examples.checkerOf typeTable symbolTable typeAt Examples.symbolAt (fun _ => None).

Definition baseFile : SourceFile :=
  {| fileName := "/src/base.ts"; isDeclarationFile := false;
     statements := [Examples.declaration InterfaceDeclaration 201 0] |}.

Definition derivedFile : SourceFile :=
  {| fileName := "/src/derived.ts"; isDeclarationFile := false;
     statements := [Examples.declaration InterfaceDeclaration 202 0;
                    Examples.declaration InterfaceDeclaration 203 60] |}.

(** A declaration file and a file of a dependency, both declaring [Base]
    again. *)
Definition ambientFile : SourceFile :=
  {| fileName := "/src/globals.d.ts"; isDeclarationFile := true;
     statements := [Examples.declaration InterfaceDeclaration 201 0] |}.

Definition vendoredFile : SourceFile :=
  {| fileName := "/app/node_modules/lib/index.ts"; isDeclarationFile := false;
     statements := [Examples.declaration InterfaceDeclaration 201 0] |}.

Definition program : Program :=
  {| program_id := 7;
     getSourceFiles := [ambientFile; derivedFile; vendoredFile; baseFile];
     getTypeChecker := checker |}.

Definition services : ParserServices :=
  {| services_program := Some program;
     services_esTreeNodeToTSNodeMap := Some (fun n => Some n) |}.

(** The records of the three declarations. *)
Definition baseInfo : DeclarationInfo :=
  {| symbol := 201; node := Examples.declaration InterfaceDeclaration 201 0;
     sourceFile := baseFile;
     shape := ObjectShape "object{a:string}" [Examples.fact "a" "string"] |}.

Definition derivedInfo : DeclarationInfo :=
  {| symbol := 202; node := Examples.declaration InterfaceDeclaration 202 0;
     sourceFile := derivedFile;
     shape := ObjectShape "object{a:string,b:number}"
                [Examples.fact "a" "string"; Examples.fact "b" "number"] |}.

Definition childInfo : DeclarationInfo :=
  {| symbol := 203; node := Examples.declaration InterfaceDeclaration 203 60;
     sourceFile := derivedFile;
     shape := ObjectShape "object{a:string,b:number}"
                [Examples.fact "a" "string"; Examples.fact "b" "number"] |}.

(** The listeners' view of the declaration of symbol [s]. *)
Definition interfaceNode (s : SymbolId) (extends : option (list N)) : TSInterfaceDeclaration :=
  {| interface_node := s + 1000; interface_id := Some (s + 2000)%N;
     interface_extends := extends; interface_body := [1%N] |}.

Definition aliasNode (s : SymbolId) : TSTypeAliasDeclaration :=
  {| alias_node := s + 1000; alias_typeAnnotation := TSTypeLiteral |}.

(** Paths are reported relative to [/src]. *)
Definition paths : PathHost :=
  {| relative := fun from to =>
       if String.prefix from to
       then String.substring (S (String.length from)) (String.length to) to
       else ("../" +:+ to)%string;
     cwd := "/src" |}.

End Inheritance.

(** ** What the walk reaches *)

Section Reach.
Context (host : Host) (chk : TypeChecker).

Definition isDeclaration (n : Node) : bool :=
  isInterfaceDeclaration n || isTypeAliasDeclaration n.

(** The symbol and the shape the walk finds for a declaration node. *)
Definition resolve (n : Node) : option (SymbolId * DeclarationShape) :=
  match node_name n with
  | None => None
  | Some nm =>
      match getSymbolAtLocation chk nm with
      | None => None
      | Some symbol =>
          match describeDeclaration host chk symbol noOptions with
          | None => None
          | Some shape => Some (symbol, shape)
          end
      end
  end.

(** [Reaches root n]: [n] is [root] or lies below it, and no declaration
    node on the way down from [root] to the parent of [n] fails to resolve
    (the walk returns at such a node without visiting its children). *)
Inductive Reaches : Node -> Node -> Prop :=
| Reaches_here n : Reaches n n
| Reaches_below root child n :
    (isDeclaration root = true -> is_Some (resolve root)) ->
    child ∈ node_children root -> Reaches child n -> Reaches root n.
End Reach.

(** [info] can be found in the state wherever a record of its kind is
    kept. *)
Definition Indexed (state : ProgramState) (info : DeclarationInfo) : Prop :=
  Bucketed state info /\ Listed state info
  /\ is_Some (byNode state !! node_id (node info)).

Module Aliases.

(** The checker of the examples with one more type, the alias
    [type PlainAlias = Plain], whose apparent type is [Plain]. *)
Definition tPlainAlias : TypeId := 30%N.

Definition checker : TypeChecker :=
  let c := Examples.exampleChecker in
  {| hasAliasInfo := fun t => (t =? tPlainAlias)%N;
     isUnion := isUnion c;
     isIntersection := isIntersection c;
     types := types c;
     getProperties := getProperties c;
     getCallSignatures := getCallSignatures c;
     getConstructSignatures := getConstructSignatures c;
     getTypeAtLocation := getTypeAtLocation c;
     getApparentType := fun t => if (t =? tPlainAlias)%N then Examples.tPlain else t;
     getIndexInfoOfType := getIndexInfoOfType c;
     getTypeOfSymbolAtLocation := getTypeOfSymbolAtLocation c;
     getSymbolAtLocation := getSymbolAtLocation c;
     signatureToString := signatureToString c;
     typeToString := fun t fb =>
       if (t =? tPlainAlias)%N then "PlainAlias"%string else typeToString c t fb;
     getName := getName c;
     getFlags := getFlags c;
     valueDeclaration := valueDeclaration c;
     getDeclarations := getDeclarations c;
     getModifiers := getModifiers c |}.

(** A namespace holding an interface, which holds nothing more; beside it
    an interface whose name does not resolve, with a declaration inside. *)
Definition nested : SourceFile :=
  {| fileName := "/src/nested.ts"; isDeclarationFile := false;
     statements :=
       [ MkNode 5000 OtherKind None 0
           [ MkNode 5001 OtherKind None 10
               [ Examples.declaration InterfaceDeclaration 209 20 ] ];
         MkNode 5002 InterfaceDeclaration None 100
           [ Examples.declaration InterfaceDeclaration 208 120 ] ] |}.

Definition program : Program :=
  {| program_id := 9; getSourceFiles := [nested];
     getTypeChecker := Examples.exampleChecker |}.

End Aliases.

Module Cyclic.

(** The types of
<<
    interface Loop { [key: string]: Loop; [index: number]: Loop }
    interface Linked { next: Linked; tags: string | number }
    interface Cased { E: string; e: number }
    interface Cased2 { e: number; E: string }
>>
*)
Definition tLoop : TypeId := 1%N.
Definition tLinked : TypeId := 2%N.
Definition tCased : TypeId := 4%N.
Definition tCased2 : TypeId := 5%N.

Definition typeTable (t : TypeId) : Examples.TypeDesc :=
  match t with
  | 1 => Examples.Object (Some 1) (Some 1) [] "Loop"
  | 2 => Examples.Object None None [301; 302] "Linked"
  | 3 => Examples.Union [0; 13]
  | 4 => Examples.Object None None [303; 304] "Cased"
  | 5 => Examples.Object None None [304; 303] "Cased2"
  | 13 => Examples.Text "number"
  | _ => Examples.Text "string"
  end%N.

Definition symbolTable (s : SymbolId) : Examples.SymbolDesc :=
  match s with
  | 303 => {| Examples.sd_name := "E"; Examples.sd_flags := 0; Examples.sd_type := 0;
              Examples.sd_decls := [1303] |}
  | 304 => {| Examples.sd_name := "e"; Examples.sd_flags := 0; Examples.sd_type := 13;
              Examples.sd_decls := [1304] |}
  | 301 => {| Examples.sd_name := "next"; Examples.sd_flags := 0; Examples.sd_type := 2;
              Examples.sd_decls := [1301] |}
  | 302 => {| Examples.sd_name := "tags"; Examples.sd_flags := 0; Examples.sd_type := 3;
              Examples.sd_decls := [1302] |}
  | _ => {| Examples.sd_name := "?"; Examples.sd_flags := 0; Examples.sd_type := 0;
            Examples.sd_decls := [] |}
  end%N.

Definition checker : TypeChecker :=
  Examples.checkerOf typeTable symbolTable (fun _ => 0%N) (fun _ => None) (fun _ => None).

End Cyclic.

(** * Properties *)

(** ** [Array.prototype.sort] *)

Section SortFacts.
Context {A : Type} (compare : A -> A -> Z).

Local Abbreviation le := (NotAfter compare).

Lemma insert_Permutation x l : Js.insert compare x l ≡ₚ x :: l.
Proof.
  induction l as [|y l IH]; simpl; [done|].
  destruct (compare x y <=? 0); [done|].
  rewrite IH. apply Permutation_swap.
Qed.

Lemma sort_Permutation l : Js.sort compare l ≡ₚ l.
Proof.
  induction l as [|x l IH]; simpl; [done|].
  unfold Js.sort in *. simpl. rewrite insert_Permutation. by f_equiv.
Qed.

Lemma elem_of_sort x l : x ∈ Js.sort compare l <-> x ∈ l.
Proof. by rewrite sort_Permutation. Qed.

Lemma sort_length l : length (Js.sort compare l) = length l.
Proof. by rewrite sort_Permutation. Qed.

(** An element that is below everything stays in front. *)
Lemma insert_below x l : Forall (le x) l -> Js.insert compare x l = x :: l.
Proof.
  destruct l as [|y l]; simpl; [done|].
  intros H. apply Forall_cons_1 in H as [H _].
  unfold le in H. by destruct (Z.leb_spec (compare x y) 0); [|lia].
Qed.

(** A sorted array is left as it is. *)
Lemma sort_sorted l : StronglySorted le l -> Js.sort compare l = l.
Proof.
  induction 1 as [|x l Hl IH Hx]; [done|].
  unfold Js.sort in *. simpl. rewrite IH. by apply insert_below.
Qed.

Section Ordered.
Hypothesis total : forall a b, 0 < compare a b -> compare b a <= 0.
Hypothesis trans : forall a b c, le a b -> le b c -> le a c.

Lemma insert_sorted x l :
  StronglySorted le l -> StronglySorted le (Js.insert compare x l).
Proof.
  induction 1 as [|y l Hl IH Hy]; simpl.
  - repeat constructor.
  - destruct (Z.leb_spec (compare x y) 0) as [Hxy|Hxy].
    + constructor; [by constructor|].
      constructor; [done|].
      eapply Forall_impl; [exact Hy|]. intros z Hz. by eapply trans.
    + constructor; [done|].
      rewrite insert_Permutation. constructor; [|done].
      by apply total.
Qed.

Lemma sort_StronglySorted l : StronglySorted le (Js.sort compare l).
Proof.
  induction l as [|x l IH]; [constructor|].
  unfold Js.sort in *. simpl. by apply insert_sorted.
Qed.

(** Two arrays with the same elements sort to the same array, as long
    as no two different elements compare equal. *)
Lemma sort_order_independent l1 l2 :
  (forall x y, x ∈ l1 -> y ∈ l1 -> le x y -> le y x -> x = y) ->
  l1 ≡ₚ l2 -> Js.sort compare l1 = Js.sort compare l2.
Proof.
  intros Hanti Hperm.
  apply (StronglySorted_unique_strong le); [|apply sort_StronglySorted..|].
  - intros x y Hx Hy. rewrite elem_of_sort in Hx. rewrite elem_of_sort in Hy.
    rewrite <- Hperm in Hy. by apply Hanti.
  - by rewrite !sort_Permutation.
Qed.
End Ordered.

(** The sort arranges the array by any transitive relation [R] that the
    comparison decides, on the elements it is given. *)
Section SortedBy.
Context (P : A -> Prop) (R : A -> A -> Prop).
Hypothesis below : forall x y, P x -> P y -> compare x y <= 0 -> R x y.
Hypothesis above : forall x y, P x -> P y -> 0 < compare x y -> R y x.
Hypothesis transR : forall x y z, P x -> P y -> P z -> R x y -> R y z -> R x z.

Lemma insert_sorted_by x l :
  P x -> Forall P l -> StronglySorted R l -> StronglySorted R (Js.insert compare x l).
Proof.
  intros Hx HP Hl. induction Hl as [|y l Hl IH Hy]; simpl.
  - repeat constructor.
  - apply Forall_cons_1 in HP as [HPy HPl].
    destruct (Z.leb_spec (compare x y) 0) as [Hxy|Hxy].
    + constructor; [by constructor|].
      constructor; [by apply below|].
      rewrite Forall_forall in Hy, HPl. apply Forall_forall. intros z Hz.
      apply (transR x y z); auto.
    + constructor; [by apply IH|].
      rewrite insert_Permutation. constructor; [by apply above|done].
Qed.

Lemma sort_sorted_by l : Forall P l -> StronglySorted R (Js.sort compare l).
Proof.
  induction l as [|x l IH]; [constructor|].
  intros [Hx Hl]%Forall_cons_1. unfold Js.sort in *. simpl.
  apply insert_sorted_by; [done| |by apply IH].
  apply Forall_forall. intros y Hy. rewrite Forall_forall in Hl.
  apply Hl. by apply (elem_of_sort y l).
Qed.
End SortedBy.
End SortFacts.

(** ** The comparison of records, for a collation that is a preorder *)

Lemma HostLaws_Collation host : HostLaws host -> Collation host.
Proof. intros [Hanti Htrans _]. by split. Qed.

Section CollationFacts.
Context (host : Host).

Local Abbreviation pathOf info := (normalizePath host (fileName (sourceFile info))).

Lemma compareDeclarationInfo_Precedes a b :
  compareDeclarationInfo host a b <= 0 <-> Precedes host a b.
Proof.
  unfold compareDeclarationInfo, Precedes.
  destruct (String.eqb_spec (pathOf a) (pathOf b)) as [Heq|Hne]; simpl.
  - split; [intros; right; split; [done|lia]|]. intros [[? _]|[_ ?]]; [done|lia].
  - split; [intros; by left|]. intros [[_ ?]|[? _]]; done.
Qed.

Context (coll : Collation host).

Lemma collation_refl a : localeCompare host a a = 0.
Proof. pose proof (collation_antisym host coll a a). lia. Qed.

Lemma compareDeclarationInfo_sgn a b :
  Z.sgn (compareDeclarationInfo host a b) = - Z.sgn (compareDeclarationInfo host b a).
Proof.
  unfold compareDeclarationInfo. rewrite (String.eqb_sym (pathOf b) (pathOf a)).
  destruct (String.eqb (pathOf a) (pathOf b)); simpl;
    [|apply (collation_antisym host coll)]. lia.
Qed.

(** A record strictly before one that is not after a third is not after
    the third.  (With "not after" twice this fails when two different
    paths collate as equal.) *)
Lemma compareDeclarationInfo_lt_le a b c :
  compareDeclarationInfo host a b < 0 -> compareDeclarationInfo host b c <= 0 ->
  compareDeclarationInfo host a c <= 0.
Proof.
  unfold compareDeclarationInfo.
  set (fa := pathOf a). set (fb := pathOf b). set (fc := pathOf c).
  pose proof (collation_antisym host coll fa fb) as Hanti.
  pose proof (collation_trans host coll fa fb fc) as Htrans.
  clearbody fa fb fc.
  destruct (String.eqb_spec fa fb) as [Hab|Hab];
    destruct (String.eqb_spec fb fc) as [Hbc|Hbc];
    destruct (String.eqb_spec fa fc) as [Hac|Hac];
    subst; simpl; try done; lia.
Qed.

Lemma compareDeclarationInfo_PathOrder a b :
  compareDeclarationInfo host a b <= 0 -> PathOrder host a b.
Proof.
  unfold compareDeclarationInfo, PathOrder.
  destruct (String.eqb_spec (pathOf a) (pathOf b)) as [->|_]; simpl; [|done].
  by rewrite collation_refl.
Qed.

Lemma compareDeclarationInfo_PathOrder_gt a b :
  0 < compareDeclarationInfo host a b -> PathOrder host b a.
Proof.
  unfold compareDeclarationInfo, PathOrder.
  destruct (String.eqb_spec (pathOf a) (pathOf b)) as [->|_]; simpl.
  - by rewrite collation_refl.
  - pose proof (collation_antisym host coll (pathOf a) (pathOf b)). lia.
Qed.

Lemma DeclarationOrder_trans a b c :
  DeclarationOrder host a b -> DeclarationOrder host b c -> DeclarationOrder host a c.
Proof.
  unfold DeclarationOrder.
  intros [Hab|[Hab Hpab]] [Hbc|[Hbc Hpbc]].
  - left.
    assert (localeCompare host (pathOf a) (pathOf c) <= 0) as Hle
      by (eapply (collation_trans host coll); apply Z.lt_le_incl; eassumption).
    destruct (Z.eq_dec (localeCompare host (pathOf a) (pathOf c)) 0) as [H0|H0]; [|lia].
    assert (localeCompare host (pathOf c) (pathOf b) <= 0) as Hcb.
    { eapply (collation_trans host coll); [|apply Z.lt_le_incl; exact Hab].
      pose proof (collation_antisym host coll (pathOf a) (pathOf c)). lia. }
    pose proof (collation_antisym host coll (pathOf b) (pathOf c)). lia.
  - left. by rewrite <- Hbc.
  - left. by rewrite Hab.
  - right. split; [congruence|lia].
Qed.

Lemma DeclarationOrder_refl a : DeclarationOrder host a a.
Proof. right. split; [done|lia]. Qed.

Lemma compareDeclarationInfo_DeclarationOrder a b :
  (localeCompare host (pathOf a) (pathOf b) = 0 -> pathOf a = pathOf b) ->
  compareDeclarationInfo host a b <= 0 -> DeclarationOrder host a b.
Proof.
  intros Hsep. unfold compareDeclarationInfo, DeclarationOrder.
  destruct (String.eqb_spec (pathOf a) (pathOf b)) as [Heq|Hne]; simpl.
  - intros. right. split; [done|lia].
  - intros Hle. left.
    destruct (Z.eq_dec (localeCompare host (pathOf a) (pathOf b)) 0) as [H0|H0]; [|lia].
    by apply Hsep in H0.
Qed.

Lemma compareDeclarationInfo_DeclarationOrder_gt a b :
  0 < compareDeclarationInfo host a b -> DeclarationOrder host b a.
Proof.
  unfold compareDeclarationInfo, DeclarationOrder.
  destruct (String.eqb_spec (pathOf a) (pathOf b)) as [Heq|Hne]; simpl.
  - intros. right. split; [done|lia].
  - intros Hgt. left.
    pose proof (collation_antisym host coll (pathOf a) (pathOf b)). lia.
Qed.

(** What [list.sort(compareDeclarationInfo)] achieves. *)
Lemma sort_InDeclarationOrder l :
  InDeclarationOrder host (Js.sort (compareDeclarationInfo host) l).
Proof.
  split.
  - apply (sort_sorted_by _ (fun _ => True) (PathOrder host)).
    + intros x y _ _. apply compareDeclarationInfo_PathOrder.
    + intros x y _ _. apply compareDeclarationInfo_PathOrder_gt.
    + intros x y z _ _ _. apply (collation_trans host coll).
    + by apply Forall_forall.
  - intros Hsep.
    apply (sort_sorted_by _ (fun info => info ∈ l) (DeclarationOrder host)).
    + intros x y Hx Hy. apply compareDeclarationInfo_DeclarationOrder.
      apply Hsep; by apply elem_of_sort.
    + intros x y _ _. apply compareDeclarationInfo_DeclarationOrder_gt.
    + intros x y z _ _ _. apply DeclarationOrder_trans.
    + by apply Forall_forall.
Qed.

(** The first of a list in declaration order is at or before every
    member. *)
Lemma head_DeclarationOrder (l : list DeclarationInfo) first :
  StronglySorted (DeclarationOrder host) l -> head l = Some first ->
  forall info, info ∈ l -> DeclarationOrder host first info.
Proof.
  destruct 1 as [|x l Hl Hx]; [done|]. simpl. intros [= ->] info.
  intros [->|Hin]%elem_of_cons; [apply DeclarationOrder_refl|].
  rewrite Forall_forall in Hx. by apply Hx.
Qed.

Lemma head_PathOrder (l : list DeclarationInfo) first :
  StronglySorted (PathOrder host) l -> head l = Some first ->
  forall info, info ∈ l -> PathOrder host first info.
Proof.
  destruct 1 as [|x l Hl Hx]; [done|]. simpl. intros [= ->] info.
  intros [->|Hin]%elem_of_cons; [unfold PathOrder; by rewrite collation_refl|].
  rewrite Forall_forall in Hx. by apply Hx.
Qed.
End CollationFacts.

(** ** The declaration order, for a collation that is a total order *)

Section CompareFacts.
Context (host : Host) (laws : HostLaws host).

Lemma localeCompare_refl a : localeCompare host a a = 0.
Proof. pose proof (localeCompare_antisym host laws a a). lia. Qed.

Lemma compareDeclarationInfo_order a b :
  compareDeclarationInfo host a b <= 0 <-> DeclarationOrder host a b.
Proof.
  unfold compareDeclarationInfo, DeclarationOrder.
  set (fa := normalizePath host (fileName (sourceFile a))).
  set (fb := normalizePath host (fileName (sourceFile b))).
  destruct (String.eqb_spec fa fb) as [->|Hne]; simpl.
  - rewrite localeCompare_refl. split; [intros; right; split; [done|lia]|].
    intros [?|[_ ?]]; lia.
  - split.
    + intros Hle. left.
      destruct (Z.eq_dec (localeCompare host fa fb) 0) as [H0|H0]; [|lia].
      by apply (localeCompare_eq host laws) in H0.
    + intros [?|[? _]]; [lia|done].
Qed.

Lemma compareDeclarationInfo_antisym a b :
  Z.sgn (compareDeclarationInfo host a b) = - Z.sgn (compareDeclarationInfo host b a).
Proof.
  unfold compareDeclarationInfo.
  set (fa := normalizePath host (fileName (sourceFile a))).
  set (fb := normalizePath host (fileName (sourceFile b))).
  rewrite (String.eqb_sym fb fa).
  destruct (String.eqb fa fb); simpl; [|apply (localeCompare_antisym host laws)]. lia.
Qed.

Lemma compareDeclarationInfo_trans a b c :
  compareDeclarationInfo host a b <= 0 -> compareDeclarationInfo host b c <= 0 ->
  compareDeclarationInfo host a c <= 0.
Proof.
  rewrite !compareDeclarationInfo_order. unfold DeclarationOrder.
  set (fa := normalizePath host (fileName (sourceFile a))).
  set (fb := normalizePath host (fileName (sourceFile b))).
  set (fc := normalizePath host (fileName (sourceFile c))).
  intros [Hab|[Hab Hpab]] [Hbc|[Hbc Hpbc]].
  - left.
    assert (localeCompare host fa fc <= 0) as Hle
      by (eapply (localeCompare_trans host laws); [|]; lia || (apply Z.lt_le_incl; eassumption)).
    destruct (Z.eq_dec (localeCompare host fa fc) 0) as [H0|H0]; [|lia].
    apply (localeCompare_eq host laws) in H0. rewrite H0 in Hab.
    pose proof (localeCompare_antisym host laws fc fb). lia.
  - left. by rewrite <- Hbc.
  - left. by rewrite Hab.
  - right. split; [congruence|lia].
Qed.
End CompareFacts.

(** ** [findBestInterfaceBase] *)

Section BaseFinder.
Context (host : Host).

Lemma samePropertyShape_eq p q : samePropertyShape p q = true <-> p = q.
Proof.
  unfold samePropertyShape. destruct p as [n1 o1 r1 k1], q as [n2 o2 r2 k2]; simpl.
  rewrite !andb_true_iff, !String.eqb_eq, !eqb_true_iff.
  split; [intros [[[-> ->] ->] ->]; done|]. by intros [= -> -> -> ->].
Qed.

Lemma isSubset_spec base derived :
  isSubset base derived = true <-> forall p, p ∈ base -> p ∈ derived.
Proof.
  unfold isSubset. rewrite forallb_forall. split.
  - intros H p Hp. apply list_elem_of_In, H in Hp.
    apply existsb_exists in Hp as (q & Hq & Hsame).
    apply samePropertyShape_eq in Hsame as ->. by apply list_elem_of_In.
  - intros H p Hp. apply list_elem_of_In, H in Hp.
    apply existsb_exists. exists p. split; [by apply list_elem_of_In|].
    by apply samePropertyShape_eq.
Qed.

Lemma nonEmpty_spec {A} (l : list A) : nonEmpty l = true <-> l <> [].
Proof. by destruct l. Qed.

Lemma passes_spec target candidate :
  passes target candidate = true <-> Qualifies target candidate.
Proof.
  unfold passes, Qualifies.
  rewrite !andb_true_iff, negb_true_iff, N.eqb_neq, nonEmpty_spec,
    Nat.ltb_lt, isSubset_spec.
  tauto.
Qed.

Lemma considerCandidate_passes target best candidate :
  considerCandidate host target (propertiesOf target) best candidate =
    if passes target candidate then
      match best with
      | None => Some candidate
      | Some b =>
          if isObjectShape (shape b) then
            if (length (propertiesOf b) <? length (propertiesOf candidate))%nat
            then Some candidate
            else if (length (propertiesOf candidate) =? length (propertiesOf b))%nat
                    && (compareDeclarationInfo host candidate b <? 0)
            then Some candidate
            else best
          else Some candidate
      end
    else best.
Proof.
  unfold considerCandidate, passes, propertiesOf.
  destruct (symbol candidate =? symbol target)%N; [done|]. simpl.
  destruct (shape candidate) as [key props|]; [|done]. simpl.
  destruct (nonEmpty props); [|done]. simpl.
  rewrite Nat.ltb_antisym.
  destruct (shape target) as [tkey targetProps|]; simpl.
  - destruct (length targetProps <=? length props)%nat; [done|]. simpl.
    destruct (isSubset props targetProps); [|done]. simpl.
    destruct best as [b|]; [|done]. by destruct (shape b).
  - done.
Qed.

(** The property count of the best candidate never goes down, whatever
    the comparison of records does. *)
Lemma Greatest_step target seen best candidate :
  Greatest target seen best ->
  Greatest target (seen ++ [candidate])
    (considerCandidate host target (propertiesOf target) best candidate).
Proof.
  intros Hbest. rewrite considerCandidate_passes.
  destruct (passes target candidate) eqn:Hpass; cycle 1.
  { assert (~ Qualifies target candidate) as Hq
      by (rewrite <- passes_spec; congruence).
    destruct best as [b|]; simpl in *.
    - destruct Hbest as (Hin & Hqb & Hall). split_and!; [set_solver|done|].
      intros c Hc Hqc. apply elem_of_app in Hc as [Hc|Hc]; [by apply Hall|].
      apply list_elem_of_singleton in Hc as ->. done.
    - intros c Hc. apply elem_of_app in Hc as [Hc|Hc]; [by apply Hbest|].
      by apply list_elem_of_singleton in Hc as ->. }
  apply passes_spec in Hpass as Hq.
  destruct best as [b|]; simpl in *.
  - destruct Hbest as (Hin & Hqb & Hall).
    assert (isObjectShape (shape b) = true) as Hbobj by apply Hqb.
    rewrite Hbobj.
    destruct (Nat.ltb_spec (length (propertiesOf b)) (length (propertiesOf candidate)))
      as [Hlen|Hlen].
    { split_and!; [set_solver|done|].
      intros c Hc Hqc. apply elem_of_app in Hc as [Hc|Hc].
      - specialize (Hall c Hc Hqc). lia.
      - by apply list_elem_of_singleton in Hc as ->. }
    destruct ((length (propertiesOf candidate) =? length (propertiesOf b))%nat
              && (compareDeclarationInfo host candidate b <? 0)) eqn:Htie.
    + apply andb_true_iff in Htie as [Heq%Nat.eqb_eq _].
      split_and!; [set_solver|done|].
      intros c Hc Hqc. apply elem_of_app in Hc as [Hc|Hc].
      * specialize (Hall c Hc Hqc). lia.
      * by apply list_elem_of_singleton in Hc as ->.
    + split_and!; [set_solver|done|].
      intros c Hc Hqc. apply elem_of_app in Hc as [Hc|Hc]; [by apply Hall|].
      by apply list_elem_of_singleton in Hc as ->.
  - split_and!; [set_solver|done|].
    intros c Hc Hqc. apply elem_of_app in Hc as [Hc|Hc]; [by destruct (Hbest c)|].
    by apply list_elem_of_singleton in Hc as ->.
Qed.

Lemma Greatest_foldl target candidates seen best :
  Greatest target seen best ->
  Greatest target (seen ++ candidates)
    (foldl (considerCandidate host target (propertiesOf target)) best candidates).
Proof.
  revert seen best. induction candidates as [|c candidates IH]; intros seen best Hbest.
  - by rewrite app_nil_r.
  - simpl. rewrite (assoc_L _ seen [c] candidates : seen ++ c :: candidates = _).
    apply IH. by apply Greatest_step.
Qed.

Lemma findBestInterfaceBase_Greatest target candidates :
  Greatest target candidates (findBestInterfaceBase host target candidates).
Proof.
  unfold findBestInterfaceBase.
  destruct (shape target) as [key targetProps|] eqn:Hshape.
  - destruct targetProps as [|p targetProps]; simpl.
    + intros c _ (_ & _ & _ & Hlt & _).
      assert (propertiesOf target = []) as Ht
        by (unfold propertiesOf; by rewrite Hshape).
      rewrite Ht in Hlt. simpl in Hlt. lia.
    + replace (p :: targetProps) with (propertiesOf target)
        by (unfold propertiesOf; by rewrite Hshape).
      apply (Greatest_foldl target candidates []). by intros c Hc%elem_of_nil.
  - intros c _ (_ & _ & _ & Hlt & _).
    assert (propertiesOf target = []) as Ht
      by (unfold propertiesOf; by rewrite Hshape).
    rewrite Ht in Hlt. simpl in Hlt. lia.
Qed.

Context (coll : Collation host).

Lemma Better_refl b : Better host b b.
Proof.
  right. split; [done|].
  pose proof (compareDeclarationInfo_sgn host coll b b). lia.
Qed.

Lemma Best_step target seen best candidate :
  Best host target seen best ->
  Best host target (seen ++ [candidate])
    (considerCandidate host target (propertiesOf target) best candidate).
Proof.
  intros Hbest. rewrite considerCandidate_passes.
  destruct (passes target candidate) eqn:Hpass; cycle 1.
  { assert (~ Qualifies target candidate) as Hq
      by (rewrite <- passes_spec; congruence).
    destruct best as [b|]; simpl in *.
    - destruct Hbest as (Hin & Hqb & Hall). split_and!; [set_solver|done|].
      intros c Hc Hqc. apply elem_of_app in Hc as [Hc|Hc]; [by apply Hall|].
      apply list_elem_of_singleton in Hc as ->. done.
    - intros c Hc. apply elem_of_app in Hc as [Hc|Hc]; [by apply Hbest|].
      by apply list_elem_of_singleton in Hc as ->. }
  apply passes_spec in Hpass as Hq.
  destruct best as [b|]; simpl in *.
  - destruct Hbest as (Hin & Hqb & Hall).
    assert (isObjectShape (shape b) = true) as Hbobj by apply Hqb.
    rewrite Hbobj.
    destruct (Nat.ltb_spec (length (propertiesOf b)) (length (propertiesOf candidate)))
      as [Hlen|Hlen].
    { split_and!; [set_solver|done|].
      intros c Hc Hqc. apply elem_of_app in Hc as [Hc|Hc].
      - left. destruct (Hall c Hc Hqc) as [?|[? _]]; lia.
      - apply list_elem_of_singleton in Hc as ->. apply Better_refl. }
    destruct (Nat.eqb_spec (length (propertiesOf candidate)) (length (propertiesOf b)))
      as [Heq|Hneq]; simpl.
    + destruct (Z.ltb_spec (compareDeclarationInfo host candidate b) 0) as [Hcmp|Hcmp].
      * split_and!; [set_solver|done|].
        intros c Hc Hqc. apply elem_of_app in Hc as [Hc|Hc].
        -- destruct (Hall c Hc Hqc) as [?|[? Hbc]]; [left; lia|].
           right. split; [lia|].
           by eapply (compareDeclarationInfo_lt_le host coll).
        -- apply list_elem_of_singleton in Hc as ->. apply Better_refl.
      * split_and!; [set_solver|done|].
        intros c Hc Hqc. apply elem_of_app in Hc as [Hc|Hc]; [by apply Hall|].
        apply list_elem_of_singleton in Hc as ->. right. split; [done|].
        pose proof (compareDeclarationInfo_sgn host coll b candidate). lia.
    + split_and!; [set_solver|done|].
      intros c Hc Hqc. apply elem_of_app in Hc as [Hc|Hc]; [by apply Hall|].
      apply list_elem_of_singleton in Hc as ->. left. lia.
  - split_and!; [set_solver|done|].
    intros c Hc Hqc. apply elem_of_app in Hc as [Hc|Hc]; [by destruct (Hbest c)|].
    apply list_elem_of_singleton in Hc as ->. apply Better_refl.
Qed.

Lemma Best_foldl target candidates seen best :
  Best host target seen best ->
  Best host target (seen ++ candidates)
    (foldl (considerCandidate host target (propertiesOf target)) best candidates).
Proof.
  revert seen best. induction candidates as [|c candidates IH]; intros seen best Hbest.
  - by rewrite app_nil_r.
  - simpl. rewrite (assoc_L _ seen [c] candidates : seen ++ c :: candidates = _).
    apply IH. by apply Best_step.
Qed.

Lemma findBestInterfaceBase_Best target candidates :
  Best host target candidates (findBestInterfaceBase host target candidates).
Proof.
  unfold findBestInterfaceBase.
  destruct (shape target) as [key targetProps|] eqn:Hshape.
  - destruct targetProps as [|p targetProps]; simpl.
    + intros c _ (_ & _ & _ & Hlt & _).
      assert (propertiesOf target = []) as Ht
        by (unfold propertiesOf; by rewrite Hshape).
      rewrite Ht in Hlt. simpl in Hlt. lia.
    + replace (p :: targetProps) with (propertiesOf target)
        by (unfold propertiesOf; by rewrite Hshape).
      apply (Best_foldl target candidates []). by intros c Hc%elem_of_nil.
  - intros c _ (_ & _ & _ & Hlt & _).
    assert (propertiesOf target = []) as Ht
      by (unfold propertiesOf; by rewrite Hshape).
    rewrite Ht in Hlt. simpl in Hlt. lia.
Qed.
End BaseFinder.

(** ** Termination of [canonicalizeType] *)

Lemma mapM_pure {A B : Type} (f : A -> B) (l : list A) :
  mapM (fun x => Some (f x)) l = Some (map f l).
Proof. induction l as [|x l IH]; [done|]. cbn. by rewrite IH. Qed.

Section ShapeFacts.
Context (host : Host) (checker : TypeChecker).

Lemma visitEach_ext {S : Type} (v1 v2 : TypeId -> S -> option (string * S)) ts m :
  (forall t m, v1 t m = v2 t m) -> visitEach v1 ts m = visitEach v2 ts m.
Proof.
  intros H. revert m. induction ts as [|t ts IH]; intros m; simpl; [done|].
  rewrite H. destruct (v2 t m) as [[k m1]|]; simpl; [|done]. by rewrite IH.
Qed.

Lemma visitEach_is_Some {S : Type} (v : TypeId -> S -> option (string * S)) ts m :
  (forall t m, is_Some (v t m)) -> is_Some (visitEach v ts m).
Proof.
  intros H. revert m. induction ts as [|t ts IH]; intros m; simpl; [done|].
  destruct (H t m) as [[k m1] ->]. simpl.
  destruct (IH m1) as [[ks m2] ->]. done.
Qed.

Lemma collectPropertiesWith_ext c1 c2 type d na fb :
  (forall t na' fb', c1 t (d - 1) na' fb' = c2 t (d - 1) na' fb') ->
  collectPropertiesWith host checker c1 type d na fb
  = collectPropertiesWith host checker c2 type d na fb.
Proof.
  intros H. unfold collectPropertiesWith.
  destruct (d <=? 0); [done|].
  destruct (getProperties checker type) as [|p ps]; [done|].
  rewrite (mapM_ext _ (propertyShapeOf checker c2 d na fb)); [done|].
  intros prop. unfold propertyShapeOf. by rewrite H.
Qed.

Lemma collectPropertiesWith_is_Some canon type d na fb :
  (forall t na' fb', is_Some (canon t (d - 1) na' fb')) ->
  is_Some (collectPropertiesWith host checker canon type d na fb).
Proof.
  intros H. unfold collectPropertiesWith.
  destruct (d <=? 0); [done|].
  destruct (getProperties checker type) as [|p ps]; [done|].
  assert (is_Some (mapM (propertyShapeOf checker canon d na fb) (p :: ps))) as [facts ->];
    [|done].
  apply mapM_is_Some, Forall_forall. intros prop _. simpl.
  unfold propertyShapeOf. by destruct (H (getTypeOfSymbolAtLocation checker prop
    (declarationOf checker fb prop)) na (declarationOf checker fb prop)) as [k ->].
Qed.

Lemma classify_ext {S : Type} c1 c2 (v1 v2 : TypeId -> S -> option (string * S))
    na fb next d m :
  (forall t na' fb', c1 t (d - 1 - 1) na' fb' = c2 t (d - 1 - 1) na' fb') ->
  (forall t m, v1 t m = v2 t m) ->
  classify host checker c1 v1 na fb next d m = classify host checker c2 v2 na fb next d m.
Proof.
  intros Hc Hv. unfold classify, canonicalizeObjectWith.
  rewrite !(visitEach_ext v1 v2) by done.
  rewrite !(collectPropertiesWith_ext c1 c2) by done.
  destruct (isUnion checker next); [done|].
  destruct (isIntersection checker next); [done|].
  destruct (getIndexInfoOfType checker next IndexKindString) as [stringType|]; [|done].
  rewrite Hv. destruct (v2 stringType m) as [[k1 m1]|]; simpl; [|done].
  destruct (getIndexInfoOfType checker next IndexKindNumber); [|done].
  by rewrite Hv.
Qed.

Lemma classify_is_Some {S : Type} canon (v : TypeId -> S -> option (string * S))
    na fb next d m :
  (forall t na' fb', is_Some (canon t (d - 1 - 1) na' fb')) ->
  (forall t m, is_Some (v t m)) ->
  is_Some (classify host checker canon v na fb next d m).
Proof.
  intros Hc Hv. unfold classify, canonicalizeObjectWith.
  destruct (collectPropertiesWith_is_Some canon next (d - 1) na fb Hc) as [props ->].
  destruct (isUnion checker next).
  { by destruct (visitEach_is_Some v (types checker next) m Hv) as [[ps m1] ->]. }
  destruct (isIntersection checker next).
  { by destruct (visitEach_is_Some v (types checker next) m Hv) as [[ps m1] ->]. }
  destruct (getIndexInfoOfType checker next IndexKindString) as [stringType|].
  - destruct (Hv stringType m) as [[k1 m1] ->]. simpl.
    destruct (getIndexInfoOfType checker next IndexKindNumber) as [numberType|]; [|done].
    by destruct (Hv numberType m1) as [[k2 m2] ->].
  - simpl. by repeat case_match.
Qed.

(** With fuel for the depth limit, more fuel changes nothing. *)
Lemma visit_fuel f1 : forall f2 na fb t d m,
  (Z.to_nat d <= f1)%nat -> (Z.to_nat d <= f2)%nat ->
  visit host checker f1 na fb t d m = visit host checker f2 na fb t d m.
Proof.
  induction f1 as [|f1 IH]; intros [|f2] na fb t d m H1 H2; simpl; try done;
    destruct (Z.leb_spec d 0); try done; try lia.
  destruct (cachedKey m t); [done|].
  erewrite classify_ext; [done| |].
  - intros t' na' fb'. simpl. f_equal. apply IH; lia.
  - intros t' m'. apply IH; lia.
Qed.

(** With fuel for the depth limit, [visit] returns. *)
Lemma visit_is_Some fuel : forall na fb t d m,
  (Z.to_nat d <= fuel)%nat -> is_Some (visit host checker fuel na fb t d m).
Proof.
  induction fuel as [|fuel IH]; intros na fb t d m Hfuel; simpl;
    destruct (Z.leb_spec d 0); try done; try lia.
  destruct (cachedKey m t); [done|].
  edestruct (classify_is_Some (S := gmap N string)) as [[r m'] ->]; [| |done].
  - intros t' na' fb'. simpl. apply fmap_is_Some, IH. lia.
  - intros t' m'. apply IH. lia.
Qed.

Lemma canonicalizeTypeFuel_enough fuel type d na fb :
  (Z.to_nat d <= fuel)%nat ->
  canonicalizeTypeFuel host checker fuel type d na fb
  = Some (canonicalizeType host checker type (internalOptions d na fb)).
Proof.
  intros Hfuel. unfold canonicalizeType, canonicalizeTypeFuel.
  change (depthLimitOr 8 (internalOptions d na fb)) with d.
  change (normalizeAliasOf (internalOptions d na fb)) with na.
  change (fallbackNode (internalOptions d na fb)) with fb.
  rewrite (visit_fuel fuel (Z.to_nat d)) by lia.
  by destruct (visit_is_Some (Z.to_nat d) na fb type d ∅) as [[k m] ->]; [lia|].
Qed.

Lemma propertyShapeOf_enough fuel d na fb prop :
  (Z.to_nat (d - 1) <= fuel)%nat ->
  propertyShapeOf checker (canonicalizeTypeFuel host checker fuel) d na fb prop
  = Some (propertyFact host checker d na fb prop).
Proof.
  intros Hfuel. unfold propertyShapeOf. by rewrite canonicalizeTypeFuel_enough.
Qed.

Lemma collectPropertiesWith_enough fuel type d na fb :
  (Z.to_nat (d - 1) <= fuel)%nat ->
  collectPropertiesWith host checker (canonicalizeTypeFuel host checker fuel) type d na fb
  = Some (if d <=? 0 then []
          else Js.sort (fun a b => localeCompare host (name a) (name b))
                 (propertyFacts host checker type d na fb)).
Proof.
  intros Hfuel. unfold collectPropertiesWith, propertyFacts.
  destruct (d <=? 0); [done|].
  destruct (getProperties checker type) as [|p ps] eqn:Hprops; [done|].
  erewrite (mapM_ext _ (fun prop => Some (propertyFact host checker d na fb prop))).
  - by rewrite mapM_pure.
  - intros prop. by apply propertyShapeOf_enough.
Qed.

(** [collectProperties], as the source reads. *)
Lemma collectProperties_unfold type o :
  collectProperties host checker type o
  = if depthLimitOr 7 o <=? 0 then []
    else Js.sort (fun a b => localeCompare host (name a) (name b))
           (propertyFacts host checker type (depthLimitOr 7 o) (normalizeAliasOf o)
              (fallbackNode o)).
Proof.
  unfold collectProperties. by rewrite collectPropertiesWith_enough by lia.
Qed.

Lemma canonicalizeObjectWith_enough fuel type d na fb :
  (Z.to_nat (d - 1) <= fuel)%nat ->
  canonicalizeObjectWith host checker (canonicalizeTypeFuel host checker fuel) type d na fb
  = Some ("{" +:+ Js.join "," (map entryOf
            (collectProperties host checker type (internalOptions d na fb))) +:+ "}").
Proof.
  intros Hfuel. unfold canonicalizeObjectWith.
  rewrite collectPropertiesWith_enough by done. simpl.
  by rewrite collectProperties_unfold.
Qed.

Lemma canonicalizeType_limit type o :
  depthLimitOr 8 o <= 0 -> canonicalizeType host checker type o = DepthLimit.
Proof.
  intros Hd. unfold canonicalizeType, canonicalizeTypeFuel.
  destruct (Z.to_nat (depthLimitOr 8 o)); simpl;
    by destruct (Z.leb_spec (depthLimitOr 8 o) 0); [|lia].
Qed.

(** One step of [canonicalizeType] at a positive depth: the memo is
    empty, so the type is classified. *)
Lemma canonicalizeType_step type d na fb :
  0 < d ->
  Some (canonicalizeType host checker type (internalOptions d na fb))
  = fst <$> classify host checker
              (canonicalizeTypeFuel host checker (Z.to_nat (d - 1)))
              (fun t m => visit host checker (Z.to_nat (d - 1)) na fb t (d - 1) m)
              na fb (resolveAlias checker na type) d (∅ : gmap N string).
Proof.
  intros Hd. rewrite <- (canonicalizeTypeFuel_enough (S (Z.to_nat (d - 1)))) by lia.
  unfold canonicalizeTypeFuel at 1. simpl.
  destruct (Z.leb_spec d 0); [lia|].
  unfold cachedKey. rewrite lookup_empty.
  fold (canonicalizeTypeFuel host checker (Z.to_nat (d - 1))).
  by destruct (classify _ _ _ _ _ _ _ _ _) as [[r m]|].
Qed.
End ShapeFacts.

(** ** The depth limit *)

Section DepthFacts.
Context (host : Host) (checker : TypeChecker).

Lemma classify_not_sentinel {S : Type} canon (v : TypeId -> S -> option (string * S))
    na fb next d m m' :
  classify host checker canon v na fb next d m = Some (DepthLimit, m') ->
  typeToString checker next fb = DepthLimit.
Proof.
  unfold classify, canonicalizeObjectWith.
  destruct (isUnion checker next).
  { destruct (visitEach v (types checker next) m) as [[parts m1]|]; simpl; [|done].
    by intros [=]. }
  destruct (isIntersection checker next).
  { destruct (visitEach v (types checker next) m) as [[parts m1]|]; simpl; [|done].
    by intros [=]. }
  destruct (getIndexInfoOfType checker next IndexKindString) as [stringType|].
  { destruct (v stringType m) as [[k1 m1]|]; simpl; [|done].
    destruct (match getIndexInfoOfType checker next IndexKindNumber with
              | Some numberType => v numberType m1
              | None => Some (EmptyString, m1)
              end) as [[k2 m2]|]; simpl; [|done].
    destruct (collectPropertiesWith host checker canon next (d - 1) na fb); simpl; [|done].
    by intros [=]. }
  destruct (nonEmpty (getProperties checker next)).
  { destruct (collectPropertiesWith host checker canon next (d - 1) na fb); simpl; [|done].
    by intros [=]. }
  destruct (nonEmpty (getCallSignatures checker next)
            || nonEmpty (getConstructSignatures checker next)).
  { by intros [=]. }
  by intros [= H _].
Qed.

(** At a positive depth the sentinel can only come out of the textual
    rendering of the type. *)
Lemma canonicalizeType_sentinel type d na fb :
  0 < d ->
  canonicalizeType host checker type (internalOptions d na fb) = DepthLimit ->
  typeToString checker (resolveAlias checker na type) fb = DepthLimit.
Proof.
  intros Hd Hkey. pose proof (canonicalizeType_step host checker type d na fb Hd) as Hstep.
  rewrite Hkey in Hstep. symmetry in Hstep.
  apply fmap_Some in Hstep as ([k m'] & Hclass & Hk). simpl in Hk. subst k.
  by eapply classify_not_sentinel.
Qed.

Lemma canonicalizeType_plain type d na fb :
  0 < d -> PlainObject checker na type ->
  canonicalizeType host checker type (internalOptions d na fb)
  = "object{" +:+ Js.join "," (map entryOf
      (collectProperties host checker (resolveAlias checker na type)
         (internalOptions (d - 1) na fb))) +:+ "}".
Proof.
  intros Hd (Hu & Hi & Hs & Hp).
  pose proof (canonicalizeType_step host checker type d na fb Hd) as Hstep.
  unfold classify in Hstep. rewrite Hu, Hi, Hs in Hstep.
  apply nonEmpty_spec in Hp. rewrite Hp in Hstep.
  rewrite canonicalizeObjectWith_enough in Hstep by lia.
  simpl in Hstep. by injection Hstep as ->.
Qed.

Lemma SelfReferential_plain type prop na :
  SelfReferential checker type prop ->
  resolveAlias checker na type = type /\ PlainObject checker na type.
Proof.
  intros (Ha & Hu & Hi & Hs & Hp & _).
  assert (resolveAlias checker na type = type) as Hres
    by (unfold resolveAlias; by rewrite Ha, andb_false_r).
  split; [done|]. unfold PlainObject. rewrite Hres, Hp. done.
Qed.

Lemma selfKey_correct type prop na :
  SelfReferential checker type prop ->
  forall n fb,
    canonicalizeType host checker type (internalOptions (Z.of_nat n) na fb)
    = selfKey checker prop n.
Proof.
  intros Hself n. induction (lt_wf n) as [n _ IH]. intros fb.
  destruct (SelfReferential_plain type prop na Hself) as [Hres Hplain].
  destruct n as [|[|n]].
  - by apply canonicalizeType_limit.
  - rewrite canonicalizeType_plain by (done || lia).
    by rewrite collectProperties_unfold.
  - rewrite canonicalizeType_plain by (done || lia).
    rewrite collectProperties_unfold, Hres.
    change (depthLimitOr 7 (internalOptions (Z.of_nat (S (S n)) - 1) na fb))
      with (Z.of_nat (S (S n)) - 1).
    destruct (Z.leb_spec (Z.of_nat (S (S n)) - 1) 0); [lia|].
    unfold propertyFacts.
    destruct Hself as (_ & _ & _ & _ & -> & Htype). simpl.
    unfold propertyFact at 1. rewrite Htype.
    replace (Z.of_nat (S (S n)) - 1 - 1) with (Z.of_nat n) by lia.
    rewrite IH by lia. done.
Qed.
End DepthFacts.

(** ** The memo of one traversal *)

Section MemoFacts.
Context (host : Host) (checker : TypeChecker).

Lemma visitEach_erase vT (v : TypeId -> gmap N string -> option (string * gmap N string))
    ts m l :
  (forall t m l, erase <$> vT t (m, l) = v t m) ->
  erase <$> visitEach vT ts (m, l) = visitEach v ts m.
Proof.
  intros H. revert m l. induction ts as [|t ts IH]; intros m l; simpl; [done|].
  rewrite <- (H t m l). destruct (vT t (m, l)) as [[k [m1 l1]]|]; simpl; [|done].
  rewrite <- (IH m1 l1). by destruct (visitEach vT ts (m1, l1)) as [[ks [m2 l2]]|].
Qed.

Lemma classify_erase canon vT v na fb next d m l :
  (forall t m l, erase <$> vT t (m, l) = v t m) ->
  erase <$> classify host checker canon vT na fb next d (m, l)
  = classify host checker canon v na fb next d m.
Proof.
  intros H. unfold classify.
  rewrite <- !(visitEach_erase vT v _ m l H).
  destruct (isUnion checker next).
  { by destruct (visitEach vT _ _) as [[ks [m1 l1]]|]. }
  destruct (isIntersection checker next).
  { by destruct (visitEach vT _ _) as [[ks [m1 l1]]|]. }
  destruct (getIndexInfoOfType checker next IndexKindString) as [stringType|].
  - rewrite <- (H stringType m l).
    destruct (vT stringType (m, l)) as [[k1 [m1 l1]]|]; simpl; [|done].
    destruct (getIndexInfoOfType checker next IndexKindNumber) as [numberType|].
    + rewrite <- (H numberType m1 l1).
      destruct (vT numberType (m1, l1)) as [[k2 [m2 l2]]|]; simpl; [|done].
      by destruct (canonicalizeObjectWith _ _ _ _ _ _ _).
    + simpl. by destruct (canonicalizeObjectWith _ _ _ _ _ _ _).
  - destruct (nonEmpty (getProperties checker next)).
    + by destruct (canonicalizeObjectWith _ _ _ _ _ _ _).
    + by destruct (nonEmpty _ || nonEmpty _).
Qed.

(** The recorded run computes what [visit] computes. *)
Lemma visitTraced_erase fuel : forall na fb t d m l,
  erase <$> visitTraced host checker fuel na fb t d (m, l)
  = visit host checker fuel na fb t d m.
Proof.
  induction fuel as [|fuel IH]; intros na fb t d m l; simpl;
    destruct (d <=? 0); try done.
  destruct (cachedKey m t); [done|].
  match goal with
  | |- erase <$> (?X ≫= _) = ?Y ≫= _ =>
      assert (erase <$> X = Y) as <-
        by (apply classify_erase; intros; apply IH);
      by destruct X as [[r [m1 l1]]|]
  end.
Qed.

Lemma Event_eqb_eq a b : Event_eqb a b = true <-> a = b.
Proof.
  destruct a as [t|t k|t d|t k], b as [u|u k'|u d'|u k']; simpl;
    try (split; [done|by intros [=]]);
    rewrite ?andb_true_iff, ?N.eqb_eq, ?Z.eqb_eq, ?String.eqb_eq.
  - split; [by intros ->|by intros [= ->]].
  - split; [by intros [-> ->]|by intros [= -> ->]].
  - split; [by intros [-> ->]|by intros [= -> ->]].
  - split; [by intros [-> ->]|by intros [= -> ->]].
Qed.

Lemma Stored_start : Stored (∅, []).
Proof. split; [|done]. intros t key. simpl. by rewrite lookup_empty. Qed.

Lemma Stored_event m l e :
  (forall t key, e <> EvHit t key) -> Stored (m, l) -> Stored (m, e :: l).
Proof.
  intros He [Hm Hl]. split; simpl in *.
  - intros t key Hk. right. by apply Hm.
  - destruct e; try done. by destruct (He type key).
Qed.

Lemma Stored_hit m l t key :
  cachedKey m t = Some key -> Stored (m, l) -> Stored (m, EvHit t key :: l).
Proof.
  unfold cachedKey. intros Hc [Hm Hl]. split; simpl in *.
  - intros t' key' Hk. right. by apply Hm.
  - destruct (m !! t) as [k|] eqn:Hk; [|done].
    destruct (Js.truthy k) eqn:Htruthy; [|done]. injection Hc as <-.
    rewrite Htruthy, Hl, !andb_true_r. simpl.
    apply existsb_exists. exists (EvExit t k).
    split; [by apply list_elem_of_In, Hm|]. by apply Event_eqb_eq.
Qed.

Lemma Stored_exit m l t key : Stored (m, l) -> Stored (<[t := key]> m, EvExit t key :: l).
Proof.
  intros [Hm Hl]. split; simpl in *; [|done].
  intros t' key'. destruct (decide (t = t')) as [<-|Hne].
  - rewrite lookup_insert_eq. intros [= <-]. by left.
  - rewrite lookup_insert_ne by done. intros Hk. right. by apply Hm.
Qed.

(** A property of the memo and the events that every call of [visit]
    keeps is kept by the cascade. *)
Section Kept.
Context (Kept : gmap N string * list Event -> Prop).

Lemma visitEach_kept (vT : TypeId -> _ -> option (string * (gmap N string * list Event)))
    ts st ks st' :
  (forall t st k st', vT t st = Some (k, st') -> Kept st -> Kept st') ->
  visitEach vT ts st = Some (ks, st') -> Kept st -> Kept st'.
Proof.
  intros H. revert st ks. induction ts as [|t ts IH]; intros st ks; simpl.
  - by intros [= _ <-].
  - destruct (vT t st) as [[k st1]|] eqn:Hv; simpl; [|done].
    destruct (visitEach vT ts st1) as [[ks' st2]|] eqn:Hvs; simpl; [|done].
    intros [= _ <-] Hst. eapply IH; [done|]. by eapply H.
Qed.

Lemma classify_kept canon
    (vT : TypeId -> _ -> option (string * (gmap N string * list Event)))
    na fb next d st r st' :
  (forall t st k st', vT t st = Some (k, st') -> Kept st -> Kept st') ->
  classify host checker canon vT na fb next d st = Some (r, st') ->
  Kept st -> Kept st'.
Proof.
  intros H. unfold classify.
  destruct (isUnion checker next).
  { destruct (visitEach vT _ _) as [[ks st1]|] eqn:Hvs; simpl; [|done].
    intros [= _ <-]. by eapply visitEach_kept. }
  destruct (isIntersection checker next).
  { destruct (visitEach vT _ _) as [[ks st1]|] eqn:Hvs; simpl; [|done].
    intros [= _ <-]. by eapply visitEach_kept. }
  destruct (getIndexInfoOfType checker next IndexKindString) as [stringType|].
  - destruct (vT stringType st) as [[k1 st1]|] eqn:Hv1; simpl; [|done].
    destruct (getIndexInfoOfType checker next IndexKindNumber) as [numberType|].
    + destruct (vT numberType st1) as [[k2 st2]|] eqn:Hv2; simpl; [|done].
      destruct (canonicalizeObjectWith _ _ _ _ _ _ _); simpl; [|done].
      intros [= _ <-] Hst. eapply H; [done|]. by eapply H.
    + simpl. destruct (canonicalizeObjectWith _ _ _ _ _ _ _); simpl; [|done].
      intros [= _ <-] Hst. by eapply H.
  - destruct (nonEmpty (getProperties checker next)).
    + destruct (canonicalizeObjectWith _ _ _ _ _ _ _); simpl; [|done].
      by intros [= _ <-].
    + destruct (nonEmpty _ || nonEmpty _); by intros [= _ <-].
Qed.
End Kept.

Lemma visitTraced_Stored fuel : forall na fb t d st k st',
  visitTraced host checker fuel na fb t d st = Some (k, st') ->
  Stored st -> Stored st'.
Proof.
  induction fuel as [|fuel IH]; intros na fb t d [m l] k st'; simpl;
    (destruct (d <=? 0); [intros [= _ <-]; by apply Stored_event|]); [done|].
  destruct (cachedKey m t) as [cached|] eqn:Hc.
  { intros [= _ <-]. by apply Stored_hit. }
  destruct (classify _ _ _ _ _ _ _ _ _) as [[r [m1 l1]]|] eqn:Hclass; simpl; [|done].
  intros [= _ <-] Hst. apply Stored_exit.
  eapply (classify_kept Stored); [|exact Hclass|].
  - intros t' st0 k' st0'. apply IH.
  - by apply Stored_event.
Qed.

(** The memo follows the returns. *)
Lemma Tracked_start : Tracked (∅, []).
Proof. split; [|done]. intros t. simpl. by rewrite lookup_empty. Qed.

Lemma cachedKey_answerAfter m l t :
  Tracked (m, l) -> cachedKey m t = answerAfter l t.
Proof. intros [Hm _]. unfold cachedKey, answerAfter. simpl in Hm. by rewrite Hm. Qed.

Lemma Tracked_limit m l t : Tracked (m, l) -> Tracked (m, EvLimit t :: l).
Proof. by intros [Hm Hl]. Qed.

Lemma Tracked_hit m l t key :
  cachedKey m t = Some key -> Tracked (m, l) -> Tracked (m, EvHit t key :: l).
Proof.
  intros Hc Hst. rewrite (cachedKey_answerAfter m l t Hst) in Hc.
  destruct Hst as [Hm Hl]. split; [done|]. simpl in *.
  by rewrite Hc, String.eqb_refl, Hl.
Qed.

Lemma Tracked_enter m l t d :
  0 < d -> cachedKey m t = None -> Tracked (m, l) -> Tracked (m, EvEnter t d :: l).
Proof.
  intros Hd Hc Hst. rewrite (cachedKey_answerAfter m l t Hst) in Hc.
  destruct Hst as [Hm Hl]. split; [done|]. simpl in *.
  rewrite Hc, Hl. by destruct (Z.ltb_spec 0 d); [|lia].
Qed.

Lemma Tracked_exit m l t key :
  Tracked (m, l) -> Tracked (<[t := key]> m, EvExit t key :: l).
Proof.
  intros [Hm Hl]. split; simpl in *; [|done].
  intros t'. destruct (N.eqb_spec t t') as [<-|Hne].
  - by rewrite lookup_insert_eq.
  - by rewrite lookup_insert_ne.
Qed.

Lemma visitTraced_Tracked fuel : forall na fb t d st k st',
  visitTraced host checker fuel na fb t d st = Some (k, st') ->
  Tracked st -> Tracked st'.
Proof.
  induction fuel as [|fuel IH]; intros na fb t d [m l] k st'; simpl;
    (destruct (Z.leb_spec d 0); [intros [= _ <-]; by apply Tracked_limit|]); [done|].
  destruct (cachedKey m t) as [cached|] eqn:Hc.
  { intros [= _ <-]. by apply Tracked_hit. }
  destruct (classify _ _ _ _ _ _ _ _ _) as [[r [m1 l1]]|] eqn:Hclass; simpl; [|done].
  intros [= _ <-] Hst. apply Tracked_exit.
  eapply (classify_kept Tracked); [|exact Hclass|].
  - intros t' st0 k' st0'. apply IH.
  - by apply Tracked_enter.
Qed.

Lemma memoDecides_app newer older :
  memoDecides (newer ++ older) = true -> memoDecides older = true.
Proof.
  induction newer as [|e newer IH]; simpl; [done|].
  destruct e; try done; rewrite !andb_true_iff; intros [_ H]; by apply IH.
Qed.

Lemma answerAfter_Some log t key :
  answerAfter log t = Some key -> lastExit t log = Some key /\ Js.truthy key = true.
Proof.
  unfold answerAfter. destruct (lastExit t log) as [stored|]; [|done].
  destruct (Js.truthy stored) eqn:Htruthy; [|done]. by intros [= <-].
Qed.

Lemma memoDecides_hit newer t key older :
  memoDecides (newer ++ EvHit t key :: older) = true ->
  lastExit t older = Some key /\ Js.truthy key = true.
Proof.
  intros H%memoDecides_app. simpl in H. apply andb_true_iff in H as [H _].
  destruct (answerAfter older t) as [stored|] eqn:Hanswer; [|done].
  apply String.eqb_eq in H as ->. by apply answerAfter_Some.
Qed.

Lemma memoDecides_enter newer t d older :
  memoDecides (newer ++ EvEnter t d :: older) = true ->
  0 < d /\ answerAfter older t = None.
Proof.
  intros H%memoDecides_app. simpl in H.
  apply andb_true_iff in H as [[Hd H]%andb_true_iff _].
  split; [by apply Z.ltb_lt|]. by destruct (answerAfter older t).
Qed.
End MemoFacts.

(** ** The walk of [getProgramState] *)

Section IndexFacts.
Context (host : Host).

(** Induction on syntax trees. *)
Lemma Node_rect' (P : Node -> Prop) :
  (forall id kind nm p children, Forall P children -> P (MkNode id kind nm p children)) ->
  forall n, P n.
Proof.
  intros H. fix IH 1. intros [id kind nm p children]. apply H.
  induction children as [|c children IHc]; constructor; [apply IH|apply IHc].
Qed.

(** A property of the three containers that [record] keeps is kept by
    the walk of a node, of a file, and of the program. *)
Section Preserved.
Context (Q : ProgramState -> Prop).
Hypothesis record_Q : forall info st, Q st -> Q (record info st).

Lemma visitNode_preserves sf n : forall st, Q st -> Q (visitNode host sf n st).
Proof.
  induction n as [id kind nm p children IH] using Node_rect'. intros st Hst.
  assert (forall st, Q st ->
            Q ((fix forEachChild (cs : list Node) (st : ProgramState) : ProgramState :=
                  match cs with
                  | [] => st
                  | c :: rest => forEachChild rest (visitNode host sf c st)
                  end) children st)) as Hchildren.
  { clear st Hst. induction IH as [|c children Hc _ IHchildren]; intros st Hst; [done|].
    apply IHchildren. by apply Hc. }
  simpl.
  destruct (isInterfaceDeclaration _ || isTypeAliasDeclaration _); [|by apply Hchildren].
  destruct nm as [nm|]; [|done].
  destruct (getSymbolAtLocation (checker st) nm) as [sym|]; [|done].
  destruct (describeDeclaration host (checker st) sym noOptions) as [shape|]; [|done].
  by apply Hchildren, record_Q.
Qed.

Lemma visitSourceFile_preserves st sf : Q st -> Q (visitSourceFile host st sf).
Proof.
  unfold visitSourceFile. destruct (shouldSkipSourceFile host sf); [done|].
  revert st. induction (statements sf) as [|n ns IH]; intros st Hst; simpl; [done|].
  apply IH. by apply visitNode_preserves.
Qed.

Lemma walk_preserves files : forall st, Q st -> Q (foldl (visitSourceFile host) st files).
Proof.
  induction files as [|sf files IH]; intros st Hst; simpl; [done|].
  apply IH. by apply visitSourceFile_preserves.
Qed.
End Preserved.

Lemma buildProgramState_interfaces program :
  InterfacesOnly (buildProgramState host program).
Proof.
  unfold InterfacesOnly, buildProgramState. simpl. intros info.
  rewrite elem_of_sort. revert info.
  apply (walk_preserves (fun st => forall info, info ∈ interfaceInfos st ->
                           isInterfaceDeclaration (node info) = true)).
  - intros info st Hst info'. unfold record. simpl.
    destruct (isInterfaceDeclaration (node info)) eqn:Hkind; [|apply Hst].
    intros [Hin|Hin%list_elem_of_singleton]%elem_of_app; [by apply Hst|by subst].
  - simpl. by intros info Hin%elem_of_nil.
Qed.

Lemma uniqueBySymbol_head infos : head (uniqueBySymbol infos) = head infos.
Proof.
  unfold uniqueBySymbol. destruct infos as [|info infos]; simpl; [done|].
  destruct (decide (symbol info ∈ (∅ : gset N))) as [Hin|_]; [|done]. set_solver.
Qed.

Lemma buildProgramState_ordered program :
  Collation host -> OrderedState host (buildProgramState host program).
Proof.
  intros coll. unfold OrderedState, buildProgramState. simpl. split.
  - intros key bucket. rewrite lookup_fmap.
    destruct (byCanonical _ !! key) as [l|]; simpl; [|done].
    intros [= <-]. by apply sort_InDeclarationOrder.
  - by apply sort_InDeclarationOrder.
Qed.

End IndexFacts.

(** ** [collectProperties] and [describeDeclaration] *)

Section PropertyFacts.
Context (host : Host) (checker : TypeChecker).

Lemma collectProperties_nil type o :
  depthLimitOr 7 o <= 0 -> collectProperties host checker type o = [].
Proof.
  intros Hd. rewrite collectProperties_unfold.
  by destruct (Z.leb_spec (depthLimitOr 7 o) 0); [|lia].
Qed.

Lemma describeDeclaration_shallow symbol decl rest d na :
  getDeclarations checker symbol = Some (decl :: rest) -> d <= 1 ->
  describeDeclaration host checker symbol {| depthLimit := Some d; normalizeAlias := na |}
  = Some (OtherShape
            (canonicalizeType host checker (getTypeAtLocation checker decl)
               (internalOptions d (default true na) decl))).
Proof.
  intros Hdecl Hd. unfold describeDeclaration. rewrite Hdecl. simpl.
  rewrite collectProperties_nil; [done|]. unfold depthLimitOr. simpl. lia.
Qed.

Context (coll : Collation host).

Lemma collectProperties_sorted type o :
  StronglySorted (NameOrder host) (collectProperties host checker type o).
Proof.
  rewrite collectProperties_unfold. destruct (_ <=? 0); [constructor|].
  apply (sort_StronglySorted (fun a b => localeCompare host (name a) (name b))).
  - intros a b. pose proof (collation_antisym host coll (name a) (name b)). lia.
  - intros a b c. apply (collation_trans host coll).
Qed.

(** The stable sort arranges the facts in one way only, as long as no
    two of them have names that compare equal. *)
Lemma collectProperties_order_independent t1 t2 d na fb :
  propertyFacts host checker t1 d na fb ≡ₚ propertyFacts host checker t2 d na fb ->
  DistinctNames host (propertyFacts host checker t1 d na fb) ->
  collectProperties host checker t1 (internalOptions d na fb)
  = collectProperties host checker t2 (internalOptions d na fb).
Proof.
  intros Hperm Hnames. rewrite !collectProperties_unfold.
  change (depthLimitOr 7 (internalOptions d na fb)) with d.
  destruct (d <=? 0); [done|].
  apply (sort_order_independent (fun a b => localeCompare host (name a) (name b)));
    [| |  |done].
  - intros a b. pose proof (collation_antisym host coll (name a) (name b)). lia.
  - intros a b c. apply (collation_trans host coll).
  - intros x y Hx Hy Hxy Hyx. apply (Hnames x y Hx Hy).
    unfold NotAfter in Hxy, Hyx.
    pose proof (collation_antisym host coll (name x) (name y)). lia.
Qed.
End PropertyFacts.

(** ** The example runtimes are collations *)

Import Examples.

Section HostFacts.

Lemma compare_Lt_trans a b c :
  String.compare a b = Lt -> String.compare b c = Lt -> String.compare a c = Lt.
Proof.
  intros Hab Hbc. apply OrderedTypeEx.String_as_OT.cmp_lt.
  apply OrderedTypeEx.String_as_OT.cmp_lt in Hab, Hbc.
  by eapply OrderedTypeEx.String_as_OT.lt_trans.
Qed.

Lemma compare_refl a : String.compare a a = Eq.
Proof. by apply OrderedTypeEx.String_as_OT.cmp_eq. Qed.

Lemma defaultCompare_antisym a b :
  Z.sgn (Js.defaultCompare a b) = - Z.sgn (Js.defaultCompare b a).
Proof.
  unfold Js.defaultCompare. rewrite (String.compare_antisym b a).
  by destruct (String.compare a b).
Qed.

Lemma defaultCompare_trans a b c :
  Js.defaultCompare a b <= 0 -> Js.defaultCompare b c <= 0 -> Js.defaultCompare a c <= 0.
Proof.
  unfold Js.defaultCompare.
  destruct (String.compare a b) eqn:Hab; simpl; [|intros _|lia].
  - apply String.compare_eq_iff in Hab as ->. done.
  - destruct (String.compare b c) eqn:Hbc; simpl; [|intros _|lia].
    + apply String.compare_eq_iff in Hbc as <-. by rewrite Hab.
    + by rewrite (compare_Lt_trans a b c).
Qed.

Lemma defaultCompare_eq a b : Js.defaultCompare a b = 0 -> a = b.
Proof.
  unfold Js.defaultCompare. destruct (String.compare a b) eqn:Hab; simpl; try lia.
  intros _. by apply String.compare_eq_iff.
Qed.

(** The sort of the member keys of a union does its part: the sorted
    keys do not depend on the order in which the keys were produced. *)
Lemma sortStrings_order_independent parts1 parts2 :
  parts1 ≡ₚ parts2 -> Js.sortStrings parts1 = Js.sortStrings parts2.
Proof.
  intros Hperm. apply sort_order_independent; [| | |done].
  - intros a b. pose proof (defaultCompare_antisym a b). lia.
  - intros a b c. apply defaultCompare_trans.
  - intros x y _ _ Hxy Hyx. apply defaultCompare_eq. unfold NotAfter in *.
    pose proof (defaultCompare_antisym x y). lia.
Qed.

Lemma byteHost_laws : HostLaws byteHost.
Proof.
  split; simpl.
  - apply defaultCompare_antisym.
  - apply defaultCompare_trans.
  - apply defaultCompare_eq.
Qed.

Lemma collate_antisym a b : Z.sgn (collate a b) = - Z.sgn (collate b a).
Proof.
  unfold collate. rewrite (String.compare_antisym (lowerCase b) (lowerCase a)).
  destruct (String.compare (lowerCase a) (lowerCase b)); simpl; try done.
  pose proof (defaultCompare_antisym a b). lia.
Qed.

Lemma collate_le a b :
  collate a b <= 0 <->
  String.compare (lowerCase a) (lowerCase b) = Lt
  \/ (lowerCase a = lowerCase b /\ Js.defaultCompare b a <= 0).
Proof.
  unfold collate. pose proof (defaultCompare_antisym a b) as Hanti.
  destruct (String.compare (lowerCase a) (lowerCase b)) eqn:Hl; simpl.
  - apply String.compare_eq_iff in Hl. split; [intros; right; split; [done|lia]|].
    intros [?|[_ ?]]; [done|lia].
  - split; [by left|lia].
  - split; [lia|]. intros [?|[Heq _]]; [done|].
    rewrite Heq, compare_refl in Hl. done.
Qed.

Lemma byteHost_collation : Collation byteHost.
Proof. apply HostLaws_Collation, byteHost_laws. Qed.

Lemma equatingHost_collation : Collation equatingHost.
Proof.
  split; simpl; unfold equating.
  - intros a b. rewrite (String.compare_antisym (lowerCase b) (lowerCase a)).
    by destruct (String.compare (lowerCase a) (lowerCase b)).
  - intros a b c. apply defaultCompare_trans.
Qed.

Lemma collatingHost_laws : HostLaws collatingHost.
Proof.
  split; simpl.
  - apply collate_antisym.
  - intros a b c. rewrite !collate_le.
    intros [Hab|[Hab Hba]] [Hbc|[Hbc Hcb]].
    + left. by eapply compare_Lt_trans.
    + left. by rewrite <- Hbc.
    + left. by rewrite Hab.
    + right. split; [congruence|]. by eapply defaultCompare_trans.
  - intros a b Hab. unfold collate in Hab.
    destruct (String.compare (lowerCase a) (lowerCase b)); simpl in Hab; try lia.
    apply defaultCompare_eq. lia.
Qed.

Lemma collatingHost_collation : Collation collatingHost.
Proof. apply HostLaws_Collation, collatingHost_laws. Qed.
End HostFacts.

(** * The claims *)

(** C1 (as stated, refuted).  [inUpperB] and [inLowerA] both qualify as
    bases of [derived] and have two properties each.  Code unit by code
    unit the path ["/lib/B.ts"] is smaller than ["/lib/a.ts"], but with a
    locale-aware collation [findBestInterfaceBase] returns the candidate
    in ["/lib/a.ts"].  And when the collation reports the two paths as
    equal, the positions are not looked at and the candidate that comes
    first in the list is returned, here the one at position 5 or the one
    at position 0 depending on the order of the list. *)
Lemma tie_break_follows_collation :
  Qualifies derived inUpperB /\ Qualifies derived inLowerA
  /\ length (propertiesOf inUpperB) = length (propertiesOf inLowerA)
  /\ String.compare "/lib/B.ts" "/lib/a.ts" = Lt
  /\ findBestInterfaceBase collatingHost derived [inUpperB; inLowerA] = Some inLowerA
  /\ ~ CodeUnitOrder collatingHost inLowerA inUpperB
  /\ Qualifies derived inUpperE /\ Qualifies derived inLowerE
  /\ length (propertiesOf inUpperE) = length (propertiesOf inLowerE)
  /\ localeCompare equatingHost "/lib/E.ts" "/lib/e.ts" = 0
  /\ findBestInterfaceBase equatingHost derived [inUpperE; inLowerE] = Some inUpperE
  /\ findBestInterfaceBase equatingHost derived [inLowerE; inUpperE] = Some inLowerE.
Proof.
  split_and!; try reflexivity; try (apply passes_spec; reflexivity).
  intros [H|[H _]]; discriminate H.
Qed.

(** C1 (amended).  The loop of [findBestInterfaceBase] takes a candidate
    exactly when it is a structural base of the target: another symbol, an
    object shape with at least one property and fewer properties than the
    target, each of them equal in all four fields to a property of the
    target.  The function returns a candidate that qualifies and has the
    greatest property count, and it returns nothing exactly when no
    candidate qualifies; this holds whatever [localeCompare] does.  When
    [localeCompare] is a consistent comparator, the candidate returned is
    at or before every qualifying candidate of the same property count for
    [compareDeclarationInfo]: either the normalised paths differ and its
    path is not after the other in the collation of the runtime, or the
    paths are the same string and its position is not greater. *)
Theorem findBestInterfaceBase_selects host target candidates :
  (forall c, considerCandidate host target (propertiesOf target) None c = Some c
             <-> Qualifies target c)
  /\ match findBestInterfaceBase host target candidates with
     | Some best =>
         best ∈ candidates /\ Qualifies target best
         /\ (forall c, c ∈ candidates -> Qualifies target c ->
               (length (propertiesOf c) <= length (propertiesOf best))%nat)
         /\ (Collation host ->
             forall c, c ∈ candidates -> Qualifies target c ->
               length (propertiesOf c) = length (propertiesOf best) ->
               Precedes host best c)
     | None => forall c, c ∈ candidates -> ~ Qualifies target c
     end.
Proof.
  split.
  - intros c. rewrite considerCandidate_passes, <- passes_spec.
    destruct (passes target c); split; congruence.
  - pose proof (findBestInterfaceBase_Greatest host target candidates) as Hgreatest.
    pose proof (fun coll => findBestInterfaceBase_Best host coll target candidates) as Hbest.
    destruct (findBestInterfaceBase host target candidates) as [best|]; [|exact Hgreatest].
    destruct Hgreatest as (Hin & Hq & Hcount). split_and!; [done..|].
    intros coll c Hc Hqc Hlen. destruct (Hbest coll) as (_ & _ & Hall).
    destruct (Hall c Hc Hqc) as [Hlt|[_ Hle]]; [lia|].
    by apply compareDeclarationInfo_Precedes.
Qed.

Lemma findBestInterfaceBase_selects_witness :
  Collation collatingHost
  /\ findBestInterfaceBase collatingHost derived
       [baseA; baseAB; inUpperB; baseBC; inLowerA; baseAZ; alias; derived]
     = Some inLowerA
  /\ Precedes collatingHost inLowerA inUpperB
  /\ Precedes collatingHost inLowerA baseBC.
Proof.
  split; [exact collatingHost_collation|]. split; [reflexivity|].
  pose proof (findBestInterfaceBase_selects collatingHost derived
                [baseA; baseAB; inUpperB; baseBC; inLowerA; baseAZ; alias; derived])
    as [_ (_ & _ & _ & H)].
  split; apply (H collatingHost_collation);
    try reflexivity; try (apply passes_spec; reflexivity).
  - rewrite !elem_of_cons. tauto.
  - rewrite !elem_of_cons. tauto.
Defined.

(** C9.  For a target whose shape is not an object shape, or whose
    property list is empty, [findBestInterfaceBase] returns nothing,
    whatever the candidates are; the result is an ordinary value of the
    option type. *)
Theorem findBestInterfaceBase_nothing_to_extend host target candidates :
  isObjectShape (shape target) = false \/ propertiesOf target = [] ->
  findBestInterfaceBase host target candidates = None.
Proof.
  unfold findBestInterfaceBase, propertiesOf.
  destruct (shape target) as [key props|]; [|done].
  intros [?| ->]; done.
Qed.

Lemma findBestInterfaceBase_nothing_to_extend_witness :
  isObjectShape (shape alias) = false
  /\ findBestInterfaceBase byteHost alias [baseA; baseAB; derived] = None.
Proof.
  split; [reflexivity|].
  apply (findBestInterfaceBase_nothing_to_extend byteHost alias [baseA; baseAB; derived]).
  left. reflexivity.
Defined.

(** C10.  [collectProperties] returns the empty list whenever its depth
    limit is at most 0; so for a symbol with a declaration,
    [describeDeclaration] called with a depth limit of at most 1 returns an
    [OtherShape], also when the type has properties. *)
Theorem describeDeclaration_depth_one host checker symbol decl rest d na :
  getDeclarations checker symbol = Some (decl :: rest) -> d <= 1 ->
  (forall type o, depthLimitOr 7 o <= 0 -> collectProperties host checker type o = [])
  /\ describeDeclaration host checker symbol {| depthLimit := Some d; normalizeAlias := na |}
     = Some (OtherShape
               (canonicalizeType host checker (getTypeAtLocation checker decl)
                  (internalOptions d (default true na) decl))).
Proof.
  intros Hdecl Hd. split.
  - apply collectProperties_nil.
  - by eapply describeDeclaration_shallow.
Qed.

Lemma describeDeclaration_depth_one_witness :
  getProperties exampleChecker tList = [101%N]
  /\ describeDeclaration byteHost exampleChecker 201%N
       {| depthLimit := Some 1; normalizeAlias := None |}
     = Some (OtherShape "object{}").
Proof.
  split; [reflexivity|].
  exact (proj2 (describeDeclaration_depth_one byteHost exampleChecker 201%N 1201%N [] 1 None
                  eq_refl ltac:(lia))).
Defined.

(** C3 (as stated, refuted).  The list type [interface List { next: List }]
    is self-referential, 1 is a depth limit of at least 1, and its key at
    that limit is ["object{}"]: the limit runs out without the sentinel
    appearing anywhere in the key. *)
Lemma sentinel_absent_at_depth_one :
  SelfReferential exampleChecker tList 101%N
  /\ 1 <= 1
  /\ canonicalizeType byteHost exampleChecker tList (internalOptions 1 true 0%N) = "object{}"
  /\ occursIn DepthLimit
       (canonicalizeType byteHost exampleChecker tList (internalOptions 1 true 0%N)) = false.
Proof. repeat split; (reflexivity || lia). Qed.

(** C3 (amended).  [canonicalizeType] returns ["#DepthLimit"] whenever the
    depth limit is at most 0, and at a positive limit only if the textual
    rendering of the type is that very string.  It returns for every type
    and every integer limit, with fuel for no more than the limit.  The
    limit runs out in two places: in [visit], which returns the sentinel,
    and in [collectProperties], which returns the empty list.  So a type
    that [visit] renders as a plain object has the key ["object{}"] at
    limit 1, without a sentinel, and at a limit [d] of 2 or more its key
    lists every property with the key of its type at limit [d - 2].  Hence
    for a shape whose only member is a property typed as the shape itself
    the key at limit [d] is [selfKey d]: its innermost type key is the
    sentinel when [d] is even and ["object{}"] when [d] is odd. *)
Theorem canonicalizeType_depth_limit host checker :
  (forall t o, depthLimitOr 8 o <= 0 -> canonicalizeType host checker t o = DepthLimit)
  /\ (forall t d na fb, 0 < d ->
        canonicalizeType host checker t (internalOptions d na fb) = DepthLimit ->
        typeToString checker (resolveAlias checker na t) fb = DepthLimit)
  /\ (forall t d na fb fuel, isSafeInteger d -> (Z.to_nat d <= fuel)%nat ->
        canonicalizeTypeFuel host checker fuel t d na fb
        = Some (canonicalizeType host checker t (internalOptions d na fb)))
  /\ (forall t o, depthLimitOr 7 o <= 0 -> collectProperties host checker t o = [])
  /\ (forall t na fb, PlainObject checker na t ->
        canonicalizeType host checker t (internalOptions 1 na fb) = "object{}")
  /\ (forall t d na fb, PlainObject checker na t -> 2 <= d ->
        exists props,
          canonicalizeType host checker t (internalOptions d na fb)
          = "object{" +:+ Js.join "," (map entryOf props) +:+ "}"
          /\ props ≡ₚ
               map (fun prop =>
                      let decl := declarationOf checker fb prop in
                      {| name := getName checker prop;
                         optional := isOptional checker prop;
                         readonly := isReadonly checker prop;
                         typeKey :=
                           canonicalizeType host checker
                             (getTypeOfSymbolAtLocation checker prop decl)
                             (internalOptions (d - 2) na decl) |})
                 (getProperties checker (resolveAlias checker na t)))
  /\ (forall type prop d na fb,
        SelfReferential checker type prop -> 0 <= d -> isSafeInteger d ->
        canonicalizeType host checker type (internalOptions d na fb)
        = selfKey checker prop (Z.to_nat d)).
Proof.
  split_and!.
  - apply canonicalizeType_limit.
  - apply canonicalizeType_sentinel.
  - intros t d na fb fuel _. apply canonicalizeTypeFuel_enough.
  - apply collectProperties_nil.
  - intros t na fb Hplain. rewrite canonicalizeType_plain by (done || lia).
    by rewrite collectProperties_nil.
  - intros t d na fb Hplain Hd.
    exists (collectProperties host checker (resolveAlias checker na t)
              (internalOptions (d - 1) na fb)).
    split; [by rewrite canonicalizeType_plain by (done || lia)|].
    rewrite collectProperties_unfold.
    change (depthLimitOr 7 (internalOptions (d - 1) na fb)) with (d - 1).
    destruct (Z.leb_spec (d - 1) 0); [lia|].
    rewrite sort_Permutation. unfold propertyFacts, propertyFact.
    change (normalizeAliasOf (internalOptions (d - 1) na fb)) with na.
    change (fallbackNode (internalOptions (d - 1) na fb)) with fb.
    by replace (d - 1 - 1) with (d - 2) by lia.
  - intros type prop d na fb Hself Hd _. rewrite <- (Z2Nat.id d) at 1 by done.
    by apply selfKey_correct.
Qed.

Lemma canonicalizeType_depth_limit_witness :
  SelfReferential exampleChecker tList 101%N
  /\ canonicalizeType byteHost exampleChecker tList (internalOptions 4 true 0%N)
     = "object{next:object{next:#DepthLimit}}"
  /\ canonicalizeType byteHost exampleChecker tList (internalOptions 3 true 0%N)
     = "object{next:object{}}"
  /\ PlainObject Cyclic.checker true Cyclic.tLinked
  /\ canonicalizeType byteHost Cyclic.checker Cyclic.tLinked (internalOptions 1 true 0%N)
     = "object{}"
  /\ canonicalizeType byteHost Cyclic.checker Cyclic.tLinked (internalOptions 3 true 0%N)
     = "object{next:object{},tags:union<#DepthLimit|#DepthLimit>}".
Proof.
  assert (SelfReferential exampleChecker tList 101%N) as self
    by (repeat split; reflexivity).
  assert (PlainObject Cyclic.checker true Cyclic.tLinked) as plain
    by (repeat split; try reflexivity; discriminate).
  split; [exact self|].
  destruct (canonicalizeType_depth_limit byteHost exampleChecker)
    as (_ & _ & _ & _ & _ & _ & H).
  destruct (canonicalizeType_depth_limit byteHost Cyclic.checker)
    as (_ & _ & _ & _ & Hone & _ & _).
  split_and!.
  - apply (H tList 101%N 4 true 0%N self); [lia|]. unfold isSafeInteger. lia.
  - apply (H tList 101%N 3 true 0%N self); [lia|]. unfold isSafeInteger. lia.
  - exact plain.
  - exact (Hone Cyclic.tLinked true 0%N plain).
  - reflexivity.
Defined.



(** C4 (the code at the failing input).  [A] is [{ [key: string]: B }] and
    [B] is [{ [key: string]: string }].  With depth limit 3 the union
    listing [A] first visits [B] inside [A] at depth 1, stores that key, and
    answers the member [B] from the memo; the union listing [B] first
    visits [B] at depth 2 and answers the [B] inside [A] from the memo.  The
    two keys differ. *)
Theorem union_key_depends_on_member_order :
  types exampleChecker tAB = [tA; tB]
  /\ types exampleChecker tBA = [tB; tA]
  /\ keyOf byteHost tAB 3
     = "union<object[string:#DepthLimit;number:]{}|object[string:object[string:#DepthLimit;number:]{};number:]{}>"
  /\ keyOf byteHost tBA 3
     = "union<object[string:object[string:string;number:]{};number:]{}|object[string:string;number:]{}>"
  /\ keyOf byteHost tAB 3 <> keyOf byteHost tBA 3.
Proof. split_and!; try reflexivity. by vm_compute. Qed.

(** C6 (the code at the failing input).  [Sparse] is
    [{ a: string; [index: number]: string }]: it has a numeric index
    signature and no string index signature.  Its key is that of a plain
    object, the same as the key of [{ a: string }]; the index signature has
    no part in it. *)
Theorem numeric_index_alone_is_ignored :
  getIndexInfoOfType exampleChecker tSparse IndexKindNumber = Some tString
  /\ getIndexInfoOfType exampleChecker tSparse IndexKindString = None
  /\ keyOf byteHost tSparse 8 = "object{a:string}"
  /\ keyOf byteHost tPlain 8 = "object{a:string}".
Proof. split_and!; reflexivity. Qed.


(** C5 (as stated, refuted).  With a collation that puts ["a"] before
    ["B"], as the locale-aware comparison of strings does, the properties
    of [interface Mixed { B: string; a: string }] come out as [a], [B]; in
    code-unit order ["B"] is before ["a"], so the list is not sorted in
    that order. *)
Lemma properties_not_in_code_unit_order :
  map name (collectProperties collatingHost exampleChecker tMixed (internalOptions 7 true 0%N))
  = ["a"; "B"]
  /\ ~ StronglySorted ByteOrder
         (map name (collectProperties collatingHost exampleChecker tMixed
                      (internalOptions 7 true 0%N))).
Proof.
  split; [reflexivity|].
  intros Hsorted. apply StronglySorted_cons in Hsorted as [Hhead _].
  apply Forall_cons_1 in Hhead as [Hab _]. by apply Hab.
Qed.

(** C5 (amended).  When [localeCompare] is a consistent comparator,
    [collectProperties] returns the property facts sorted by name
    ascending in the collation of the runtime
    ([String.prototype.localeCompare]), not in code-unit order.  Two plain
    object types whose facts are the same up to their order have the same
    sorted property list and the same canonical key, provided no two of
    the facts have names that [localeCompare] reports as equal. *)
Theorem collectProperties_sorted_by_collation host (coll : Collation host) checker :
  (forall type o, StronglySorted (NameOrder host) (collectProperties host checker type o))
  /\ (forall t1 t2 d na fb,
        0 < d -> PlainObject checker na t1 -> PlainObject checker na t2 ->
        propertyFacts host checker (resolveAlias checker na t1) (d - 1) na fb
          ≡ₚ propertyFacts host checker (resolveAlias checker na t2) (d - 1) na fb ->
        DistinctNames host
          (propertyFacts host checker (resolveAlias checker na t1) (d - 1) na fb) ->
        collectProperties host checker (resolveAlias checker na t1) (internalOptions (d - 1) na fb)
        = collectProperties host checker (resolveAlias checker na t2) (internalOptions (d - 1) na fb)
        /\ canonicalizeType host checker t1 (internalOptions d na fb)
           = canonicalizeType host checker t2 (internalOptions d na fb)).
Proof.
  split.
  - intros type o. by apply collectProperties_sorted.
  - intros t1 t2 d na fb Hd Hp1 Hp2 Hperm Hnames.
    pose proof (collectProperties_order_independent host checker coll _ _ _ _ _ Hperm Hnames)
      as Heq.
    split; [done|]. rewrite !canonicalizeType_plain by done. by rewrite Heq.
Qed.

Lemma collectProperties_sorted_by_collation_witness :
  Collation collatingHost
  /\ StronglySorted (NameOrder collatingHost)
       (collectProperties collatingHost exampleChecker tMixed (internalOptions 7 true 0%N))
  /\ canonicalizeType collatingHost exampleChecker tMixed (internalOptions 8 true 0%N)
     = canonicalizeType collatingHost exampleChecker tMixed2 (internalOptions 8 true 0%N).
Proof.
  split; [exact collatingHost_collation|].
  destruct (collectProperties_sorted_by_collation collatingHost collatingHost_collation
              exampleChecker) as [Hsorted Hsame].
  split; [apply Hsorted|].
  apply (Hsame tMixed tMixed2 8 true 0%N).
  - lia.
  - repeat split; try reflexivity. discriminate.
  - repeat split; try reflexivity. discriminate.
  - apply Permutation_swap.
  - intros p q Hp Hq.
    change (propertyFacts collatingHost exampleChecker
              (resolveAlias exampleChecker true tMixed) (8 - 1) true 0%N)
      with [fact "B" "string"; fact "a" "string"] in Hp, Hq.
    rewrite !elem_of_cons, elem_of_nil in Hp, Hq.
    destruct Hp as [->|[->|[]]], Hq as [->|[->|[]]]; vm_compute; congruence.
Defined.

(** Why the proviso: the sort is stable, so two names that the collation
    reports as equal stay in the order of their declarations, and the keys
    of [{ E: string; e: number }] and [{ e: number; E: string }] differ. *)
Lemma equal_names_keep_declaration_order :
  localeCompare equatingHost "E" "e" = 0
  /\ canonicalizeType equatingHost Cyclic.checker Cyclic.tCased (internalOptions 8 true 0%N)
     = "object{E:string,e:number}"
  /\ canonicalizeType equatingHost Cyclic.checker Cyclic.tCased2 (internalOptions 8 true 0%N)
     = "object{e:number,E:string}".
Proof. split_and!; reflexivity. Qed.

(** C7 (as stated, refuted).  After [getProgramState] on a program whose
    only declaration is [interface Empty {}], the base-candidate list holds
    the record of [Empty], and its shape is an [OtherShape]. *)
Lemma empty_interface_is_a_base_candidate :
  map (fun i => (symbol i, shape i))
    (interfaceInfos (getProgramState byteHost ∅ emptyProgram).1)
  = [(211%N, OtherShape "Empty")]
  /\ ~ Forall (fun i => isObjectShape (shape i) = true)
         (interfaceInfos (getProgramState byteHost ∅ emptyProgram).1).
Proof.
  split; [reflexivity|].
  intros H. apply Forall_cons_1 in H as [H _]. discriminate H.
Qed.

(** C7 (amended).  After [getProgramState], every record in
    [interfaceInfos] is the record of an interface declaration, never of a
    type alias; its shape can be an [ObjectShape] or an [OtherShape].  This
    holds for a state taken from the cache as long as the states in the
    cache were put there by [getProgramState]. *)
Theorem interfaceInfos_hold_interfaces host cache program :
  map_Forall (fun _ state => InterfacesOnly state) cache ->
  InterfacesOnly (getProgramState host cache program).1
  /\ map_Forall (fun _ state => InterfacesOnly state) (getProgramState host cache program).2.
Proof.
  intros Hcache. unfold getProgramState.
  destruct (cache !! program_id program) as [cached|] eqn:Hlookup; simpl.
  - split; [|done]. by eapply Hcache.
  - split; [apply buildProgramState_interfaces|].
    apply map_Forall_insert_2; [apply buildProgramState_interfaces|done].
Qed.

Lemma interfaceInfos_hold_interfaces_witness :
  map symbol (interfaceInfos (getProgramState byteHost ∅ userProgram).1) = [221%N; 222%N]
  /\ InterfacesOnly (getProgramState byteHost ∅ userProgram).1.
Proof.
  split; [reflexivity|].
  apply (interfaceInfos_hold_interfaces byteHost ∅ userProgram).
  apply map_Forall_empty.
Defined.

(** C8 (as stated, refuted).  With a locale-aware collation the two
    records of [casedProgram] are listed with the file ["/lib/a.ts"]
    before the file ["/lib/B.ts"], in [interfaceInfos] and in their
    bucket, although ["/lib/B.ts"] is the smaller path code unit by code
    unit.  And when the collation reports two different paths as equal the
    sort leaves their records in the order in which the files were walked:
    the same two files give the two lists in opposite orders. *)
Lemma lists_follow_collation :
  map (fun i => fileName (sourceFile i))
    (interfaceInfos (getProgramState collatingHost ∅ casedProgram).1)
  = ["/lib/a.ts"; "/lib/B.ts"]
  /\ map (fun i => fileName (sourceFile i))
       (default [] (byCanonical (getProgramState collatingHost ∅ casedProgram).1
                      !! "object{id:number,name:string}"))
     = ["/lib/a.ts"; "/lib/B.ts"]
  /\ String.compare "/lib/B.ts" "/lib/a.ts" = Lt
  /\ ~ StronglySorted (CodeUnitOrder collatingHost)
         (interfaceInfos (getProgramState collatingHost ∅ casedProgram).1)
  /\ localeCompare equatingHost "/lib/E.ts" "/lib/e.ts" = 0
  /\ map (fun i => fileName (sourceFile i))
       (interfaceInfos (getProgramState equatingHost ∅ tiedProgram).1)
     = ["/lib/E.ts"; "/lib/e.ts"]
  /\ map (fun i => fileName (sourceFile i))
       (interfaceInfos (getProgramState equatingHost ∅ tiedProgram').1)
     = ["/lib/e.ts"; "/lib/E.ts"].
Proof.
  split_and!; try (vm_compute; reflexivity).
  assert (interfaceInfos (getProgramState collatingHost ∅ casedProgram).1
          = [ {| symbol := 222; node := declaration InterfaceDeclaration 222 0;
                 sourceFile := fileOf "/lib/a.ts" 222; shape := userShape |};
              {| symbol := 221; node := declaration InterfaceDeclaration 221 0;
                 sourceFile := fileOf "/lib/B.ts" 221; shape := userShape |} ]) as ->
    by (vm_compute; reflexivity).
  intros Hsorted. apply StronglySorted_cons in Hsorted as [Hhead _].
  apply Forall_cons_1 in Hhead as [[H|[H _]] _]; discriminate H.
Qed.

(** C8 (amended).  When [localeCompare] is a consistent comparator, after
    [getProgramState] every bucket of [byCanonical] and the list
    [interfaceInfos] have their normalised file paths ascending in the
    collation of the runtime; and every such list in which no two
    different paths collate as equal is in declaration order: path
    ascending in that collation, then position ascending.  Declarations
    met as [File1:10], [File2:5], [File1:50], with [File1] before
    [File2] in the collation, are put in the order [File1:10],
    [File1:50], [File2:5].  The original of a bucket is its first member;
    its path is not after that of any member, and under the same proviso
    it is at or before every member in declaration order. *)
Theorem getProgramState_sorted host (coll : Collation host) cache program a b c :
  map_Forall (fun _ state => OrderedState host state) cache ->
  normalizePath host (fileName (sourceFile a)) = "File1" -> pos (node a) = 10 ->
  normalizePath host (fileName (sourceFile b)) = "File2" -> pos (node b) = 5 ->
  normalizePath host (fileName (sourceFile c)) = "File1" -> pos (node c) = 50 ->
  localeCompare host "File1" "File2" < 0 ->
  let state := (getProgramState host cache program).1 in
  OrderedState host state
  /\ map_Forall (fun _ state => OrderedState host state) (getProgramState host cache program).2
  /\ Js.sort (compareDeclarationInfo host) [a; b; c] = [a; c; b]
  /\ (forall key bucket, byCanonical state !! key = Some bucket ->
        original state key = head bucket
        /\ forall first, head bucket = Some first ->
             forall info, info ∈ bucket ->
               PathOrder host first info
               /\ (Separated host bucket -> DeclarationOrder host first info)).
Proof.
  intros Hcache Hfa Hpa Hfb Hpb Hfc Hpc H12 state.
  assert (OrderedState host state
          /\ map_Forall (fun _ state => OrderedState host state)
               (getProgramState host cache program).2) as [Hstate Hcache'].
  { subst state. unfold getProgramState.
    destruct (cache !! program_id program) as [cached|] eqn:Hlookup; simpl.
    - split; [|done]. by eapply Hcache.
    - split; [by apply buildProgramState_ordered|].
      apply map_Forall_insert_2; [by apply buildProgramState_ordered|done]. }
  split_and!; [done..| |].
  - assert (0 < compareDeclarationInfo host b c) as Hbc.
    { unfold compareDeclarationInfo. rewrite Hfb, Hfc. simpl.
      pose proof (collation_antisym host coll "File1" "File2"). lia. }
    assert (compareDeclarationInfo host a c <= 0) as Hac.
    { unfold compareDeclarationInfo. rewrite Hfa, Hfc, Hpa, Hpc. simpl. lia. }
    unfold Js.sort. cbn [foldr Js.insert].
    destruct (Z.leb_spec (compareDeclarationInfo host b c) 0); [lia|].
    cbn [Js.insert].
    by destruct (Z.leb_spec (compareDeclarationInfo host a c) 0); [|lia].
  - intros key bucket Hbucket. split.
    + unfold original. by rewrite Hbucket, uniqueBySymbol_head.
    + intros first Hfirst info Hin.
      destruct (proj1 Hstate key bucket Hbucket) as [Hpaths Hdecls]. split.
      * by eapply head_PathOrder.
      * intros Hsep. eapply head_DeclarationOrder; [by apply Hdecls|done..].
Qed.

Lemma getProgramState_sorted_witness :
  Collation byteHost
  /\ byCanonical (getProgramState byteHost ∅ userProgram).1 !! "object{id:number,name:string}"
     = Some [user1; user3; user2]
  /\ original (getProgramState byteHost ∅ userProgram).1 "object{id:number,name:string}"
     = Some user1
  /\ Separated byteHost [user1; user3; user2]
  /\ StronglySorted (DeclarationOrder byteHost) [user1; user3; user2]
  /\ Js.sort (compareDeclarationInfo byteHost) [user1; user2; user3] = [user1; user3; user2].
Proof.
  assert (byCanonical (getProgramState byteHost ∅ userProgram).1
            !! "object{id:number,name:string}" = Some [user1; user3; user2]) as Hbucket
    by (by vm_compute).
  assert (Separated byteHost [user1; user3; user2]) as Hsep
    by (intros x y _ _; apply defaultCompare_eq).
  split; [exact byteHost_collation|].
  split; [exact Hbucket|]. split; [by vm_compute|]. split; [exact Hsep|].
  destruct (getProgramState_sorted byteHost byteHost_collation ∅ userProgram user1 user2 user3)
    as (Hordered & _ & Hsort & _); try reflexivity.
  - apply map_Forall_empty.
  - split; [|exact Hsort].
    exact (proj2 (proj1 Hordered _ _ Hbucket) Hsep).
Defined.

(** * Further properties *)

(** ** The index hangs together *)

Section IndexInvariantFacts.
Context (host : Host).

Lemma pushBucket_lookup key info buckets :
  exists bucket, pushBucket key info buckets !! key = Some bucket /\ info ∈ bucket.
Proof.
  unfold pushBucket. destruct (buckets !! key) as [bucket|].
  - exists (bucket ++ [info]). rewrite lookup_insert_eq. split; [done|set_solver].
  - exists [info]. rewrite lookup_insert_eq. split; [done|set_solver].
Qed.

Lemma pushBucket_grows key info buckets key' bucket x :
  buckets !! key' = Some bucket -> x ∈ bucket ->
  exists bucket', pushBucket key info buckets !! key' = Some bucket' /\ x ∈ bucket'.
Proof.
  intros Hb Hx. unfold pushBucket. destruct (decide (key = key')) as [->|Hne].
  - rewrite Hb. exists (bucket ++ [info]). rewrite lookup_insert_eq. split; [done|set_solver].
  - exists bucket. split; [|done]. destruct (buckets !! key); by rewrite lookup_insert_ne.
Qed.

Lemma pushBucket_inv key info buckets key' bucket x :
  pushBucket key info buckets !! key' = Some bucket -> x ∈ bucket ->
  (key' = key /\ x = info)
  \/ (exists old, buckets !! key' = Some old /\ x ∈ old).
Proof.
  unfold pushBucket. destruct (decide (key = key')) as [->|Hne].
  - destruct (buckets !! key') as [old|]; rewrite lookup_insert_eq; intros [= <-] Hx.
    + apply elem_of_app in Hx as [Hx|Hx%list_elem_of_singleton]; [right; eauto|by left].
    + apply list_elem_of_singleton in Hx. by left.
  - intros Hb Hx. right. exists bucket. split; [|done].
    destruct (buckets !! key); by rewrite lookup_insert_ne in Hb.
Qed.

Lemma record_checker info st : checker (record info st) = checker st.
Proof. done. Qed.

Lemma record_Bucketed info st x : Bucketed st x -> Bucketed (record info st) x.
Proof.
  intros Hx key props Hshape. destruct (Hx key props Hshape) as (bucket & Hb & Hin).
  unfold record. simpl. destruct (shape info) as [key0 props0|]; [|eauto].
  by eapply pushBucket_grows.
Qed.

Lemma record_Listed info st x : Listed st x -> Listed (record info st) x.
Proof.
  intros Hx Hkind. unfold record. simpl.
  destruct (isInterfaceDeclaration (node info)); [|by apply Hx].
  apply elem_of_app. left. by apply Hx.
Qed.

Lemma record_Bucketed_new info st : Bucketed (record info st) info.
Proof.
  intros key props Hshape. unfold record. simpl. rewrite Hshape.
  apply pushBucket_lookup.
Qed.

Lemma record_Listed_new info st : Listed (record info st) info.
Proof.
  intros Hkind. unfold record. simpl. rewrite Hkind. set_solver.
Qed.

Lemma record_WellIndexed info st :
  WellIndexed host st -> Described host (checker st) info ->
  WellIndexed host (record info st).
Proof.
  intros [HbyNode HbyCanonical Hinterfaces] Hinfo. split.
  - intros id x. unfold record at 1. simpl.
    destruct (decide (node_id (node info) = id)) as [<-|Hne].
    + rewrite lookup_insert_eq. intros [= <-].
      split_and!; [done|done|apply record_Bucketed_new|apply record_Listed_new].
    + rewrite lookup_insert_ne by done. intros Hx.
      destruct (HbyNode id x Hx) as (? & ? & ? & ?).
      split_and!; [done|done|by apply record_Bucketed|by apply record_Listed].
  - intros key bucket x Hb Hx. unfold record at 1 in Hb. simpl in Hb.
    destruct (shape info) as [key0 props0|] eqn:Hshape.
    + destruct (pushBucket_inv _ _ _ _ _ _ Hb Hx) as [[-> ->]|(old & Hold & Hxold)].
      * split_and!; [eauto|done|apply record_Listed_new].
      * destruct (HbyCanonical key old x Hold Hxold) as (? & ? & ?).
        split_and!; [done|done|by apply record_Listed].
    + destruct (HbyCanonical key bucket x Hb Hx) as (? & ? & ?).
      split_and!; [done|done|by apply record_Listed].
  - intros x. unfold record at 1. simpl.
    destruct (isInterfaceDeclaration (node info)) eqn:Hkind.
    + intros [Hx|Hx%list_elem_of_singleton]%elem_of_app.
      * destruct (Hinterfaces x Hx) as (? & ? & ?).
        split_and!; [done|done|by apply record_Bucketed].
      * subst x. split_and!; [done|done|apply record_Bucketed_new].
    + intros Hx. destruct (Hinterfaces x Hx) as (? & ? & ?).
      split_and!; [done|done|by apply record_Bucketed].
Qed.

Lemma visitNode_WellIndexed sf n :
  shouldSkipSourceFile host sf = false ->
  forall st, WellIndexed host st -> WellIndexed host (visitNode host sf n st).
Proof.
  intros Hsf. induction n as [id kind nm p children IH] using Node_rect'. intros st Hst.
  assert (forall st, WellIndexed host st ->
            WellIndexed host
              ((fix forEachChild (cs : list Node) (st : ProgramState) : ProgramState :=
                  match cs with
                  | [] => st
                  | c :: rest => forEachChild rest (visitNode host sf c st)
                  end) children st)) as Hchildren.
  { clear st Hst. induction IH as [|c children Hc _ IHchildren]; intros st Hst; [done|].
    apply IHchildren. by apply Hc. }
  simpl.
  destruct (isInterfaceDeclaration _ || isTypeAliasDeclaration _) eqn:Hkind;
    [|by apply Hchildren].
  destruct nm as [nm|]; [|done].
  destruct (getSymbolAtLocation (checker st) nm) as [sym|] eqn:Hsym; [|done].
  destruct (describeDeclaration host (checker st) sym noOptions) as [shape|] eqn:Hshape;
    [|done].
  apply Hchildren, record_WellIndexed; [done|].
  split_and!; [done|done|by exists nm|done].
Qed.

Lemma visitSourceFile_WellIndexed st sf :
  WellIndexed host st -> WellIndexed host (visitSourceFile host st sf).
Proof.
  unfold visitSourceFile. destruct (shouldSkipSourceFile host sf) eqn:Hsf; [done|].
  revert st. induction (statements sf) as [|n ns IH]; intros st Hst; simpl; [done|].
  apply IH. by apply visitNode_WellIndexed.
Qed.

Lemma walk_WellIndexed files :
  forall st, WellIndexed host st -> WellIndexed host (foldl (visitSourceFile host) st files).
Proof.
  induction files as [|sf files IH]; intros st Hst; simpl; [done|].
  apply IH. by apply visitSourceFile_WellIndexed.
Qed.

(** Sorting the buckets and the candidate list moves no record in or
    out. *)
Lemma sorted_WellIndexed st :
  WellIndexed host st ->
  WellIndexed host
    {| byCanonical := Js.sort (compareDeclarationInfo host) <$> byCanonical st;
       byNode := byNode st;
       interfaceInfos := Js.sort (compareDeclarationInfo host) (interfaceInfos st);
       checker := checker st |}.
Proof.
  intros [HbyNode HbyCanonical Hinterfaces].
  assert (forall x, Bucketed st x ->
            Bucketed {| byCanonical := Js.sort (compareDeclarationInfo host) <$> byCanonical st;
                        byNode := byNode st;
                        interfaceInfos := Js.sort (compareDeclarationInfo host) (interfaceInfos st);
                        checker := checker st |} x) as Hbucketed.
  { intros x Hx key props Hshape. destruct (Hx key props Hshape) as (bucket & Hb & Hin).
    exists (Js.sort (compareDeclarationInfo host) bucket). simpl.
    rewrite lookup_fmap, Hb. split; [done|]. by apply elem_of_sort. }
  assert (forall x, Listed st x ->
            Listed {| byCanonical := Js.sort (compareDeclarationInfo host) <$> byCanonical st;
                      byNode := byNode st;
                      interfaceInfos := Js.sort (compareDeclarationInfo host) (interfaceInfos st);
                      checker := checker st |} x) as Hlisted.
  { intros x Hx Hkind. simpl. apply elem_of_sort. by apply Hx. }
  split; simpl.
  - intros id x Hx. destruct (HbyNode id x Hx) as (? & ? & ? & ?). auto.
  - intros key bucket x. rewrite lookup_fmap.
    destruct (byCanonical st !! key) as [old|] eqn:Hold; simpl; [|done].
    intros [= <-] Hx%elem_of_sort.
    destruct (HbyCanonical key old x Hold Hx) as (? & ? & ?). auto.
  - intros x Hx%elem_of_sort. destruct (Hinterfaces x Hx) as (? & ? & ?). auto.
Qed.

Lemma buildProgramState_WellIndexed program :
  WellIndexed host (buildProgramState host program).
Proof.
  unfold buildProgramState. apply sorted_WellIndexed, walk_WellIndexed.
  split; simpl.
  - intros id x. by rewrite lookup_empty.
  - intros key bucket x. by rewrite lookup_empty.
  - by intros x Hx%elem_of_nil.
Qed.

Lemma buildProgramState_checker program :
  checker (buildProgramState host program) = getTypeChecker program.
Proof.
  unfold buildProgramState. simpl.
  assert (forall files st, checker (foldl (visitSourceFile host) st files) = checker st)
    as Hwalk; [|by rewrite Hwalk].
  intros files st.
  apply (walk_preserves host (fun st' => checker st' = checker st)); [|done].
  by intros info st' <-.
Qed.
End IndexInvariantFacts.

Section DescribeFacts.
Context (host : Host) (chk : TypeChecker).

Lemma describeDeclaration_Some symbol o shape :
  describeDeclaration host chk symbol o = Some shape ->
  exists decl rest,
    getDeclarations chk symbol = Some (decl :: rest)
    /\ let type := getTypeAtLocation chk decl in
       let depth := default 8 (depthLimit o) in
       let alias := default true (normalizeAlias o) in
       let key := canonicalizeType host chk type (internalOptions depth alias decl) in
       let props := collectProperties host chk type (internalOptions (depth - 1) alias decl) in
       shape = (if nonEmpty props then ObjectShape key props else OtherShape key).
Proof.
  unfold describeDeclaration.
  destruct (getDeclarations chk symbol) as [[|decl rest]|]; try done.
  intros Hshape. exists decl, rest. split; [done|]. simpl.
  destruct (nonEmpty _); by injection Hshape as <-.
Qed.

Lemma describeDeclaration_object symbol o key props :
  describeDeclaration host chk symbol o = Some (ObjectShape key props) -> props <> [].
Proof.
  intros (decl & rest & _ & Hshape)%describeDeclaration_Some. simpl in Hshape.
  destruct (nonEmpty _) eqn:Hne; [|done]. injection Hshape as -> ->.
  by apply nonEmpty_spec.
Qed.
End DescribeFacts.

(** X1.  [getProgramState] builds the state of a program once: when the
    cache has no entry for the program the state is built and stored under
    the program, the other entries are left alone, and asking again with
    the cache handed back returns the very same state and cache. *)
Theorem getProgramState_memoized host cache program :
  cache !! program_id program = None ->
  let result := getProgramState host cache program in
  result.1 = buildProgramState host program
  /\ result.2 !! program_id program = Some (buildProgramState host program)
  /\ (forall other, other <> program_id program -> result.2 !! other = cache !! other)
  /\ getProgramState host result.2 program = result.
Proof.
  intros Hmiss. unfold getProgramState. rewrite Hmiss. simpl.
  rewrite lookup_insert_eq. split_and!; [done|done| |done].
  intros other Hother. by rewrite lookup_insert_ne.
Qed.

Lemma getProgramState_memoized_witness :
  (∅ : gmap N ProgramState) !! program_id Inheritance.program = None
  /\ getProgramState Examples.byteHost
       (getProgramState Examples.byteHost ∅ Inheritance.program).2 Inheritance.program
     = getProgramState Examples.byteHost ∅ Inheritance.program.
Proof.
  split; [reflexivity|].
  exact (proj2 (proj2 (proj2 (getProgramState_memoized Examples.byteHost ∅
                                Inheritance.program eq_refl)))).
Defined.

(** X2.  In a state built by [getProgramState], every record of the bucket
    of a key has an object shape whose canonical key is that key and whose
    property list is not empty. *)
Theorem buckets_group_by_canonical_key host program key bucket info :
  byCanonical (buildProgramState host program) !! key = Some bucket ->
  info ∈ bucket ->
  exists props, shape info = ObjectShape key props /\ props <> [].
Proof.
  intros Hbucket Hin.
  destruct (byCanonical_ok host _ (buildProgramState_WellIndexed host program)
              key bucket info Hbucket Hin) as ((props & Hshape) & Hdescribed & _).
  exists props. split; [done|].
  destruct Hdescribed as (_ & _ & _ & Hdescribe). rewrite Hshape in Hdescribe.
  by eapply describeDeclaration_object.
Qed.

Lemma buckets_group_by_canonical_key_witness :
  byCanonical (buildProgramState Examples.byteHost Inheritance.program)
    !! "object{a:string,b:number}" = Some [Inheritance.derivedInfo; Inheritance.childInfo]
  /\ exists props,
       shape Inheritance.childInfo = ObjectShape "object{a:string,b:number}" props
       /\ props <> [].
Proof.
  assert (byCanonical (buildProgramState Examples.byteHost Inheritance.program)
            !! "object{a:string,b:number}"
          = Some [Inheritance.derivedInfo; Inheritance.childInfo]) as Hbucket
    by (vm_compute; reflexivity).
  split; [exact Hbucket|].
  apply (buckets_group_by_canonical_key Examples.byteHost Inheritance.program
           _ _ Inheritance.childInfo Hbucket).
  apply elem_of_cons. right. apply elem_of_cons. left. reflexivity.
Defined.

(** X3.  Every record in a state built by [getProgramState], in whichever
    of the three containers it is, is the record of an interface or alias
    declaration in a file that is not skipped (no declaration file, no
    file under [/node_modules/]), the name of the node resolves to the
    symbol of the record, and the shape is what [describeDeclaration]
    returns for that symbol with the default options. *)
Theorem indexed_records_are_described host program info :
  (exists id, byNode (buildProgramState host program) !! id = Some info)
  \/ (exists key bucket,
        byCanonical (buildProgramState host program) !! key = Some bucket /\ info ∈ bucket)
  \/ info ∈ interfaceInfos (buildProgramState host program) ->
  Described host (getTypeChecker program) info.
Proof.
  pose proof (buildProgramState_WellIndexed host program) as [HbyNode HbyCanonical Hinterfaces].
  rewrite buildProgramState_checker in HbyNode, HbyCanonical, Hinterfaces.
  intros [(id & Hid)|[(key & bucket & Hbucket & Hin)|Hin]].
  - by destruct (HbyNode id info Hid) as (_ & ? & _).
  - by destruct (HbyCanonical key bucket info Hbucket Hin) as (_ & ? & _).
  - by destruct (Hinterfaces info Hin) as (_ & ? & _).
Qed.

Lemma indexed_records_are_described_witness :
  map symbol (interfaceInfos (buildProgramState Examples.byteHost Inheritance.program))
  = [201%N; 202%N; 203%N]
  /\ Described Examples.byteHost Inheritance.checker Inheritance.baseInfo.
Proof.
  split; [reflexivity|].
  apply (indexed_records_are_described Examples.byteHost Inheritance.program).
  right. right.
  assert (interfaceInfos (buildProgramState Examples.byteHost Inheritance.program)
          = [Inheritance.baseInfo; Inheritance.derivedInfo; Inheritance.childInfo]) as ->
    by (vm_compute; reflexivity).
  apply elem_of_cons. left. reflexivity.
Defined.

(** X4.  The three containers of a built state agree with each other: a
    record stored in [byNode] under a node is the record of that node; a
    record in [byNode] or in [interfaceInfos] that has an object shape is in
    the bucket of its canonical key; a record in [byNode] or in a bucket
    that belongs to an interface declaration is in [interfaceInfos]. *)
Theorem index_containers_agree host program :
  let state := buildProgramState host program in
  (forall id info, byNode state !! id = Some info ->
     node_id (node info) = id /\ Bucketed state info /\ Listed state info)
  /\ (forall key bucket info, byCanonical state !! key = Some bucket -> info ∈ bucket ->
        Listed state info)
  /\ (forall info, info ∈ interfaceInfos state -> Bucketed state info).
Proof.
  pose proof (buildProgramState_WellIndexed host program) as [HbyNode HbyCanonical Hinterfaces].
  split_and!.
  - intros id info Hid. destruct (HbyNode id info Hid) as (? & _ & ? & ?). done.
  - intros key bucket info Hbucket Hin.
    by destruct (HbyCanonical key bucket info Hbucket Hin) as (_ & _ & ?).
  - intros info Hin. by destruct (Hinterfaces info Hin) as (_ & _ & ?).
Qed.

Lemma index_containers_agree_witness :
  byNode (buildProgramState Examples.byteHost Inheritance.program) !! 1203%N
  = Some Inheritance.childInfo
  /\ Inheritance.childInfo ∈ interfaceInfos (buildProgramState Examples.byteHost Inheritance.program).
Proof.
  assert (byNode (buildProgramState Examples.byteHost Inheritance.program) !! 1203%N
          = Some Inheritance.childInfo) as Hid by (vm_compute; reflexivity).
  split; [exact Hid|].
  destruct (index_containers_agree Examples.byteHost Inheritance.program) as (HbyNode & _ & _).
  destruct (HbyNode _ _ Hid) as (_ & _ & Hlisted). apply Hlisted. reflexivity.
Defined.

(** ** [uniqueBySymbol] and [findIndex] *)

Section UniqueFacts.

Lemma uniqueBySymbolFrom_elem seen infos x :
  x ∈ uniqueBySymbolFrom seen infos -> x ∈ infos /\ symbol x ∉ seen.
Proof.
  revert seen. induction infos as [|info infos IH]; intros seen; simpl.
  - by intros ?%elem_of_nil.
  - destruct (decide (symbol info ∈ seen)) as [Hseen|Hnew].
    + intros Hx. destruct (IH _ Hx) as [Hin Hnot]. split; [by right|done].
    + intros [->|Hx]%elem_of_cons; [split; [by left|done]|].
      destruct (IH _ Hx) as [Hin Hnot]. split; [by right|].
      intros Hseen. apply Hnot. apply elem_of_union. by right.
Qed.

Lemma uniqueBySymbolFrom_NoDup seen infos :
  NoDup (map symbol (uniqueBySymbolFrom seen infos)).
Proof.
  revert seen. induction infos as [|info infos IH]; intros seen; simpl; [constructor|].
  destruct (decide (symbol info ∈ seen)); [apply IH|].
  simpl. constructor; [|apply IH].
  intros (x & Hsym & Hx)%list_elem_of_fmap.
  apply uniqueBySymbolFrom_elem in Hx as [_ Hx]. set_solver.
Qed.

Lemma uniqueBySymbolFrom_sublist seen infos :
  sublist (uniqueBySymbolFrom seen infos) infos.
Proof.
  revert seen. induction infos as [|info infos IH]; intros seen; simpl; [done|].
  destruct (decide (symbol info ∈ seen)); [by apply sublist_cons|by apply sublist_skip].
Qed.

Lemma uniqueBySymbolFrom_covers seen infos x :
  x ∈ infos -> symbol x ∉ seen ->
  exists y, y ∈ uniqueBySymbolFrom seen infos /\ symbol y = symbol x.
Proof.
  revert seen. induction infos as [|info infos IH]; intros seen; simpl.
  - by intros ?%elem_of_nil.
  - intros Hx Hseen. destruct (decide (symbol info ∈ seen)) as [Hin|Hnew].
    + apply elem_of_cons in Hx as [->|Hx]; [done|]. by apply IH.
    + destruct (decide (symbol x = symbol info)) as [Heq|Hne].
      * exists info. split; [by left|done].
      * apply elem_of_cons in Hx as [->|Hx]; [done|].
        destruct (IH ({[symbol info]} ∪ seen) Hx) as (y & Hy & Hsym); [set_solver|].
        exists y. split; [by right|done].
Qed.

Lemma uniqueBySymbolFrom_id seen infos :
  NoDup (map symbol infos) -> (forall x, x ∈ infos -> symbol x ∉ seen) ->
  uniqueBySymbolFrom seen infos = infos.
Proof.
  revert seen. induction infos as [|info infos IH]; intros seen; simpl; [done|].
  intros [Hhead Htail]%NoDup_cons Hseen.
  destruct (decide (symbol info ∈ seen)) as [Hin|_].
  { destruct (Hseen info); [by left|done]. }
  f_equal. apply IH; [done|]. intros x Hx.
  assert (symbol x <> symbol info).
  { intros Heq. apply Hhead. rewrite <- Heq. by apply (list_elem_of_fmap_2 symbol). }
  assert (symbol x ∉ seen) by (apply Hseen; by right). set_solver.
Qed.

Lemma findIndex_range {A : Type} (p : A -> bool) l :
  -1 <= findIndex p l < Z.of_nat (length l).
Proof.
  induction l as [|x l IH]; simpl; [lia|].
  destruct (p x); [lia|]. destruct (Z.ltb_spec (findIndex p l) 0) as [Hneg|Hpos]; lia.
Qed.

Lemma findIndex_none {A : Type} (p : A -> bool) l :
  findIndex p l = -1 <-> forall x, x ∈ l -> p x = false.
Proof.
  induction l as [|x l IH]; simpl.
  - split; [by intros _ x ?%elem_of_nil|done].
  - pose proof (findIndex_range p l) as Hrange. destruct (p x) eqn:Hx.
    + split; [done|]. intros Hall. rewrite Hall in Hx; [done|by left].
    + destruct (Z.ltb_spec (findIndex p l) 0) as [Hneg|Hpos].
      * split; [|done]. intros _ y [->|Hy]%elem_of_cons; [done|].
        apply IH; [lia|done].
      * split; [lia|]. intros Hall. assert (findIndex p l = -1) as Hl; [|lia].
        apply IH. intros y Hy. apply Hall. by right.
Qed.

Lemma findIndex_found {A : Type} (p : A -> bool) l :
  0 <= findIndex p l -> exists y, y ∈ l /\ p y = true.
Proof.
  induction l as [|x l IH]; simpl; [lia|].
  destruct (p x) eqn:Hx.
  - intros _. exists x. split; [by left|done].
  - destruct (Z.ltb_spec (findIndex p l) 0) as [Hneg|Hpos]; [lia|]. intros _.
    destruct (IH Hpos) as (y & Hy & Hpy). exists y. split; [by right|done].
Qed.

(** The index is positive exactly when the first element fails the test
    and a later one passes it. *)
Lemma findIndex_positive {A : Type} (p : A -> bool) l :
  0 < findIndex p l <->
  exists x rest, l = x :: rest /\ p x = false /\ exists y, y ∈ rest /\ p y = true.
Proof.
  destruct l as [|x rest]; simpl.
  - split; [lia|]. by intros (? & ? & ? & _).
  - pose proof (findIndex_range p rest) as Hrange.
    pose proof (findIndex_none p rest) as Hnone.
    destruct (p x) eqn:Hx.
    + split; [lia|]. intros (x' & rest' & [= <- <-] & Hfalse & _). congruence.
    + destruct (Z.ltb_spec (findIndex p rest) 0) as [Hneg|Hpos].
      * split; [lia|]. intros (x' & rest' & [= <- <-] & _ & y & Hy & Hpy).
        rewrite (proj1 Hnone) in Hpy; [done|lia|done].
      * split; [|lia]. intros _. exists x, rest. split_and!; [done..|].
        by apply findIndex_found.
Qed.
End UniqueFacts.



(** ** [findBestInterfaceBase] without assumptions on the collation *)

Section BaseFinderFree.
Context (host : Host).

Lemma considerCandidate_fails target best candidate :
  passes target candidate = false ->
  considerCandidate host target (propertiesOf target) best candidate = best.
Proof. intros Hfail. by rewrite considerCandidate_passes, Hfail. Qed.

Lemma considerCandidate_choice target best candidate :
  passes target candidate = true ->
  considerCandidate host target (propertiesOf target) best candidate = best
  \/ considerCandidate host target (propertiesOf target) best candidate = Some candidate.
Proof.
  intros Hpass. rewrite considerCandidate_passes, Hpass.
  destruct best as [b|]; [|by right].
  destruct (isObjectShape (shape b)); [|by right].
  destruct (length (propertiesOf b) <? length (propertiesOf candidate))%nat; [by right|].
  destruct (_ && _); [by right|by left].
Qed.

Lemma considerCandidate_is_Some target best candidate :
  is_Some best ->
  is_Some (considerCandidate host target (propertiesOf target) best candidate).
Proof.
  intros Hbest. destruct (passes target candidate) eqn:Hpass.
  - destruct (considerCandidate_choice target best candidate Hpass) as [->| ->]; done.
  - by rewrite considerCandidate_fails.
Qed.

Lemma foldl_considerCandidate_filter target candidates best :
  foldl (considerCandidate host target (propertiesOf target)) best candidates
  = foldl (considerCandidate host target (propertiesOf target)) best
      (filter (fun c => passes target c = true) candidates).
Proof.
  revert best. induction candidates as [|c candidates IH]; intros best; [done|].
  simpl. destruct (passes target c) eqn:Hpass.
  - rewrite filter_cons_True by done. simpl. apply IH.
  - rewrite filter_cons_False by congruence. rewrite considerCandidate_fails by done.
    apply IH.
Qed.

Lemma foldl_considerCandidate_member target candidates best b :
  foldl (considerCandidate host target (propertiesOf target)) best candidates = Some b ->
  best = Some b \/ (b ∈ candidates /\ passes target b = true).
Proof.
  revert best. induction candidates as [|c candidates IH]; intros best; simpl; [by left|].
  intros [Hstep|[Hin Hpass]]%IH; [|right; split; [by right|done]].
  destruct (passes target c) eqn:Hpass.
  - destruct (considerCandidate_choice target best c Hpass) as [Heq|Heq];
      rewrite Heq in Hstep; [by left|].
    injection Hstep as <-. right. split; [by left|done].
  - rewrite considerCandidate_fails in Hstep by done. by left.
Qed.

Lemma foldl_considerCandidate_is_Some target candidates best :
  is_Some best \/ (exists c, c ∈ candidates /\ passes target c = true) ->
  is_Some (foldl (considerCandidate host target (propertiesOf target)) best candidates).
Proof.
  revert best. induction candidates as [|c candidates IH]; intros best; simpl.
  - intros [?|(c & Hc%elem_of_nil & _)]; done.
  - intros [Hbest|(x & [->|Hx]%elem_of_cons & Hpass)]; apply IH.
    + left. by apply considerCandidate_is_Some.
    + left. rewrite considerCandidate_passes, Hpass.
      destruct best as [b|]; [|done]. by repeat case_match.
    + right. by exists x.
Qed.

Lemma findBestInterfaceBase_fold target candidates :
  propertiesOf target <> [] ->
  findBestInterfaceBase host target candidates
  = foldl (considerCandidate host target (propertiesOf target)) None candidates.
Proof.
  unfold findBestInterfaceBase, propertiesOf.
  destruct (shape target) as [key [|p props]|]; done.
Qed.

Lemma Qualifies_target target c : Qualifies target c -> propertiesOf target <> [].
Proof. intros (_ & _ & _ & Hlt & _) Hnil. rewrite Hnil in Hlt. simpl in Hlt. lia. Qed.

Lemma findBestInterfaceBase_member target candidates b :
  findBestInterfaceBase host target candidates = Some b ->
  b ∈ candidates /\ Qualifies target b.
Proof.
  intros Hbest.
  assert (propertiesOf target <> []) as Htarget.
  { intros Hnil. revert Hbest. unfold findBestInterfaceBase, propertiesOf in *.
    destruct (shape target) as [key props|]; [|done]. by rewrite Hnil. }
  rewrite findBestInterfaceBase_fold in Hbest by done.
  apply foldl_considerCandidate_member in Hbest as [?|[Hin Hpass]]; [done|].
  split; [done|]. by apply passes_spec.
Qed.

Lemma findBestInterfaceBase_is_Some target candidates :
  is_Some (findBestInterfaceBase host target candidates)
  <-> exists c, c ∈ candidates /\ Qualifies target c.
Proof.
  split.
  - intros [b Hb]. exists b. by apply findBestInterfaceBase_member.
  - intros (c & Hc & Hq). rewrite findBestInterfaceBase_fold by by eapply Qualifies_target.
    apply foldl_considerCandidate_is_Some. right. exists c. split; [done|].
    by apply passes_spec.
Qed.
End BaseFinderFree.

(** X6.  Whatever the collation of the runtime is, [findBestInterfaceBase]
    looks only at the candidates that qualify: dropping all the others from
    the list does not change the result; a result is one of the candidates
    and qualifies; and there is a result exactly when some candidate
    qualifies. *)
Theorem findBestInterfaceBase_skips_unqualified host target candidates :
  (forall c, passes target c = true <-> Qualifies target c)
  /\ findBestInterfaceBase host target candidates
     = findBestInterfaceBase host target
         (filter (fun c => passes target c = true) candidates)
  /\ (forall b, findBestInterfaceBase host target candidates = Some b ->
        b ∈ candidates /\ Qualifies target b)
  /\ (is_Some (findBestInterfaceBase host target candidates)
      <-> exists c, c ∈ candidates /\ Qualifies target c).
Proof.
  split_and!.
  - apply passes_spec.
  - destruct (decide (propertiesOf target = [])) as [Hnil|Hprops].
    + unfold findBestInterfaceBase, propertiesOf in *.
      destruct (shape target) as [key props|]; [|done]. by rewrite Hnil.
    + rewrite !findBestInterfaceBase_fold by done.
      apply foldl_considerCandidate_filter.
  - apply findBestInterfaceBase_member.
  - apply findBestInterfaceBase_is_Some.
Qed.

Lemma findBestInterfaceBase_skips_unqualified_witness :
  filter (fun c => passes Examples.derived c = true)
    [Examples.baseA; Examples.baseAB; Examples.baseBC; Examples.baseAZ; Examples.alias;
     Examples.derived]
  = [Examples.baseA; Examples.baseAB; Examples.baseBC]
  /\ findBestInterfaceBase Examples.collatingHost Examples.derived
       [Examples.baseA; Examples.baseAB; Examples.baseBC; Examples.baseAZ; Examples.alias;
        Examples.derived]
     = findBestInterfaceBase Examples.collatingHost Examples.derived
         [Examples.baseA; Examples.baseAB; Examples.baseBC].
Proof.
  assert (filter (fun c => passes Examples.derived c = true)
            [Examples.baseA; Examples.baseAB; Examples.baseBC; Examples.baseAZ;
             Examples.alias; Examples.derived]
          = [Examples.baseA; Examples.baseAB; Examples.baseBC]) as Hfilter
    by (vm_compute; reflexivity).
  split; [exact Hfilter|]. rewrite <- Hfilter.
  apply (findBestInterfaceBase_skips_unqualified Examples.collatingHost Examples.derived).
Defined.

(** ** The rules on a built state *)

Section RuleFacts.
Context (host : Host) (paths : PathHost).

Lemma infoOf_byNode state nodeMap esNode info :
  infoOf state nodeMap esNode = Some info ->
  exists id, byNode state !! id = Some info.
Proof. unfold infoOf. destruct (nodeMap esNode) as [id|]; [eauto|done]. Qed.

(** On a state whose containers agree, the two tests of [reportDuplicate]
    on the bucket come down to one: is the first record of the bucket a
    record of another symbol? *)
Lemma reportDuplicate_original state nodeMap esNode :
  WellIndexed host state ->
  reportDuplicate host paths state nodeMap esNode
  = match infoOf state nodeMap esNode with
    | Some info =>
        match shape info with
        | ObjectShape key _ =>
            match original state key with
            | Some first =>
                if (symbol first =? symbol info)%N then None
                else Some (duplicateDeclaration
                             (if isInterfaceDeclaration (node info) then "interface" else "type")
                             (getName (checker state) (symbol first))
                             (toRelativePath host paths (fileName (sourceFile first))))
            | None => None
            end
        | OtherShape _ => None
        end
    | None => None
    end.
Proof.
  intros Hstate. unfold reportDuplicate, original.
  destruct (infoOf state nodeMap esNode) as [info|] eqn:Hinfo; [|done].
  destruct (shape info) as [key props|] eqn:Hshape; [|done].
  destruct (infoOf_byNode _ _ _ _ Hinfo) as (id & Hid).
  destruct (byNode_ok host state Hstate id info Hid) as (_ & _ & Hbucketed & _).
  destruct (Hbucketed key props Hshape) as (bucket & Hbucket & Hin).
  rewrite Hbucket. simpl.
  pose proof (uniqueBySymbol_head bucket) as Hhead.
  destruct (uniqueBySymbolFrom_covers ∅ bucket info Hin) as (y & Hy & Hsym); [set_solver|].
  fold (uniqueBySymbol bucket) in Hy.
  remember (uniqueBySymbol bucket) as unique eqn:Hunique.
  destruct bucket as [|first rest]; [by apply elem_of_nil in Hin|].
  simpl in Hhead. rewrite Hhead.
  pose proof (findIndex_range (fun candidate => (symbol candidate =? symbol info)%N) unique)
    as Hrange.
  destruct (N.eqb_spec (symbol first) (symbol info)) as [Hsame|Hother].
  - assert (findIndex (fun candidate => (symbol candidate =? symbol info)%N) unique = 0)
      as ->.
    { destruct unique as [|x tl]; [done|]. injection Hhead as ->. simpl.
      by rewrite Hsame, N.eqb_refl. }
    by destruct (length unique <=? 1)%nat.
  - assert (0 < findIndex (fun candidate => (symbol candidate =? symbol info)%N) unique)
      as Hpos.
    { apply findIndex_positive. destruct unique as [|x tl]; [done|].
      injection Hhead as ->. exists first, tl. split_and!; [done| |].
      - by apply N.eqb_neq.
      - apply elem_of_cons in Hy as [->|Hy]; [done|].
        exists y. split; [done|]. by apply N.eqb_eq. }
    destruct (Nat.leb_spec (length unique) 1); [lia|].
    by destruct (Z.leb_spec (findIndex (fun candidate => (symbol candidate =? symbol info)%N)
                               unique) 0); [lia|].
Qed.

Lemma original_in_bucket state key first :
  original state key = Some first ->
  exists bucket, byCanonical state !! key = Some bucket /\ head bucket = Some first.
Proof.
  unfold original. rewrite uniqueBySymbol_head.
  destruct (byCanonical state !! key) as [bucket|]; [eauto|done].
Qed.
End RuleFacts.

Lemma reportDuplicate_DuplicateOf host paths state nodeMap esNode r :
  WellIndexed host state ->
  reportDuplicate host paths state nodeMap esNode = Some r
  <-> DuplicateOf host paths state nodeMap esNode r.
Proof.
  intros Hstate. rewrite reportDuplicate_original by done. unfold DuplicateOf. split.
  - destruct (infoOf state nodeMap esNode) as [info|]; [|done].
    destruct (shape info) as [key props|] eqn:Hshape; [|done].
    destruct (original state key) as [first|] eqn:Horiginal; [|done].
    destruct (N.eqb_spec (symbol first) (symbol info)); [done|].
    intros [= <-]. by exists info, key, props, first.
  - intros (info & key & props & first & -> & -> & -> & Hother & ->).
    by destruct (N.eqb_spec (symbol first) (symbol info)).
Qed.

(** X7.  The rule [no-duplicate-type-declaration], created for a program
    that is not in the cache yet, has no listener for [Program]; it
    reports an interface declaration exactly when the declaration has no
    [extends] clause, its record has an object shape and the original of
    its bucket (the first record of the bucket of its canonical key)
    belongs to another symbol, and a type alias exactly when it is a type
    literal with such a record; the report names that original.  The
    original is the head of the very bucket that holds the record of the
    declaration and has the same canonical key.  When [localeCompare] is a
    consistent comparator the path of the original is not after that of
    the declaration in the collation, and if no two different paths in the
    bucket collate as equal the original is at or before the declaration
    in declaration order. *)
Theorem duplicate_is_reported_against_original host paths cache program nodeMap :
  cache !! program_id program = None ->
  let services := {| services_program := Some program;
                     services_esTreeNodeToTSNodeMap := Some nodeMap |} in
  let listeners := (noDuplicateTypeDeclaration_create host paths cache (Some services)).1 in
  let state := buildProgramState host program in
  onProgram listeners = None
  /\ (forall decl r, onInterface listeners decl = Some r <->
        hasLength (interface_extends decl) = false
        /\ DuplicateOf host paths state nodeMap (interface_node decl) r)
  /\ (forall alias r, onTypeAlias listeners alias = Some r <->
        alias_typeAnnotation alias = TSTypeLiteral
        /\ DuplicateOf host paths state nodeMap (alias_node alias) r)
  /\ (forall esNode info key props first,
        infoOf state nodeMap esNode = Some info ->
        shape info = ObjectShape key props ->
        original state key = Some first ->
        exists bucket,
          byCanonical state !! key = Some bucket
          /\ head bucket = Some first /\ info ∈ bucket
          /\ (exists props', shape first = ObjectShape key props')
          /\ (Collation host ->
              PathOrder host first info
              /\ (Separated host bucket -> DeclarationOrder host first info))).
Proof.
  intros Hmiss services listeners state.
  pose proof (buildProgramState_WellIndexed host program) as Hstate.
  assert (listeners = {| onProgram := None;
                         onInterface := handleInterface host paths state nodeMap;
                         onTypeAlias := handleTypeAlias host paths state nodeMap |}) as ->.
  { subst listeners. unfold noDuplicateTypeDeclaration_create, getProgramState. simpl.
    by rewrite Hmiss. }
  pose proof (fun coll => buildProgramState_ordered host program coll) as Hordered.
  fold state in Hstate, Hordered. clearbody state.
  split_and!; simpl.
  - done.
  - intros decl r. unfold handleInterface.
    rewrite <- reportDuplicate_DuplicateOf by done.
    destruct (hasLength (interface_extends decl)); [|tauto].
    split; [done|]. by intros [? _].
  - intros alias r. unfold handleTypeAlias.
    rewrite <- reportDuplicate_DuplicateOf by done.
    destruct (alias_typeAnnotation alias); [tauto|].
    split; [done|]. by intros [? _].
  - intros esNode info key props first Hinfo Hshape Horiginal.
    destruct (original_in_bucket _ _ _ Horiginal) as (bucket & Hbucket & Hhead).
    destruct (infoOf_byNode _ _ _ _ Hinfo) as (id & Hid).
    destruct (byNode_ok host state Hstate id info Hid) as (_ & _ & Hbucketed & _).
    destruct (Hbucketed key props Hshape) as (bucket' & Hbucket' & Hin).
    rewrite Hbucket in Hbucket'. injection Hbucket' as <-.
    exists bucket. split_and!; [done..| |].
    + destruct (byCanonical_ok host state Hstate key bucket first Hbucket) as (? & _); [|done].
      destruct bucket; [done|]. injection Hhead as ->. by left.
    + intros coll. destruct (proj1 (Hordered coll) key bucket Hbucket) as [Hpaths Hdecls].
      split; [by eapply head_PathOrder|].
      intros Hsep. eapply head_DeclarationOrder; [by apply Hdecls|done..].
Qed.

Lemma duplicate_is_reported_against_original_witness :
  onInterface
    (noDuplicateTypeDeclaration_create Examples.byteHost Inheritance.paths ∅
       (Some {| services_program := Some Examples.userProgram;
                services_esTreeNodeToTSNodeMap := Some (fun n => Some n) |})).1
    (Inheritance.interfaceNode 222 None)
  = Some (duplicateDeclaration "interface" "User1" "File1")
  /\ DuplicateOf Examples.byteHost Inheritance.paths
       (buildProgramState Examples.byteHost Examples.userProgram) (fun n => Some n) 1222%N
       (duplicateDeclaration "interface" "User1" "File1")
  /\ DeclarationOrder Examples.byteHost Examples.user1 Examples.user2.
Proof.
  assert (onInterface
            (noDuplicateTypeDeclaration_create Examples.byteHost Inheritance.paths ∅
               (Some {| services_program := Some Examples.userProgram;
                        services_esTreeNodeToTSNodeMap := Some (fun n => Some n) |})).1
            (Inheritance.interfaceNode 222 None)
          = Some (duplicateDeclaration "interface" "User1" "File1")) as Hreport
    by (vm_compute; reflexivity).
  destruct (duplicate_is_reported_against_original Examples.byteHost
              Inheritance.paths ∅ Examples.userProgram (fun n => Some n)
              (lookup_empty _))
    as (_ & Hinterface & _ & Horiginal).
  split; [exact Hreport|]. split.
  - exact (proj2 (proj1 (Hinterface (Inheritance.interfaceNode 222 None) _) Hreport)).
  - destruct (Horiginal 1222%N Examples.user2 "object{id:number,name:string}"
                [Examples.fact "id" "number"; Examples.fact "name" "string"] Examples.user1)
      as (bucket & _ & _ & _ & _ & Horder); try (vm_compute; reflexivity).
    apply (Horder byteHost_collation).
    intros x y _ _. apply defaultCompare_eq.
Defined.

(** X8.  The rule [prefer-interface-extension], created for a program that
    is not in the cache yet, reports an interface only if the interface has
    no [extends] clause and a non-empty body, and only against a base that
    is the record of an interface declaration in the candidate list and
    qualifies as a structural base of the reported interface.  Conversely
    an interface that passes the syntactic tests and has a record is
    reported as soon as some candidate qualifies. *)
Theorem preferred_base_qualifies host cache program nodeMap decl :
  cache !! program_id program = None ->
  let services := {| services_program := Some program;
                     services_esTreeNodeToTSNodeMap := Some nodeMap |} in
  let listeners := (preferInterfaceExtension_create host cache (Some services)).1 in
  let state := buildProgramState host program in
  (forall r, onInterface listeners decl = Some r ->
     exists info base,
       is_Some (interface_id decl)
       /\ hasLength (interface_extends decl) = false
       /\ interface_body decl <> []
       /\ infoOf state nodeMap (interface_node decl) = Some info
       /\ base ∈ interfaceInfos state
       /\ isInterfaceDeclaration (node base) = true
       /\ Qualifies info base
       /\ r = preferExtension (getName (getTypeChecker program) (symbol info))
                              (getName (getTypeChecker program) (symbol base)))
  /\ (forall info,
        is_Some (interface_id decl) ->
        hasLength (interface_extends decl) = false ->
        interface_body decl <> [] ->
        infoOf state nodeMap (interface_node decl) = Some info ->
        (exists base, base ∈ interfaceInfos state /\ Qualifies info base) ->
        is_Some (onInterface listeners decl))
  /\ (forall alias, onTypeAlias listeners alias = None)
  /\ onProgram listeners = None.
Proof.
  intros Hmiss services listeners state.
  assert (listeners = {| onProgram := None;
                         onInterface :=
                           preferInterfaceExtension_TSInterfaceDeclaration host state nodeMap;
                         onTypeAlias := fun _ => None |}) as ->.
  { subst listeners. unfold preferInterfaceExtension_create, getProgramState. simpl.
    by rewrite Hmiss. }
  pose proof (buildProgramState_interfaces host program : InterfacesOnly state) as Hinterfaces.
  pose proof (buildProgramState_checker host program : checker state = _) as Hchecker.
  clearbody state.
  split_and!; simpl; [| |done|done].
  - intros r. unfold preferInterfaceExtension_TSInterfaceDeclaration.
    destruct (interface_id decl) as [i|]; [|done].
    destruct (hasLength (interface_extends decl)); [done|].
    destruct (nonEmpty (interface_body decl)) eqn:Hbody; [|done]. simpl.
    destruct (infoOf state nodeMap (interface_node decl)) as [info|]; [|done].
    destruct (shape info) as [key props|]; [|done].
    destruct (nonEmpty props); [|done]. simpl.
    destruct (findBestInterfaceBase host info (interfaceInfos state)) as [base|] eqn:Hbest;
      [|done].
    intros [= <-]. apply findBestInterfaceBase_member in Hbest as [Hin Hq].
    exists info, base. split_and!; try done.
    + by apply nonEmpty_spec.
    + by apply Hinterfaces.
    + by rewrite Hchecker.
  - intros info [i Hid] Hextends Hbody Hinfo Hbase.
    unfold preferInterfaceExtension_TSInterfaceDeclaration.
    rewrite Hid, Hextends, Hinfo. apply nonEmpty_spec in Hbody. rewrite Hbody. simpl.
    destruct (proj2 (findBestInterfaceBase_is_Some host info (interfaceInfos state)) Hbase)
      as [base Hbest].
    destruct Hbase as (base' & _ & Hq). apply Qualifies_target in Hq.
    unfold propertiesOf in Hq. destruct (shape info) as [key props|]; [|done].
    apply nonEmpty_spec in Hq. rewrite Hq. simpl. by rewrite Hbest.
Qed.

Lemma preferred_base_qualifies_witness :
  onInterface
    (preferInterfaceExtension_create Examples.byteHost ∅ (Some Inheritance.services)).1
    (Inheritance.interfaceNode 202 None)
  = Some (preferExtension "Derived" "Base")
  /\ is_Some (onInterface
       (preferInterfaceExtension_create Examples.byteHost ∅ (Some Inheritance.services)).1
       (Inheritance.interfaceNode 203 None)).
Proof.
  split; [vm_compute; reflexivity|].
  destruct (preferred_base_qualifies Examples.byteHost ∅ Inheritance.program
              (fun n => Some n) (Inheritance.interfaceNode 203 None) (lookup_empty _))
    as (_ & Hreported & _).
  apply (Hreported Inheritance.childInfo).
  - by eexists.
  - reflexivity.
  - discriminate.
  - vm_compute; reflexivity.
  - exists Inheritance.baseInfo. split.
    + assert (interfaceInfos (buildProgramState Examples.byteHost Inheritance.program)
              = [Inheritance.baseInfo; Inheritance.derivedInfo; Inheritance.childInfo]) as ->
        by (vm_compute; reflexivity).
      apply elem_of_cons. left. reflexivity.
    + apply passes_spec. reflexivity.
Defined.

(** ** Small functions of declarations.ts *)

(** X9.  [isSubset base derived] holds exactly when every fact of [base]
    occurs, equal in all four fields, in [derived]; order and repetition
    play no part, every list is a subset of itself, and the relation is
    transitive. *)
Theorem isSubset_is_inclusion :
  (forall base derived,
     isSubset base derived = true <-> forall p, p ∈ base -> p ∈ derived)
  /\ (forall props, isSubset props props = true)
  /\ (forall a b c, isSubset a b = true -> isSubset b c = true -> isSubset a c = true)
  /\ (forall base base' derived derived',
        base ≡ₚ base' -> derived ≡ₚ derived' ->
        isSubset base derived = isSubset base' derived').
Proof.
  split_and!.
  - apply isSubset_spec.
  - intros props. by apply isSubset_spec.
  - intros a b c. rewrite !isSubset_spec. auto.
  - intros base base' derived derived' Hbase Hderived.
    apply eq_true_iff_eq. rewrite !isSubset_spec.
    split; intros H p Hp.
    + rewrite <- Hderived. apply H. by rewrite Hbase.
    + rewrite Hderived. apply H. by rewrite <- Hbase.
Qed.

Lemma isSubset_is_inclusion_witness :
  isSubset [Examples.fact "b" "number"; Examples.fact "a" "string"; Examples.fact "b" "number"]
    [Examples.fact "a" "string"; Examples.fact "b" "number"; Examples.fact "c" "boolean"]
  = true.
Proof.
  apply (proj1 isSubset_is_inclusion). intros p Hp.
  repeat (apply elem_of_cons in Hp as [->|Hp]);
    [apply elem_of_cons; right; apply elem_of_cons; by left
    |apply elem_of_cons; by left
    |apply elem_of_cons; right; apply elem_of_cons; by left|].
  by apply elem_of_nil in Hp.
Defined.

Section PathFacts.
Context (host : Host).

Lemma replaceSep_idempotent c s :
  Js.replaceSep c (Js.replaceSep c s) = Js.replaceSep c s.
Proof.
  induction s as [|a s IH]; simpl; [done|]. rewrite IH. f_equal.
  destruct (Ascii.eqb_spec a c) as [->|Hne].
  - by destruct (Ascii.eqb "/"%char c).
  - by destruct (Ascii.eqb_spec a c).
Qed.

Lemma replaceSep_length c s : String.length (Js.replaceSep c s) = String.length s.
Proof. induction s as [|a s IH]; simpl; [done|]. by rewrite IH. Qed.

Lemma replaceSep_slash s : Js.replaceSep "/"%char s = s.
Proof.
  induction s as [|a s IH]; simpl; [done|]. rewrite IH. f_equal.
  by destruct (Ascii.eqb_spec a "/"%char).
Qed.

Lemma replaceSep_removes c s :
  c <> "/"%char -> c ∉ String.list_ascii_of_string (Js.replaceSep c s).
Proof.
  intros Hc. induction s as [|a s IH]; simpl; [by intros ?%elem_of_nil|].
  intros [Heq|Hin]%elem_of_cons; [|done].
  destruct (Ascii.eqb_spec a c) as [->|Hne]; congruence.
Qed.
End PathFacts.



(** X11.  For a collation that is a total order, [compareDeclarationInfo]
    is a comparison a sort can rely on: swapping the arguments swaps the
    sign, "not after" is transitive, the result is 0 exactly for two
    records with the same normalised path and the same position, and it is
    at most 0 exactly when the first record is at or before the second in
    declaration order. *)
Theorem compareDeclarationInfo_consistent host (laws : HostLaws host) :
  (forall a b, Z.sgn (compareDeclarationInfo host a b)
               = - Z.sgn (compareDeclarationInfo host b a))
  /\ (forall a b c, compareDeclarationInfo host a b <= 0 ->
        compareDeclarationInfo host b c <= 0 -> compareDeclarationInfo host a c <= 0)
  /\ (forall a b, compareDeclarationInfo host a b = 0 <->
        normalizePath host (fileName (sourceFile a))
        = normalizePath host (fileName (sourceFile b))
        /\ pos (node a) = pos (node b))
  /\ (forall a b, compareDeclarationInfo host a b <= 0 <-> DeclarationOrder host a b).
Proof.
  split_and!.
  - by apply compareDeclarationInfo_antisym.
  - by apply compareDeclarationInfo_trans.
  - intros a b. unfold compareDeclarationInfo.
    destruct (String.eqb_spec (normalizePath host (fileName (sourceFile a)))
                (normalizePath host (fileName (sourceFile b)))) as [Heq|Hne]; simpl.
    + split; [intros; split; [done|lia]|]. intros [_ ?]. lia.
    + split; [|by intros [? _]]. intros H0. by apply (localeCompare_eq host laws) in H0.
  - by apply compareDeclarationInfo_order.
Qed.

Lemma compareDeclarationInfo_consistent_witness :
  HostLaws Examples.collatingHost
  /\ compareDeclarationInfo Examples.collatingHost Examples.baseBC Examples.baseAB <= 0
  /\ DeclarationOrder Examples.collatingHost Examples.baseBC Examples.baseAB.
Proof.
  split; [exact collatingHost_laws|].
  assert (compareDeclarationInfo Examples.collatingHost Examples.baseBC Examples.baseAB <= 0)
    as Hle by (vm_compute; discriminate).
  split; [exact Hle|].
  by apply (compareDeclarationInfo_consistent Examples.collatingHost collatingHost_laws).
Defined.

Section SkipFacts.

Lemma prefix_spec needle hay :
  String.prefix needle hay = true <-> exists post, hay = needle +:+ post.
Proof.
  revert hay. induction needle as [|a needle IH]; intros hay; simpl.
  - destruct hay; split; eauto.
  - destruct hay as [|b hay]; simpl.
    + split; [done|]. by intros (? & ?).
    + destruct (Ascii.ascii_dec a b) as [->|Hne].
      * rewrite IH. split; [intros (post & ->); eauto|].
        intros (post & [= ->]). eauto.
      * split; [done|]. intros (post & [= ? _]). done.
Qed.

Lemma includes_spec needle hay :
  Js.includes needle hay = true <-> exists pre post, hay = pre +:+ needle +:+ post.
Proof.
  induction hay as [|c hay IH].
  - change (Js.includes needle "") with (String.prefix needle "" || false).
    rewrite orb_false_r, prefix_spec. split.
    + intros (post & ->). by exists "", post.
    + intros ([|? ?] & post & Heq); [|done]. by exists post.
  - change (Js.includes needle (String c hay))
      with (String.prefix needle (String c hay) || Js.includes needle hay).
    rewrite orb_true_iff, IH, prefix_spec. split.
    + intros [(post & ->)|(pre & post & ->)]; [by exists "", post|].
      by exists (String c pre), post.
    + intros ([|c' pre] & post & Heq); [left; by exists post|].
      injection Heq as <- ->. right. by exists pre, post.
Qed.
End SkipFacts.

(** X12.  A source file is skipped by the walk exactly when it is a
    declaration file or its normalised path has [/node_modules/] somewhere
    in it (with both slashes: a path that only starts with [node_modules/]
    or ends in [/node_modules] is not skipped). *)
Theorem shouldSkipSourceFile_spec host sf :
  shouldSkipSourceFile host sf = true <->
  isDeclarationFile sf = true
  \/ exists pre post, normalizePath host (fileName sf) = pre +:+ "/node_modules/" +:+ post.
Proof.
  unfold shouldSkipSourceFile. destruct (isDeclarationFile sf).
  - split; [by left|done].
  - rewrite includes_spec. split; [by right|]. by intros [?|?].
Qed.

Lemma shouldSkipSourceFile_spec_witness :
  shouldSkipSourceFile {| localeCompare := Js.defaultCompare; sep := "\"%char |}
    {| fileName := "C:\app\node_modules\lib\index.ts"; isDeclarationFile := false;
       statements := [] |} = true
  /\ shouldSkipSourceFile Examples.byteHost
       {| fileName := "node_modules/lib/index.ts"; isDeclarationFile := false;
          statements := [] |} = false.
Proof.
  split; [|reflexivity].
  apply (shouldSkipSourceFile_spec {| localeCompare := Js.defaultCompare; sep := "\"%char |}).
  right. by exists "C:/app", "lib/index.ts".
Defined.

(** ** More on shape.ts *)

Section ShapeMoreFacts.
Context (host : Host) (chk : TypeChecker).

Lemma visitEach_constant {S : Type} (v : TypeId -> S -> option (string * S)) key ts m :
  (forall t m, v t m = Some (key, m)) ->
  visitEach v ts m = Some (replicate (length ts) key, m).
Proof.
  intros Hv. induction ts as [|t ts IH]; simpl; [done|].
  rewrite Hv. simpl. by rewrite IH.
Qed.

Lemma sortStrings_replicate n key :
  Js.sortStrings (replicate n key) = replicate n key.
Proof.
  apply sort_sorted. induction n as [|n IH]; simpl; constructor; [done|].
  apply Forall_forall. intros x ->%elem_of_replicate_inv.
  unfold NotAfter, Js.defaultCompare. by rewrite compare_refl.
Qed.

Lemma cachedKey_Some memo t key :
  cachedKey memo t = Some key <-> memo !! t = Some key /\ Js.truthy key = true.
Proof.
  unfold cachedKey. destruct (memo !! t) as [k|]; [|split; [done|by intros [? _]]].
  destruct (Js.truthy k) eqn:Hk; split.
  - by intros [= <-].
  - by intros [[= <-] _].
  - done.
  - intros [[= <-] ?]. congruence.
Qed.

Lemma visit_stores fuel na fb t d memo key memo' :
  0 < d -> visit host chk fuel na fb t d memo = Some (key, memo') ->
  memo' !! t = Some key.
Proof.
  intros Hd. destruct fuel as [|fuel]; simpl;
    destruct (Z.leb_spec d 0); try lia; [done|].
  destruct (cachedKey memo t) as [cached|] eqn:Hcached.
  - intros [= <- <-]. by apply cachedKey_Some in Hcached as [? _].
  - destruct (classify _ _ _ _ _ _ _ _ _) as [[r m1]|]; simpl; [|done].
    intros [= <- <-]. apply lookup_insert_eq.
Qed.

Lemma collectProperties_getProperties type o :
  collectProperties host chk type o <> [] ->
  0 < depthLimitOr 7 o /\ getProperties chk type <> [].
Proof.
  rewrite collectProperties_unfold.
  destruct (Z.leb_spec (depthLimitOr 7 o) 0); [done|]. intros Hne. split; [lia|].
  intros Hnil. apply Hne. unfold propertyFacts. by rewrite Hnil.
Qed.
End ShapeMoreFacts.

(** X13.  For a declaration whose type carries no alias information and is
    neither a union nor an intersection nor indexed by strings, the
    canonical key of an [ObjectShape] is the rendering of the property list
    stored in the same shape: [object{...}] with one entry
    [readonly name?:typeKey] per property, joined by commas.  Two such
    declarations with equal property lists therefore have equal keys. *)
Theorem object_key_renders_properties host chk symbol o key props decl rest :
  describeDeclaration host chk symbol o = Some (ObjectShape key props) ->
  getDeclarations chk symbol = Some (decl :: rest) ->
  hasAliasInfo chk (getTypeAtLocation chk decl) = false ->
  isUnion chk (getTypeAtLocation chk decl) = false ->
  isIntersection chk (getTypeAtLocation chk decl) = false ->
  getIndexInfoOfType chk (getTypeAtLocation chk decl) IndexKindString = None ->
  props <> []
  /\ key = "object{" +:+ Js.join "," (map entryOf props) +:+ "}".
Proof.
  intros Hdescribe Hdecl Halias Hunion Hinter Hindex.
  pose proof (describeDeclaration_object host chk _ _ _ _ Hdescribe) as Hprops.
  split; [done|].
  destruct (describeDeclaration_Some host chk _ _ _ Hdescribe) as (decl' & rest' & Hdecl' & Hshape).
  rewrite Hdecl in Hdecl'. injection Hdecl' as <- <-. simpl in Hshape.
  set (type := getTypeAtLocation chk decl) in *.
  set (d := default 8 (depthLimit o)) in *.
  set (na := default true (normalizeAlias o)) in *.
  destruct (nonEmpty (collectProperties host chk type (internalOptions (d - 1) na decl)))
    eqn:Hne; [|done].
  injection Hshape as -> ->.
  apply nonEmpty_spec, collectProperties_getProperties in Hne as [Hdepth Hown].
  change (depthLimitOr 7 (internalOptions (d - 1) na decl)) with (d - 1) in Hdepth.
  assert (resolveAlias chk na type = type) as Hres
    by (unfold resolveAlias; by rewrite Halias, andb_false_r).
  rewrite canonicalizeType_plain; [by rewrite Hres|lia|].
  unfold PlainObject. by rewrite Hres.
Qed.

Lemma object_key_renders_properties_witness :
  describeDeclaration Examples.byteHost Inheritance.checker 202%N noOptions
  = Some (shape Inheritance.derivedInfo)
  /\ "object{a:string,b:number}"
     = "object{" +:+ Js.join ","
         (map entryOf [Examples.fact "a" "string"; Examples.fact "b" "number"]) +:+ "}".
Proof.
  assert (describeDeclaration Examples.byteHost Inheritance.checker 202%N noOptions
          = Some (shape Inheritance.derivedInfo)) as Hdescribe by (vm_compute; reflexivity).
  split; [exact Hdescribe|].
  apply (object_key_renders_properties Examples.byteHost Inheritance.checker 202%N noOptions
           _ _ 1202%N [] Hdescribe); reflexivity.
Defined.



(** X15.  At depth limit 1 the key of a union or of an intersection tells
    nothing but the number of its members: every member key is the
    sentinel. *)
Theorem union_key_at_depth_one host chk type na fb :
  isUnion chk (resolveAlias chk na type) = true
  \/ isIntersection chk (resolveAlias chk na type) = true ->
  let members := length (types chk (resolveAlias chk na type)) in
  canonicalizeType host chk type (internalOptions 1 na fb)
  = if isUnion chk (resolveAlias chk na type)
    then "union<" +:+ Js.join "|" (replicate members DepthLimit) +:+ ">"
    else "intersection<" +:+ Js.join "&" (replicate members DepthLimit) +:+ ">".
Proof.
  intros Hkind members.
  pose proof (canonicalizeType_step host chk type 1 na fb ltac:(lia)) as Hstep.
  unfold classify in Hstep.
  rewrite (visitEach_constant _ DepthLimit) in Hstep by done.
  cbn [mbind option_bind fmap option_fmap option_map fst] in Hstep.
  rewrite sortStrings_replicate in Hstep. fold members in Hstep.
  destruct (isUnion chk (resolveAlias chk na type)); [by injection Hstep as ->|].
  destruct Hkind as [?|Hinter]; [done|]. rewrite Hinter in Hstep.
  by injection Hstep as ->.
Qed.

Lemma union_key_at_depth_one_witness :
  canonicalizeType Examples.byteHost Examples.exampleChecker Examples.tAB
    (internalOptions 1 true 0%N)
  = "union<#DepthLimit|#DepthLimit>".
Proof.
  apply (union_key_at_depth_one Examples.byteHost Examples.exampleChecker Examples.tAB true 0%N).
  left. reflexivity.
Defined.

(** X16.  At a positive depth limit [collectProperties] returns one fact
    per property of the type, none dropped and none added: the result is a
    rearrangement of the facts of the properties, and its names are those
    of the properties. *)
Theorem collectProperties_keeps_every_property host chk type o :
  0 < depthLimitOr 7 o ->
  collectProperties host chk type o
    ≡ₚ propertyFacts host chk type (depthLimitOr 7 o) (normalizeAliasOf o) (fallbackNode o)
  /\ map name (collectProperties host chk type o)
       ≡ₚ map (getName chk) (getProperties chk type)
  /\ length (collectProperties host chk type o) = length (getProperties chk type).
Proof.
  intros Hd. rewrite collectProperties_unfold.
  destruct (Z.leb_spec (depthLimitOr 7 o) 0); [lia|].
  assert (map name (propertyFacts host chk type (depthLimitOr 7 o) (normalizeAliasOf o)
                      (fallbackNode o))
          = map (getName chk) (getProperties chk type)) as Hnames.
  { unfold propertyFacts. rewrite map_map. done. }
  split_and!.
  - apply sort_Permutation.
  - rewrite <- Hnames. apply Permutation_map, sort_Permutation.
  - rewrite sort_length. unfold propertyFacts. by rewrite length_map.
Qed.

Lemma collectProperties_keeps_every_property_witness :
  map name (collectProperties Examples.collatingHost Examples.exampleChecker Examples.tMixed
              (internalOptions 7 true 0%N))
  ≡ₚ ["B"; "a"].
Proof.
  apply (collectProperties_keeps_every_property Examples.collatingHost
           Examples.exampleChecker Examples.tMixed (internalOptions 7 true 0%N)).
  reflexivity.
Defined.

(** X17.  The key of a type depends on the type only through the type the
    alias normalisation resolves it to: two types that resolve to the same
    type have the same key at every depth limit.  In particular an alias
    gets the key of its apparent type. *)
Theorem key_of_resolved_type host chk type1 type2 d na fb :
  resolveAlias chk na type1 = resolveAlias chk na type2 ->
  canonicalizeType host chk type1 (internalOptions d na fb)
  = canonicalizeType host chk type2 (internalOptions d na fb).
Proof.
  intros Hresolved. destruct (Z.leb_spec d 0) as [Hd|Hd].
  - by rewrite !canonicalizeType_limit.
  - assert (Some (canonicalizeType host chk type1 (internalOptions d na fb))
            = Some (canonicalizeType host chk type2 (internalOptions d na fb))) as [= ->];
      [|done].
    by rewrite !canonicalizeType_step, Hresolved.
Qed.

Lemma key_of_resolved_type_witness :
  canonicalizeType Examples.byteHost Aliases.checker Aliases.tPlainAlias
    (internalOptions 8 true 0%N)
  = "object{a:string}"
  /\ canonicalizeType Examples.byteHost Aliases.checker Aliases.tPlainAlias
       (internalOptions 8 true 0%N)
     = canonicalizeType Examples.byteHost Aliases.checker Examples.tPlain
         (internalOptions 8 true 0%N)
  /\ canonicalizeType Examples.byteHost Aliases.checker Aliases.tPlainAlias
       (internalOptions 8 false 0%N)
     = "PlainAlias".
Proof.
  split; [reflexivity|]. split; [|reflexivity].
  apply (key_of_resolved_type Examples.byteHost Aliases.checker Aliases.tPlainAlias
           Examples.tPlain 8 true 0%N).
  reflexivity.
Defined.

(** ** The walk misses nothing *)

Section ReachFacts.
Context (host : Host).

Lemma forEachChild_foldl sf children : forall st,
  (fix forEachChild (cs : list Node) (st : ProgramState) : ProgramState :=
     match cs with
     | [] => st
     | c :: rest => forEachChild rest (visitNode host sf c st)
     end) children st
  = foldl (fun st n => visitNode host sf n st) st children.
Proof. induction children as [|c children IH]; intros st; simpl; [done|apply IH]. Qed.

Lemma visitNode_unfold sf n st :
  visitNode host sf n st
  = if isDeclaration n then
      match resolve host (checker st) n with
      | Some (symbol, shape) =>
          foldl (fun st c => visitNode host sf c st)
            (record {| symbol := symbol; node := n; sourceFile := sf; shape := shape |} st)
            (node_children n)
      | None => st
      end
    else foldl (fun st c => visitNode host sf c st) st (node_children n).
Proof.
  destruct n as [id kind nm p children]. unfold resolve, isDeclaration.
  cbn [visitNode node_name node_children].
  destruct (_ || _); [|apply forEachChild_foldl]. destruct nm as [nm|]; [|done].
  destruct (getSymbolAtLocation (checker st) nm); [|done].
  destruct (describeDeclaration host (checker st) _ noOptions); [|done].
  apply forEachChild_foldl.
Qed.

Lemma record_Indexed info st x : Indexed st x -> Indexed (record info st) x.
Proof.
  intros (Hb & Hl & Hn).
  split_and!; [by apply record_Bucketed|by apply record_Listed|].
  unfold record. simpl.
  destruct (decide (node_id (node info) = node_id (node x))) as [->|Hne].
  - by rewrite lookup_insert_eq.
  - by rewrite lookup_insert_ne.
Qed.

Lemma record_Indexed_new info st : Indexed (record info st) info.
Proof.
  split_and!; [apply record_Bucketed_new|apply record_Listed_new|].
  unfold record. simpl. by rewrite lookup_insert_eq.
Qed.

Lemma visitNode_Indexed sf n x st : Indexed st x -> Indexed (visitNode host sf n st) x.
Proof.
  apply (visitNode_preserves host (fun st => Indexed st x)).
  intros info st'. apply record_Indexed.
Qed.

Lemma visitNode_checker sf n st : checker (visitNode host sf n st) = checker st.
Proof.
  apply (visitNode_preserves host (fun st' => checker st' = checker st)); [|done].
  by intros info st' <-.
Qed.

Lemma foldl_visitNode_Indexed sf nodes x : forall st,
  Indexed st x -> Indexed (foldl (fun st n => visitNode host sf n st) st nodes) x.
Proof.
  induction nodes as [|n nodes IH]; intros st Hx; simpl; [done|].
  by apply IH, visitNode_Indexed.
Qed.

Lemma foldl_visitNode_reaches chk sf nodes child x :
  child ∈ nodes ->
  (forall st, checker st = chk -> Indexed (visitNode host sf child st) x) ->
  forall st, checker st = chk ->
    Indexed (foldl (fun st n => visitNode host sf n st) st nodes) x.
Proof.
  intros Hchild Hvisit. induction nodes as [|n nodes IH]; intros st Hst; simpl.
  - by apply elem_of_nil in Hchild.
  - apply elem_of_cons in Hchild as [<-|Hchild].
    + by apply foldl_visitNode_Indexed, Hvisit.
    + apply IH; [done|]. by rewrite visitNode_checker.
Qed.

Lemma visitNode_reaches chk sf root n symbol shape :
  Reaches host chk root n -> isDeclaration n = true ->
  resolve host chk n = Some (symbol, shape) ->
  forall st, checker st = chk ->
    Indexed (visitNode host sf root st)
      {| symbol := symbol; node := n; sourceFile := sf; shape := shape |}.
Proof.
  intros Hreach Hkind Hresolve.
  induction Hreach as [n|root child n Hroot Hchild Hreach IH]; intros st Hst;
    rewrite visitNode_unfold, Hst.
  - rewrite Hkind, Hresolve. apply foldl_visitNode_Indexed, record_Indexed_new.
  - destruct (isDeclaration root).
    + destruct (Hroot eq_refl) as [[symbol' shape'] ->].
      eapply foldl_visitNode_reaches; [done| |done]. by apply IH.
    + eapply foldl_visitNode_reaches; [done| |done]. by apply IH.
Qed.

Lemma visitSourceFile_checker st sf : checker (visitSourceFile host st sf) = checker st.
Proof.
  apply (visitSourceFile_preserves host (fun st' => checker st' = checker st)); [|done].
  by intros info st' <-.
Qed.

Lemma visitSourceFile_Indexed st sf x :
  Indexed st x -> Indexed (visitSourceFile host st sf) x.
Proof.
  apply (visitSourceFile_preserves host (fun st => Indexed st x)).
  intros info st'. apply record_Indexed.
Qed.

Lemma walk_reaches chk files sf root n symbol shape :
  sf ∈ files -> shouldSkipSourceFile host sf = false -> root ∈ statements sf ->
  Reaches host chk root n -> isDeclaration n = true ->
  resolve host chk n = Some (symbol, shape) ->
  forall st, checker st = chk ->
    Indexed (foldl (visitSourceFile host) st files)
      {| symbol := symbol; node := n; sourceFile := sf; shape := shape |}.
Proof.
  intros Hsf Hskip Hroot Hreach Hkind Hresolve.
  induction files as [|file files IH]; intros st Hst; simpl.
  - by apply elem_of_nil in Hsf.
  - apply elem_of_cons in Hsf as [<-|Hsf].
    + apply (walk_preserves host (fun st => Indexed st _)).
      { intros info st'. apply record_Indexed. }
      unfold visitSourceFile. rewrite Hskip.
      eapply foldl_visitNode_reaches; [exact Hroot| |done].
      intros st' Hst'. by eapply visitNode_reaches.
    + apply IH; [done|]. by rewrite visitSourceFile_checker.
Qed.

Lemma sorted_Indexed st x :
  Indexed st x ->
  Indexed {| byCanonical := Js.sort (compareDeclarationInfo host) <$> byCanonical st;
             byNode := byNode st;
             interfaceInfos := Js.sort (compareDeclarationInfo host) (interfaceInfos st);
             checker := checker st |} x.
Proof.
  intros (Hb & Hl & Hn). split_and!; [| |done].
  - intros key props Hshape. destruct (Hb key props Hshape) as (bucket & Hbucket & Hin).
    exists (Js.sort (compareDeclarationInfo host) bucket). simpl.
    rewrite lookup_fmap, Hbucket. split; [done|]. by apply elem_of_sort.
  - intros Hkind. simpl. apply elem_of_sort. by apply Hl.
Qed.
End ReachFacts.

(** X18.  The walk of [getProgramState] misses no declaration: an
    interface or alias node of a file that is not skipped, whose name
    resolves to a symbol with a shape, and which is not below a declaration
    node that fails to resolve, has its record in the built state: in the
    bucket of its canonical key if the shape is an object shape, in
    [interfaceInfos] if the node is an interface declaration, and [byNode]
    has an entry for the node. *)
Theorem walk_misses_no_declaration host program sf root n symbol shape :
  sf ∈ getSourceFiles program ->
  shouldSkipSourceFile host sf = false ->
  root ∈ statements sf ->
  Reaches host (getTypeChecker program) root n ->
  isDeclaration n = true ->
  resolve host (getTypeChecker program) n = Some (symbol, shape) ->
  Indexed (buildProgramState host program)
    {| symbol := symbol; node := n; sourceFile := sf; shape := shape |}.
Proof.
  intros Hsf Hskip Hroot Hreach Hkind Hresolve.
  unfold buildProgramState. apply sorted_Indexed.
  by eapply walk_reaches.
Qed.

Lemma walk_misses_no_declaration_witness :
  map symbol (interfaceInfos (buildProgramState Examples.byteHost Aliases.program)) = [209%N]
  /\ Indexed (buildProgramState Examples.byteHost Aliases.program)
       {| symbol := 209; node := Examples.declaration InterfaceDeclaration 209 20;
          sourceFile := Aliases.nested; shape := ObjectShape "object{a:string}"
                                                   [Examples.fact "a" "string"] |}.
Proof.
  split; [vm_compute; reflexivity|].
  apply (walk_misses_no_declaration Examples.byteHost Aliases.program Aliases.nested
           (MkNode 5000 OtherKind None 0
              [MkNode 5001 OtherKind None 10
                 [Examples.declaration InterfaceDeclaration 209 20]])).
  - apply elem_of_cons. by left.
  - reflexivity.
  - apply elem_of_cons. by left.
  - eapply Reaches_below; [discriminate|apply elem_of_cons; by left|].
    eapply Reaches_below; [discriminate|apply elem_of_cons; by left|].
    apply Reaches_here.
  - reflexivity.
  - vm_compute; reflexivity.
Defined.
